(** * pr-review-service: reviewer assignment over a relational store

    A shallow embedding of [internal/model], [internal/repo/postgres.go]
    and [internal/service/service.go].

    The store is a record of four tables.  Every statement the repository
    sends is a function on that record which performs the checks of the
    schema in [internal/db/migrate.go] (primary keys, foreign keys).  The
    environment of a call (store failures, the process clock, the order
    [random()] produces) is scripted in the [World] the call runs in, so
    every operation is an executable state-passing function. *)

From Stdlib Require Import Ascii.
From stdpp Require Import gmap strings list fin_maps sorting.

Local Open Scope string_scope.

(** ** Package [model] *)

Abbreviation Time := Z.

Record TeamMember := {
  Member_UserID : string;
  Member_Username : string;
  Member_IsActive : bool
}.

Record Team := {
  TeamName : string;
  Members : list TeamMember
}.

Record User := {
  User_UserID : string;
  User_Username : string;
  User_TeamName : string;
  User_IsActive : bool
}.

Inductive PullRequestStatus := PRStatusOpen | PRStatusMerged.

Record PullRequest := {
  PR_ID : string;
  PR_Name : string;
  PR_AuthorID : string;
  PR_Status : PullRequestStatus;
  AssignedReviewers : list string;
  CreatedAt : option Time;
  MergedAt : option Time
}.

Record PullRequestShort := {
  Short_ID : string;
  Short_Name : string;
  Short_AuthorID : string;
  Short_Status : PullRequestStatus
}.

Record ReviewerStat := {
  Stat_UserID : string;
  Assignments : nat
}.

#[global] Instance TeamMember_eq_dec : EqDecision TeamMember.
Proof. solve_decision. Defined.
#[global] Instance PullRequestStatus_eq_dec : EqDecision PullRequestStatus.
Proof. solve_decision. Defined.
#[global] Instance PullRequestShort_eq_dec : EqDecision PullRequestShort.
Proof. solve_decision. Defined.
#[global] Instance ReviewerStat_eq_dec : EqDecision ReviewerStat.
Proof. solve_decision. Defined.

(** ** Errors

    The six sentinels of package [service], [sql.ErrNoRows], the value
    [errors.New(msg)] the repository builds itself, and whatever the store
    or the driver reports. *)

Inductive error :=
| ErrTeamExists
| ErrPRExists
| ErrPRMerged
| ErrNotAssigned
| ErrNoCandidate
| ErrNotFound
| sql_ErrNoRows
| errors_New (msg : string)
| StoreErr (msg : string).

#[global] Instance error_eq_dec : EqDecision error.
Proof. solve_decision. Defined.

(** [err.Error()] *)
Definition Error (e : error) : string :=
  match e with
  | ErrTeamExists => "team_exists"
  | ErrPRExists => "pr_exists"
  | ErrPRMerged => "pr_merged"
  | ErrNotAssigned => "not_assigned"
  | ErrNoCandidate => "no_candidate"
  | ErrNotFound => "not_found"
  | sql_ErrNoRows => "sql: no rows in result set"
  | errors_New msg => msg
  | StoreErr msg => msg
  end.

(** [errors.Is(err, target)] on unwrapped errors: identity. *)
Definition errors_Is (e target : error) : bool := bool_decide (e = target).

Inductive result (A : Type) :=
| Ok (a : A)
| Err (e : error).
Arguments Ok {A} a.
Arguments Err {A} e.

(** ** The store: tables of [migrate.go] *)

Record user_row := {
  username : string;
  team_name : string;
  is_active : bool
}.

Record pr_row := {
  pull_request_name : string;
  author_id : string;
  status : PullRequestStatus;
  created_at : Time;
  merged_at : option Time
}.

(** [teams], [users] and [pull_requests] are keyed by their primary key;
    [pull_request_reviewers] keeps its rows in the order they were
    inserted, its primary key (pull_request_id, user_id) being checked at
    every insert. *)
Record DB := {
  teams : gset string;
  users : gmap string user_row;
  pull_requests : gmap string pr_row;
  pull_request_reviewers : list (string * string)
}.

Definition empty_db : DB :=
  {| teams := ∅; users := ∅; pull_requests := ∅; pull_request_reviewers := [] |}.

Definition set_teams (f : gset string → gset string) (d : DB) : DB :=
  {| teams := f (teams d); users := users d;
     pull_requests := pull_requests d;
     pull_request_reviewers := pull_request_reviewers d |}.

Definition set_users (f : gmap string user_row → gmap string user_row) (d : DB) : DB :=
  {| teams := teams d; users := f (users d);
     pull_requests := pull_requests d;
     pull_request_reviewers := pull_request_reviewers d |}.

Definition set_pull_requests (f : gmap string pr_row → gmap string pr_row) (d : DB) : DB :=
  {| teams := teams d; users := users d;
     pull_requests := f (pull_requests d);
     pull_request_reviewers := pull_request_reviewers d |}.

Definition set_reviewers (f : list (string * string) → list (string * string)) (d : DB) : DB :=
  {| teams := teams d; users := users d;
     pull_requests := pull_requests d;
     pull_request_reviewers := f (pull_request_reviewers d) |}.

(** Violations the store reports (SQLSTATE classes of PostgreSQL). *)
Definition unique_violation : error := StoreErr "pq: duplicate key value violates unique constraint".
Definition foreign_key_violation : error := StoreErr "pq: insert or update violates foreign key constraint".
Definition not_null_violation : error := StoreErr "pq: null value violates not-null constraint".
Definition syntax_error : error := StoreErr "pq: syntax error".

(** *** Statements *)

(** [SELECT EXISTS (SELECT 1 FROM teams WHERE name=$1)] *)
Definition select_team_exists (name : string) (d : DB) : bool :=
  bool_decide (name ∈ teams d).

(** [INSERT INTO teams(name) VALUES ($1)] *)
Definition insert_team (name : string) (d : DB) : result DB :=
  if bool_decide (name ∈ teams d) then Err unique_violation
  else Ok (set_teams (λ ts, {[name]} ∪ ts) d).

(** [INSERT INTO users ... ON CONFLICT (user_id) DO UPDATE SET ...] *)
Definition upsert_user (id uname team : string) (active : bool) (d : DB) : result DB :=
  if bool_decide (team ∈ teams d)
  then Ok (set_users (insert id {| username := uname; team_name := team; is_active := active |}) d)
  else Err foreign_key_violation.

(** The rows of [teams t LEFT JOIN users u ON u.team_name = t.name WHERE
    t.name=$1]: (t.name, u.user_id, u.username, u.is_active), the last
    three NULL together when the team has no user. *)
Definition team_join_row : Type := string * option (string * string * bool).

Definition users_of_team (name : string) (d : DB) : list (string * user_row) :=
  filter (λ kv, team_name kv.2 = name) (map_to_list (users d)).

Definition select_team_join (name : string) (d : DB) : list team_join_row :=
  if bool_decide (name ∈ teams d) then
    match users_of_team name d with
    | [] => [(name, None)]
    | us => (λ kv, (name, Some (kv.1, username kv.2, is_active kv.2))) <$> us
    end
  else [].

(** [SELECT user_id, username, team_name, is_active FROM users WHERE user_id=$1] *)
Definition select_user (id : string) (d : DB) : option User :=
  (λ r, {| User_UserID := id; User_Username := username r;
           User_TeamName := team_name r; User_IsActive := is_active r |})
    <$> users d !! id.

(** [UPDATE users SET is_active=$1 WHERE user_id=$2 RETURNING ...] *)
Definition update_user_is_active (id : string) (active : bool) (d : DB) : DB * option User :=
  let d' := set_users (alter (λ r, {| username := username r; team_name := team_name r;
                                      is_active := active |}) id) d in
  (d', select_user id d').

(** [SELECT EXISTS (SELECT 1 FROM pull_requests WHERE pull_request_id=$1)] *)
Definition select_pr_exists (id : string) (d : DB) : bool :=
  bool_decide (is_Some (pull_requests d !! id)).

(** [INSERT INTO pull_requests(...) VALUES ($1, $2, $3, 'OPEN', $4)] *)
Definition insert_pull_request (id name author : string) (created : option Time) (d : DB) : result DB :=
  match created with
  | None => Err not_null_violation
  | Some at_ =>
      if bool_decide (is_Some (pull_requests d !! id)) then Err unique_violation
      else if bool_decide (is_Some (users d !! author)) then
        Ok (set_pull_requests (insert id {| pull_request_name := name; author_id := author;
                                            status := PRStatusOpen; created_at := at_;
                                            merged_at := None |}) d)
      else Err foreign_key_violation
  end.

(** [INSERT INTO pull_request_reviewers(pull_request_id, user_id) VALUES ($1, $2)] *)
Definition insert_reviewer (pr uid : string) (d : DB) : result DB :=
  if bool_decide ((pr, uid) ∈ pull_request_reviewers d) then Err unique_violation
  else if bool_decide (is_Some (pull_requests d !! pr) ∧ is_Some (users d !! uid)) then
    Ok (set_reviewers (λ l, (l ++ [(pr, uid)])%list) d)
  else Err foreign_key_violation.

(** [SELECT ... FROM pull_requests WHERE pull_request_id=$1] *)
Definition select_pull_request (id : string) (d : DB) : option pr_row :=
  pull_requests d !! id.

(** [SELECT user_id FROM pull_request_reviewers WHERE pull_request_id=$1] *)
Definition select_reviewers (id : string) (d : DB) : list string :=
  snd <$> filter (λ l, l.1 = id) (pull_request_reviewers d).

(** [UPDATE pull_requests SET status='MERGED', merged_at=$2 WHERE pull_request_id=$1] *)
Definition update_merged (id : string) (mergedAt : option Time) (d : DB) : DB :=
  set_pull_requests (alter (λ r, {| pull_request_name := pull_request_name r;
                                    author_id := author_id r; status := PRStatusMerged;
                                    created_at := created_at r; merged_at := mergedAt |}) id) d.

(** [DELETE FROM pull_request_reviewers WHERE pull_request_id=$1] *)
Definition delete_reviewers (id : string) (d : DB) : DB :=
  set_reviewers (filter (λ l, l.1 ≠ id)) d.

(** [SELECT pr.pull_request_id, pr.pull_request_name, pr.author_id, pr.status
     FROM pull_requests pr JOIN pull_request_reviewers r ON ... WHERE r.user_id=$1] *)
Definition select_prs_by_reviewer (uid : string) (d : DB) : list PullRequestShort :=
  omap (λ l : string * string,
          if bool_decide (l.2 = uid) then
            (λ r, {| Short_ID := l.1; Short_Name := pull_request_name r;
                     Short_AuthorID := author_id r; Short_Status := status r |})
              <$> pull_requests d !! l.1
          else None)
       (pull_request_reviewers d).

(** [SELECT user_id, COUNT( * ) AS assignments FROM pull_request_reviewers
     GROUP BY user_id ORDER BY assignments DESC] *)
Definition count_links (uid : string) (d : DB) : nat :=
  length (filter (λ l, l.2 = uid) (pull_request_reviewers d)).

Definition group_by_user (d : DB) : list ReviewerStat :=
  (λ uid, {| Stat_UserID := uid; Assignments := count_links uid d |})
    <$> remove_dups (snd <$> pull_request_reviewers d).

Definition more_assignments (a b : ReviewerStat) : Prop :=
  (Assignments b ≤ Assignments a)%nat.

#[global] Instance more_assignments_dec a b : Decision (more_assignments a b).
Proof. unfold more_assignments. apply _. Defined.

Definition select_reviewer_stats (d : DB) : list ReviewerStat :=
  merge_sort more_assignments (group_by_user d).

(** *** The candidate query

    [GetRandomActiveReviewersFromTeamExcluding] pastes the excluded ids
    into the text of the statement.  [exclusion_clause] is that text, and
    [read_in_list] is how the store reads it back: an opening parenthesis,
    string constants separated by commas, a closing parenthesis.  Inside a
    string constant a doubled quote stands for one quote
    (standard_conforming_strings). *)

Definition quoted (i : nat) (e : string) : string :=
  if bool_decide (i = 0) then "'" +:+ e +:+ "'" else ", '" +:+ e +:+ "'".

Fixpoint paste_excluded (i : nat) (exclude : list string) (ex : string) : string :=
  match exclude with
  | [] => ex
  | e :: rest => paste_excluded (S i) rest (ex +:+ quoted i e)
  end.

Definition exclusion_clause (exclude : list string) : string :=
  paste_excluded 0 exclude "(" +:+ ")".

Inductive lex_state :=
| AtStart
| WantConstant (seen : list string)
| InConstant (seen : list string) (cur : string)
| QuoteSeen (seen : list string) (cur : string)
| AfterConstant (seen : list string)
| Closed (seen : list string).

Definition after_constant (seen : list string) (c : ascii) : option lex_state :=
  if bool_decide (c = ","%char) then Some (WantConstant seen)
  else if bool_decide (c = ")"%char) then Some (Closed seen)
  else if bool_decide (c = " "%char) then Some (AfterConstant seen)
  else None.

Definition lex_step (st : lex_state) (c : ascii) : option lex_state :=
  match st with
  | AtStart => if bool_decide (c = "("%char) then Some (WantConstant []) else None
  | WantConstant seen =>
      if bool_decide (c = "'"%char) then Some (InConstant seen "")
      else if bool_decide (c = " "%char) then Some (WantConstant seen)
      else None
  | InConstant seen cur =>
      if bool_decide (c = "'"%char) then Some (QuoteSeen seen cur)
      else Some (InConstant seen (cur +:+ String c ""))
  | QuoteSeen seen cur =>
      if bool_decide (c = "'"%char) then Some (InConstant seen (cur +:+ "'"))
      else after_constant (seen ++ [cur])%list c
  | AfterConstant seen => after_constant seen c
  | Closed _ => None
  end.

Fixpoint lex_run (st : lex_state) (s : string) : option lex_state :=
  match s with
  | EmptyString => Some st
  | String c s' =>
      match lex_step st c with
      | Some st' => lex_run st' s'
      | None => None
      end
  end.

Definition read_in_list (ex : string) : option (list string) :=
  match lex_run AtStart ex with
  | Some (Closed seen) => Some seen
  | _ => None
  end.

(** [ORDER BY random()]: the rows come back in the order the numbers of
    the script draw them. *)
Fixpoint draw {A} (n : nat) (seed : list nat) (l : list A) : list A :=
  match n with
  | 0 => []
  | S n' =>
      let k := (hd 0 seed `mod` length l)%nat in
      match l !! k with
      | Some x => x :: draw n' (tl seed) (delete k l)
      | None => []
      end
  end.

Definition shuffle {A} (seed : list nat) (l : list A) : list A :=
  draw (length l) seed l.

(** [WHERE team_name=$1 AND is_active=true AND user_id NOT IN (...)] *)
Definition eligible (team : string) (excluded : list string) (kv : string * user_row) : Prop :=
  team_name kv.2 = team ∧ is_active kv.2 = true ∧ kv.1 ∉ excluded.

#[global] Instance eligible_dec team excluded kv : Decision (eligible team excluded kv).
Proof. unfold eligible. apply _. Defined.

Definition eligible_users (team : string) (excluded : list string) (d : DB) : list string :=
  fst <$> filter (eligible team excluded) (map_to_list (users d)).

(** ** The world a call runs in *)

(** One call of the candidate query: its arguments and the clause built. *)
Record invocation := {
  inv_team : string;
  inv_limit : nat;
  inv_exclude : list string;
  inv_clause : string
}.

(** - [faults]: one entry per round trip to the store still to come,
      [Some msg] when that round trip fails with [msg]; none past the end;
    - [clock]: the readings [time.Now()] will give;
    - [rng]: the numbers behind [random()];
    - [other_clause]: what the store answers to a candidate query whose
      clause is not a list of string constants (a rejection or any rows);
    - [invoked]: the calls of the candidate query so far, latest first. *)
Record World := {
  db : DB;
  faults : list (option string);
  clock : list Time;
  rng : list nat;
  other_clause : DB → string → nat → string → result (list string);
  invoked : list invocation
}.

#[global] Instance invocation_eq_dec : EqDecision invocation.
Proof. solve_decision. Defined.

Definition set_db (d : DB) (w : World) : World :=
  {| db := d; faults := faults w; clock := clock w; rng := rng w;
     other_clause := other_clause w; invoked := invoked w |}.

Definition set_faults (fs : list (option string)) (w : World) : World :=
  {| db := db w; faults := fs; clock := clock w; rng := rng w;
     other_clause := other_clause w; invoked := invoked w |}.

Definition set_clock (c : list Time) (w : World) : World :=
  {| db := db w; faults := faults w; clock := c; rng := rng w;
     other_clause := other_clause w; invoked := invoked w |}.

Definition set_rng (r : list nat) (w : World) : World :=
  {| db := db w; faults := faults w; clock := clock w; rng := r;
     other_clause := other_clause w; invoked := invoked w |}.

Definition set_invoked (l : list invocation) (w : World) : World :=
  {| db := db w; faults := faults w; clock := clock w; rng := rng w;
     other_clause := other_clause w; invoked := l |}.

Definition M (A : Type) : Type := World → result A * World.

Definition ret {A} (a : A) : M A := λ w, (Ok a, w).

Definition fail {A} (e : error) : M A := λ w, (Err e, w).

Definition bind {A B} (m : M A) (k : A → M B) : M B :=
  λ w, match m w with
       | (Ok a, w') => k a w'
       | (Err e, w') => (Err e, w')
       end.

Notation "x <- c1 ;; c2" := (bind c1 (λ x, c2))
  (at level 100, c1 at next level, right associativity).

(** [if err != nil { return nil, f(err) }] *)
Definition map_err {A} (f : error → error) (m : M A) : M A :=
  λ w, match m w with
       | (Ok a, w') => (Ok a, w')
       | (Err e, w') => (Err (f e), w')
       end.

Fixpoint for_each {A} (l : list A) (body : A → M unit) : M unit :=
  match l with
  | [] => ret tt
  | x :: rest => _ <- body x ;; for_each rest body
  end.

(** [time.Now().UTC()] *)
Definition time_Now : M Time :=
  λ w, (Ok (hd 0%Z (clock w)), set_clock (tl (clock w)) w).

(** One round trip to the store. *)
Definition roundtrip : M unit :=
  λ w, match faults w with
       | Some msg :: fs => (Err (StoreErr msg), set_faults fs w)
       | None :: fs => (Ok tt, set_faults fs w)
       | [] => (Ok tt, w)
       end.

(** [QueryContext]/[QueryRowContext] followed by the scan of the rows. *)
Definition query {A} (q : DB → A) : M A :=
  _ <- roundtrip ;; λ w, (Ok (q (db w)), w).

(** [ExecContext] *)
Definition exec (stmt : DB → result DB) : M unit :=
  _ <- roundtrip ;;
  λ w, match stmt (db w) with
       | Ok d => (Ok tt, set_db d w)
       | Err e => (Err e, w)
       end.

(** [row.Scan(...)] of a single-row query. *)
Definition scan_row {A} (row : option A) : M A :=
  match row with
  | Some a => ret a
  | None => fail sql_ErrNoRows
  end.

(** [BeginTx], [defer tx.Rollback()], the body, [tx.Commit()]. *)
Definition in_tx {A} (body : M A) : M A :=
  λ w, match roundtrip w with
       | (Err e, w1) => (Err e, w1)
       | (Ok _, w1) =>
           match body w1 with
           | (Err e, w2) => (Err e, set_db (db w) w2)
           | (Ok a, w2) =>
               match roundtrip w2 with
               | (Err e, w3) => (Err e, set_db (db w) w3)
               | (Ok _, w3) => (Ok a, w3)
               end
           end
       end.

(** ** Package [repo] ([internal/repo/postgres.go]) *)

Module repo.

Definition CreateTeamWithMembers (t : Team) : M unit :=
  in_tx (
    exists_ <- query (select_team_exists (TeamName t)) ;;
    if exists_ : bool then fail (errors_New "team_exists")
    else
      _ <- exec (insert_team (TeamName t)) ;;
      for_each (Members t) (λ m,
        exec (upsert_user (Member_UserID m) (Member_Username m) (TeamName t) (Member_IsActive m)))).

(** The body of the [for rows.Next()] loop of [GetTeam]: the variables
    [team.TeamName], [members] and [found]. *)
Definition GetTeam_scan (acc : string * list TeamMember * bool) (row : team_join_row)
  : string * list TeamMember * bool :=
  let '(_, members, _) := acc in
  let '(tn, u) := row in
  match u with
  | Some (uid, uname, act) =>
      (tn, (members ++ [{| Member_UserID := uid; Member_Username := uname;
                           Member_IsActive := act |}])%list, true)
  | None => (tn, members, true)
  end.

Definition GetTeam (name : string) : M Team :=
  rows <- query (select_team_join name) ;;
  let '(tn, members, found) := foldl GetTeam_scan ("", [], false) rows in
  if found : bool then ret {| TeamName := tn; Members := members |}
  else fail sql_ErrNoRows.

Definition GetUserByID (id : string) : M User :=
  row <- query (select_user id) ;;
  scan_row row.

Definition UpdateUserIsActive (id : string) (active : bool) : M User :=
  _ <- roundtrip ;;
  row <- (λ w, let '(d, u) := update_user_is_active id active (db w) in (Ok u, set_db d w)) ;;
  scan_row row.

Definition PRExists (id : string) : M bool :=
  query (select_pr_exists id).

Definition CreatePullRequest (pr : PullRequest) : M unit :=
  in_tx (
    _ <- exec (insert_pull_request (PR_ID pr) (PR_Name pr) (PR_AuthorID pr) (CreatedAt pr)) ;;
    for_each (AssignedReviewers pr) (λ rID, exec (insert_reviewer (PR_ID pr) rID))).

Definition GetPullRequestWithReviewers (id : string) : M PullRequest :=
  row <- query (select_pull_request id) ;;
  r <- scan_row row ;;
  revs <- query (select_reviewers id) ;;
  ret {| PR_ID := id; PR_Name := pull_request_name r; PR_AuthorID := author_id r;
         PR_Status := status r; AssignedReviewers := revs;
         CreatedAt := Some (created_at r); MergedAt := merged_at r |}.

Definition SetPRMerged (id : string) (mergedAt : option Time) : M PullRequest :=
  _ <- exec (λ d, Ok (update_merged id mergedAt d)) ;;
  GetPullRequestWithReviewers id.

Definition SetPRReviewers (id : string) (reviewers : list string) : M unit :=
  in_tx (
    _ <- exec (λ d, Ok (delete_reviewers id d)) ;;
    for_each reviewers (λ rid, exec (insert_reviewer id rid))).

(** What the store answers to the candidate query with clause [ex]. *)
Definition select_candidates (team : string) (limit : nat) (ex : string) : M (list string) :=
  λ w, match read_in_list ex with
       | Some excluded =>
           let rows := eligible_users team excluded (db w) in
           (Ok (take limit (shuffle (rng w) rows)), set_rng (drop (length rows) (rng w)) w)
       | None =>
           if bool_decide (ex = "()") then (Err syntax_error, w)
           else (other_clause w (db w) team limit ex, w)
       end.

Definition GetRandomActiveReviewersFromTeamExcluding
    (team : string) (limit : nat) (exclude : list string) : M (list string) :=
  let ex := exclusion_clause exclude in
  _ <- (λ w, (Ok tt, set_invoked ({| inv_team := team; inv_limit := limit;
                                      inv_exclude := exclude; inv_clause := ex |}
                                    :: invoked w) w)) ;;
  _ <- roundtrip ;;
  select_candidates team limit ex.

Definition GetPullRequestsByReviewer (uid : string) : M (list PullRequestShort) :=
  query (select_prs_by_reviewer uid).

Definition GetReviewerAssignmentStats : M (list ReviewerStat) :=
  query select_reviewer_stats.

End repo.

(** ** Package [service] ([internal/service/service.go]) *)

Module service.

(** [if errors.Is(err, sql.ErrNoRows) { return nil, ErrNotFound }; return nil, err] *)
Definition no_rows_is_not_found (e : error) : error :=
  if errors_Is e sql_ErrNoRows then ErrNotFound else e.

Definition CreateTeam (t : Team) : M Team :=
  _ <- map_err (λ e, if bool_decide (Error e = "team_exists") then ErrTeamExists else e)
               (repo.CreateTeamWithMembers t) ;;
  ret t.

Definition GetTeam (name : string) : M Team :=
  map_err no_rows_is_not_found (repo.GetTeam name).

Definition SetUserIsActive (uid : string) (active : bool) : M User :=
  map_err no_rows_is_not_found (repo.UpdateUserIsActive uid active).

Definition CreatePR (id name author : string) : M PullRequest :=
  exists_ <- repo.PRExists id ;;
  if exists_ : bool then fail ErrPRExists
  else
    user <- map_err no_rows_is_not_found (repo.GetUserByID author) ;;
    let exclude := [author] in
    revs <- repo.GetRandomActiveReviewersFromTeamExcluding (User_TeamName user) 2 exclude ;;
    now <- time_Now ;;
    let pr := {| PR_ID := id; PR_Name := name; PR_AuthorID := author;
                 PR_Status := PRStatusOpen; AssignedReviewers := revs;
                 CreatedAt := Some now; MergedAt := None |} in
    _ <- repo.CreatePullRequest pr ;;
    ret pr.

Definition MergePR (id : string) : M PullRequest :=
  pr <- map_err no_rows_is_not_found (repo.GetPullRequestWithReviewers id) ;;
  if bool_decide (PR_Status pr = PRStatusMerged) then ret pr
  else
    now <- time_Now ;;
    repo.SetPRMerged id (Some now).

(** [for i := range pr.AssignedReviewers { if pr.AssignedReviewers[i] == old { ... = newReviewer } }] *)
Definition replace_reviewer (old newReviewer : string) (reviewers : list string) : list string :=
  (λ r, if bool_decide (r = old) then newReviewer else r) <$> reviewers.

Definition with_reviewers (pr : PullRequest) (reviewers : list string) : PullRequest :=
  {| PR_ID := PR_ID pr; PR_Name := PR_Name pr; PR_AuthorID := PR_AuthorID pr;
     PR_Status := PR_Status pr; AssignedReviewers := reviewers;
     CreatedAt := CreatedAt pr; MergedAt := MergedAt pr |}.

Definition ReassignReviewer (prID old : string) : M (PullRequest * string) :=
  pr <- map_err no_rows_is_not_found (repo.GetPullRequestWithReviewers prID) ;;
  if bool_decide (PR_Status pr = PRStatusMerged) then fail ErrPRMerged
  else
    let assigned := foldl (λ (a : bool) r, if bool_decide (r = old) then true else a)
                          false (AssignedReviewers pr) in
    if negb assigned then fail ErrNotAssigned
    else
      oldUser <- map_err (λ _, ErrNotFound) (repo.GetUserByID old) ;;
      let exclude := (old :: PR_AuthorID pr :: AssignedReviewers pr) in
      candidates <- repo.GetRandomActiveReviewersFromTeamExcluding
                      (User_TeamName oldUser) 1 exclude ;;
      match candidates with
      | [] => fail ErrNoCandidate
      | newReviewer :: _ =>
          let pr' := with_reviewers pr (replace_reviewer old newReviewer (AssignedReviewers pr)) in
          _ <- repo.SetPRReviewers (PR_ID pr') (AssignedReviewers pr') ;;
          ret (pr', newReviewer)
      end.

Definition GetReviews (uid : string) : M (list PullRequestShort) :=
  repo.GetPullRequestsByReviewer uid.

Definition GetReviewerStats : M (list ReviewerStat) :=
  repo.GetReviewerAssignmentStats.

End service.

(** ** The operations as a transition system *)

Inductive op :=
| OpCreateTeam (t : Team)
| OpGetTeam (name : string)
| OpSetUserIsActive (uid : string) (active : bool)
| OpCreatePR (id name author : string)
| OpMergePR (id : string)
| OpReassignReviewer (prID old : string)
| OpGetReviews (uid : string)
| OpGetReviewerStats.

Inductive reply :=
| RTeam (t : Team)
| RUser (u : User)
| RPullRequest (pr : PullRequest)
| RReassigned (pr : PullRequest) (replaced_by : string)
| RReviews (l : list PullRequestShort)
| RStats (l : list ReviewerStat).

Definition run (o : op) : M reply :=
  match o with
  | OpCreateTeam t => r <- service.CreateTeam t ;; ret (RTeam r)
  | OpGetTeam name => r <- service.GetTeam name ;; ret (RTeam r)
  | OpSetUserIsActive uid active => r <- service.SetUserIsActive uid active ;; ret (RUser r)
  | OpCreatePR id name author => r <- service.CreatePR id name author ;; ret (RPullRequest r)
  | OpMergePR id => r <- service.MergePR id ;; ret (RPullRequest r)
  | OpReassignReviewer prID old =>
      r <- service.ReassignReviewer prID old ;; ret (RReassigned r.1 r.2)
  | OpGetReviews uid => r <- service.GetReviews uid ;; ret (RReviews r)
  | OpGetReviewerStats => r <- service.GetReviewerStats ;; ret (RStats r)
  end.

(** The world after a sequence of operations, whatever each returned. *)
Definition run_all (ops : list op) (w : World) : World :=
  foldl (λ w o, (run o w).2) w ops.

(** ** Package [httpapi] ([internal/httpapi/handlers.go])

    A request is taken as the router hands it to its handler: one
    constructor per route of [Router], the body as [json.Decode] left it
    ([None] when [Decode] returned an error), a query parameter as
    [r.URL.Query().Get] returns it (empty when absent). *)

Module httpapi.

Definition CodeTeamExists : string := "TEAM_EXISTS".
Definition CodePRExists : string := "PR_EXISTS".
Definition CodePRMerged : string := "PR_MERGED".
Definition CodeNotAssigned : string := "NOT_ASSIGNED".
Definition CodeNoCandidate : string := "NO_CANDIDATE".
Definition CodeNotFound : string := "NOT_FOUND".

(** What a handler gives to [json.NewEncoder(w).Encode], or writes as it
    is. *)
Inductive payload :=
| ErrorResponse (code message : string)
| TeamEnvelope (team : Team)
| TeamValue (t : Team)
| UserEnvelope (user : User)
| PREnvelope (pr : PullRequest)
| ReassignEnvelope (pr : PullRequest) (replaced_by : string)
| ReviewsEnvelope (user_id : string) (pull_requests : list PullRequestShort)
| StatsEnvelope (stats : list ReviewerStat)
| RawBody (text : string).

(** [http.ResponseWriter]: the status once it is written, and what was
    written after it. *)
Record ResponseWriter := {
  header : option nat;
  written : list payload
}.

Definition fresh : ResponseWriter := {| header := None; written := [] |}.

(** [w.WriteHeader(code)]: the first call decides. *)
Definition WriteHeader (code : nat) (rw : ResponseWriter) : ResponseWriter :=
  match header rw with
  | Some _ => rw
  | None => {| header := Some code; written := written rw |}
  end.

(** [w.Write]: writes the status 200 first when none was written. *)
Definition Write (p : payload) (rw : ResponseWriter) : ResponseWriter :=
  {| header := Some (default 200 (header rw)); written := (written rw ++ [p])%list |}.

(** [json.NewEncoder(w).Encode(v)], its error dropped. *)
Definition Encode (p : payload) (rw : ResponseWriter) : ResponseWriter := Write p rw.

(** The status the client receives. *)
Definition status_of (rw : ResponseWriter) : nat := default 200 (header rw).

Definition writeError (rw : ResponseWriter) (status : nat) (code msg : string)
  : ResponseWriter :=
  Encode (ErrorResponse code msg) (WriteHeader status rw).

Definition handler : Type := ResponseWriter → World → ResponseWriter * World.

Definition handleTeamAdd (decoded : option Team) : handler :=
  λ rw w,
    match decoded with
    | None => (WriteHeader 400 rw, w)
    | Some t =>
        match service.CreateTeam t w with
        | (Err e, w') =>
            (if bool_decide (e = ErrTeamExists)
             then writeError rw 400 CodeTeamExists "team already exists"
             else WriteHeader 500 rw, w')
        | (Ok team, w') => (Encode (TeamEnvelope team) (WriteHeader 201 rw), w')
        end
    end.

Definition handleTeamGet (team_name : string) : handler :=
  λ rw w,
    if bool_decide (team_name = "") then (WriteHeader 400 rw, w)
    else
      match service.GetTeam team_name w with
      | (Err _, w') => (writeError rw 404 CodeNotFound "team not found", w')
      | (Ok t, w') => (Encode (TeamValue t) rw, w')
      end.

Definition handleSetIsActive (decoded : option (string * bool)) : handler :=
  λ rw w,
    match decoded with
    | None => (WriteHeader 400 rw, w)
    | Some (user_id, is_active) =>
        match service.SetUserIsActive user_id is_active w with
        | (Err e, w') =>
            (if bool_decide (e = ErrNotFound)
             then writeError rw 404 CodeNotFound "user not found"
             else WriteHeader 500 rw, w')
        | (Ok u, w') => (Encode (UserEnvelope u) rw, w')
        end
    end.

Definition handlePRCreate (decoded : option (string * string * string)) : handler :=
  λ rw w,
    match decoded with
    | None => (WriteHeader 400 rw, w)
    | Some (id, name, author) =>
        match service.CreatePR id name author w with
        | (Err e, w') =>
            (if bool_decide (e = ErrPRExists)
             then writeError rw 409 CodePRExists "PR already exists"
             else if bool_decide (e = ErrNotFound)
             then writeError rw 404 CodeNotFound "author not found"
             else WriteHeader 500 rw, w')
        | (Ok pr, w') => (Encode (PREnvelope pr) (WriteHeader 201 rw), w')
        end
    end.

Definition handlePRMerge (decoded : option string) : handler :=
  λ rw w,
    match decoded with
    | None => (WriteHeader 400 rw, w)
    | Some id =>
        match service.MergePR id w with
        | (Err e, w') =>
            (if bool_decide (e = ErrNotFound)
             then writeError rw 404 CodeNotFound "pr not found"
             else WriteHeader 500 rw, w')
        | (Ok pr, w') => (Encode (PREnvelope pr) rw, w')
        end
    end.

Definition handlePRReassign (decoded : option (string * string)) : handler :=
  λ rw w,
    match decoded with
    | None => (WriteHeader 400 rw, w)
    | Some (id, old) =>
        match service.ReassignReviewer id old w with
        | (Err e, w') =>
            (if bool_decide (e = ErrPRMerged)
             then writeError rw 409 CodePRMerged "cannot reassign on merged PR"
             else if bool_decide (e = ErrNotAssigned)
             then writeError rw 409 CodeNotAssigned "user not assigned as reviewer"
             else if bool_decide (e = ErrNoCandidate)
             then writeError rw 409 CodeNoCandidate "no candidate available"
             else if bool_decide (e = ErrNotFound)
             then writeError rw 404 CodeNotFound "not found"
             else WriteHeader 500 rw, w')
        | (Ok (pr, newReviewer), w') => (Encode (ReassignEnvelope pr newReviewer) rw, w')
        end
    end.

Definition handleUserReviews (user_id : string) : handler :=
  λ rw w,
    if bool_decide (user_id = "") then (WriteHeader 400 rw, w)
    else
      match service.GetReviews user_id w with
      | (Err _, w') => (WriteHeader 500 rw, w')
      | (Ok list, w') => (Encode (ReviewsEnvelope user_id list) rw, w')
      end.

Definition handleReviewerStats : handler :=
  λ rw w,
    match service.GetReviewerStats w with
    | (Err _, w') => (WriteHeader 500 rw, w')
    | (Ok stats, w') => (Encode (StatsEnvelope stats) rw, w')
    end.

(** The function registered for [/health]. *)
Definition handleHealth : handler :=
  λ rw w, (Write (RawBody "OK") (WriteHeader 200 rw), w).

(** The routes of [Router]. *)
Inductive request :=
| POST_team_add (decoded : option Team)
| GET_team_get (team_name : string)
| POST_users_setIsActive (decoded : option (string * bool))
| GET_users_getReview (user_id : string)
| POST_pullRequest_create (decoded : option (string * string * string))
| POST_pullRequest_merge (decoded : option string)
| POST_pullRequest_reassign (decoded : option (string * string))
| GET_stats_reviewerAssignments
| GET_health.

Definition Router (r : request) : handler :=
  match r with
  | POST_team_add decoded => handleTeamAdd decoded
  | GET_team_get team_name => handleTeamGet team_name
  | POST_users_setIsActive decoded => handleSetIsActive decoded
  | GET_users_getReview user_id => handleUserReviews user_id
  | POST_pullRequest_create decoded => handlePRCreate decoded
  | POST_pullRequest_merge decoded => handlePRMerge decoded
  | POST_pullRequest_reassign decoded => handlePRReassign decoded
  | GET_stats_reviewerAssignments => handleReviewerStats
  | GET_health => handleHealth
  end.

(** One request served on a fresh response writer. *)
Definition serve (r : request) (w : World) : ResponseWriter * World :=
  Router r fresh w.

End httpapi.

(** ** Notions used in the statements *)

(** The pull request [GetPullRequestWithReviewers] builds from a row. *)
Definition pull_request_of (id : string) (r : pr_row) (d : DB) : PullRequest :=
  {| PR_ID := id; PR_Name := pull_request_name r; PR_AuthorID := author_id r;
     PR_Status := status r; AssignedReviewers := select_reviewers id d;
     CreatedAt := Some (created_at r); MergedAt := merged_at r |}.

(** The row [update_merged] leaves. *)
Definition merged_row (r : pr_row) (mergedAt : option Time) : pr_row :=
  {| pull_request_name := pull_request_name r; author_id := author_id r;
     status := PRStatusMerged; created_at := created_at r; merged_at := mergedAt |}.

(** The abbreviated form of a stored pull request. *)
Definition short_of (id : string) (r : pr_row) : PullRequestShort :=
  {| Short_ID := id; Short_Name := pull_request_name r;
     Short_AuthorID := author_id r; Short_Status := status r |}.

(** The member [GetTeam] reads from a row of [users]. *)
Definition member_of (kv : string * user_row) : TeamMember :=
  {| Member_UserID := kv.1; Member_Username := username kv.2;
     Member_IsActive := is_active kv.2 |}.

(** The row the upsert of [CreateTeamWithMembers] writes for a member. *)
Definition row_of (team : string) (m : TeamMember) : user_row :=
  {| username := Member_Username m; team_name := team; is_active := Member_IsActive m |}.

Definition add_member (team : string) (d : DB) (m : TeamMember) : DB :=
  set_users (insert (Member_UserID m) (row_of team m)) d.

Definition put_member (team : string) (us : gmap string user_row) (m : TeamMember)
  : gmap string user_row :=
  <[Member_UserID m := row_of team m]> us.

(** No two different entries of the list bear the same user id. *)
Definition one_entry_per_id (members : list TeamMember) : Prop :=
  ∀ m1 m2, m1 ∈ members → m2 ∈ members → Member_UserID m1 = Member_UserID m2 → m1 = m2.

(** The constraints of [migrate.go]: the foreign keys of [users],
    [pull_requests] and [pull_request_reviewers], and the primary key of
    [pull_request_reviewers]. *)
Definition integrity (d : DB) : Prop :=
  map_Forall (λ _ u, team_name u ∈ teams d) (users d)
  ∧ map_Forall (λ _ p, is_Some (users d !! author_id p)) (pull_requests d)
  ∧ Forall (λ l, is_Some (pull_requests d !! l.1) ∧ is_Some (users d !! l.2))
           (pull_request_reviewers d)
  ∧ NoDup (pull_request_reviewers d).

#[global] Instance integrity_dec d : Decision (integrity d).
Proof. unfold integrity. apply _. Defined.

(** An id without the quote character. *)
Fixpoint quote_free (s : string) : bool :=
  match s with
  | EmptyString => true
  | String c s' => negb (bool_decide (c = "'"%char)) && quote_free s'
  end.

(** The rows the candidate query may return: active users of [team],
    none of them in [excluded]. *)
Definition candidate (team : string) (excluded : list string) (d : DB) (uid : string) : Prop :=
  ∃ row, users d !! uid = Some row
         ∧ team_name row = team ∧ is_active row = true ∧ uid ∉ excluded.

(** Every stored user id is free of quotes. *)
Definition plain_users (d : DB) : Prop :=
  map_Forall (λ uid _, quote_free uid) (users d).

#[global] Instance plain_users_dec d : Decision (plain_users d).
Proof. unfold plain_users. apply _. Defined.

(** The store after a successful CreatePR: the row of the pull request
    and one link per reviewer. *)
Definition with_pull_request (id name author : string) (created : Time)
    (reviewers : list string) (d : DB) : DB :=
  set_reviewers (λ l, (l ++ ((λ r, (id, r)) <$> reviewers))%list)
    (set_pull_requests
       (insert id {| pull_request_name := name; author_id := author;
                     status := PRStatusOpen; created_at := created;
                     merged_at := None |}) d).

(** The store after a successful ReassignReviewer: the links of the pull
    request deleted and written anew. *)
Definition with_reviewer_set (id : string) (reviewers : list string) (d : DB) : DB :=
  set_reviewers (λ l, (filter (λ x, x.1 ≠ id) l ++ ((λ r, (id, r)) <$> reviewers))%list) d.

(** No pull request has its author among its reviewers, nor more than
    two reviewers. *)
Definition assignment_ok (d : DB) : Prop :=
  map_Forall (λ id r, (author_id r ∉ select_reviewers id d)
                      ∧ (length (select_reviewers id d) ≤ 2)%nat)
             (pull_requests d).

#[global] Instance assignment_ok_dec d : Decision (assignment_ok d).
Proof. unfold assignment_ok. apply _. Defined.

(** The schema's constraints, ids without quotes, reviewers well assigned. *)
Definition healthy (d : DB) : Prop :=
  integrity d ∧ plain_users d ∧ assignment_ok d.

#[global] Instance healthy_dec d : Decision (healthy d).
Proof. unfold healthy. apply _. Defined.

(** An operation that brings no user id with a quote into the store. *)
Definition plain_op (o : op) : Prop :=
  match o with
  | OpCreateTeam t => Forall (λ m, quote_free (Member_UserID m)) (Members t)
  | _ => True
  end.

(** The service method a routed request reaches, if its handler reaches
    one: none for a body that did not decode, for an empty query
    parameter, and for [/health]. *)
Definition op_of (r : httpapi.request) : option op :=
  match r with
  | httpapi.POST_team_add (Some t) => Some (OpCreateTeam t)
  | httpapi.GET_team_get name =>
      if bool_decide (name = "") then None else Some (OpGetTeam name)
  | httpapi.POST_users_setIsActive (Some (uid, active)) => Some (OpSetUserIsActive uid active)
  | httpapi.GET_users_getReview uid =>
      if bool_decide (uid = "") then None else Some (OpGetReviews uid)
  | httpapi.POST_pullRequest_create (Some (id, name, author)) => Some (OpCreatePR id name author)
  | httpapi.POST_pullRequest_merge (Some id) => Some (OpMergePR id)
  | httpapi.POST_pullRequest_reassign (Some (id, old)) => Some (OpReassignReviewer id old)
  | httpapi.GET_stats_reviewerAssignments => Some OpGetReviewerStats
  | _ => None
  end.

(** The world after a sequence of requests served one after another. *)
Definition serve_all (reqs : list httpapi.request) (w : World) : World :=
  foldl (λ w r, (httpapi.serve r w).2) w reqs.

(** A computation leaves the component [f] of the world as it was. *)
Definition leaves {A X} (f : World → X) (m : M A) : Prop :=
  ∀ w, f (m w).2 = f w.

(** A computation that reports an error has not changed the store. *)
Definition atomic {A} (m : M A) : Prop :=
  ∀ w e, (m w).1 = Err e → db (m w).2 = db w.

(** [triple P m Q E]: run from a store satisfying [P], [m] ends with a
    value and a store related by [Q], or with an error and a store
    satisfying [E]. *)
Definition triple {A} (P : DB → Prop) (m : M A) (Q : A → DB → Prop) (E : DB → Prop) : Prop :=
  ∀ w, P (db w) →
       match m w with
       | (Ok a, w') => Q a (db w')
       | (Err _, w') => E (db w')
       end.

(** The row of pull request [id] is [r] and its reviewers are [revs]. *)
Definition stored (id : string) (r : pr_row) (revs : list string) (d : DB) : Prop :=
  pull_requests d !! id = Some r ∧ select_reviewers id d = revs.

(** A computation calls the candidate query at most once, and then with
    an invocation satisfying [G]. *)
Definition logs {A} (G : invocation → Prop) (m : M A) : Prop :=
  ∀ w, invoked (m w).2 = invoked w
       ∨ ∃ i, G i ∧ invoked (m w).2 = i :: invoked w.

(** The call CreatePR makes: limit 2, the author alone excluded. *)
Definition by_CreatePR (o : op) (i : invocation) : Prop :=
  ∃ id name author,
    o = OpCreatePR id name author ∧ inv_limit i = 2 ∧ inv_exclude i = [author].

(** The call ReassignReviewer makes: limit 1; the departing reviewer, the
    author and the current reviewers excluded. *)
Definition by_ReassignReviewer (o : op) (i : invocation) : Prop :=
  ∃ prID old author reviewers,
    o = OpReassignReviewer prID old ∧ inv_limit i = 1
    ∧ inv_exclude i = old :: author :: reviewers.

Definition issued_by (o : op) (i : invocation) : Prop :=
  inv_clause i = exclusion_clause (inv_exclude i)
  ∧ (by_CreatePR o i ∨ by_ReassignReviewer o i).

(** ** Scenarios

    Concrete worlds on which the operations are evaluated. *)

(** A world without store failures in which unreadable clauses are
    rejected. *)
Definition calm (d : DB) : World :=
  {| db := d; faults := []; clock := [100; 200; 300]%Z; rng := [];
     other_clause := λ _ _ _ _, Err syntax_error; invoked := [] |}.

Definition with_faults (fs : list (option string)) (w : World) : World :=
  set_faults fs w.

Definition member (id name : string) (active : bool) : TeamMember :=
  {| Member_UserID := id; Member_Username := name; Member_IsActive := active |}.

(** The team of the README: u1, u2, u3, all active. *)
Definition backend : Team :=
  {| TeamName := "backend";
     Members := [member "u1" "Alice" true; member "u2" "Bob" true; member "u3" "Eve" true] |}.

Definition w_backend : World := (run (OpCreateTeam backend) (calm empty_db)).2.

(** pr-1 by u1 on the README's team. *)
Definition w_pr1 : World := (run (OpCreatePR "pr-1" "Add feature" "u1") w_backend).2.

(** A team whose second member has an id with two quote characters. *)
Definition quoted_team : Team :=
  {| TeamName := "quoted";
     Members := [member "u1" "Alice" true; member "a''b" "Bob" true] |}.

Definition w_quoted : World := (run (OpCreateTeam quoted_team) (calm empty_db)).2.

(** pr-1 by u1 on that team: its only reviewer is a''b. *)
Definition w_quoted_pr1 : World := (run (OpCreatePR "pr-1" "Add feature" "u1") w_quoted).2.

(** The third round trip of the next call fails. *)
Definition w_pr1_bad_connection : World :=
  with_faults [None; None; Some "driver: bad connection"] w_pr1.

(** The fourth round trip of the next call fails. *)
Definition w_pr1_late_failure : World :=
  with_faults [None; None; None; Some "driver: bad connection"] w_pr1.

(** pr-1 merged at the second reading of the clock. *)
Definition w_merged : World := (run (OpMergePR "pr-1") w_pr1).2.

Definition pr1_merged_row : pr_row :=
  {| pull_request_name := "Add feature"; author_id := "u1"; status := PRStatusMerged;
     created_at := 100%Z; merged_at := Some 200%Z |}.

(** A team of four, a pull request by u1, and one reviewer replaced. *)
Definition platform : Team :=
  {| TeamName := "platform";
     Members := [member "u1" "Alice" true; member "u2" "Bob" true;
                 member "u3" "Eve" true; member "u4" "Dan" true] |}.

Definition w_platform_pr1 : World :=
  run_all [OpCreateTeam platform; OpCreatePR "pr-1" "Add feature" "u1"] (calm empty_db).

(** u2, assigned to pr-1 at its creation, replaced. *)
Definition w_platform_replaced : World :=
  (run (OpReassignReviewer "pr-1" "u2") w_platform_pr1).2.

(** The candidate query of ReassignReviewer("pr-1", "u2") on the README's
    team. *)
Definition readme_ops : list op :=
  [OpCreateTeam backend; OpCreatePR "pr-1" "Add feature" "u1"; OpReassignReviewer "pr-1" "u2"].

Definition readme_reassign_call : invocation :=
  {| inv_team := "backend"; inv_limit := 1; inv_exclude := ["u2"; "u1"; "u3"; "u2"];
     inv_clause := "('u2', 'u1', 'u3', 'u2')" |}.

(** A team without members. *)
Definition empty_team : Team := {| TeamName := "idle"; Members := [] |}.

Definition w_idle : World := (run (OpCreateTeam empty_team) w_backend).2.

(** A team of one. *)
Definition solo : Team :=
  {| TeamName := "solo"; Members := [member "u9" "Zoe" true] |}.

Definition w_solo : World := (run (OpCreateTeam solo) (calm empty_db)).2.

(** The store fails at the first round trip of the next call. *)
Definition w_backend_down : World := with_faults [Some "driver: bad connection"] w_backend.

(** The README's operations as requests. *)
Definition readme_requests : list httpapi.request :=
  [httpapi.POST_team_add (Some backend);
   httpapi.POST_pullRequest_create (Some ("pr-1", "Add feature", "u1"));
   httpapi.POST_pullRequest_reassign (Some ("pr-1", "u2"))].

(** * Properties *)

(** Closes a decidable goal on a concrete scenario by evaluating its
    decision procedure. *)
Ltac by_evaluation := eapply bool_decide_unpack; vm_compute; exact I.

(** ** Calls that meet no store failure *)

Lemma roundtrip_calm (w : World) :
  faults w = [] → roundtrip w = (Ok tt, w).
Proof. intros H. unfold roundtrip. by rewrite H. Qed.

Lemma query_calm {A} (q : DB → A) (w : World) :
  faults w = [] → query q w = (Ok (q (db w)), w).
Proof. intros H. unfold query, bind. by rewrite roundtrip_calm. Qed.

Lemma exec_calm (stmt : DB → result DB) (w : World) (d : DB) :
  faults w = [] → stmt (db w) = Ok d → exec stmt w = (Ok tt, set_db d w).
Proof. intros H Hs. unfold exec, bind. rewrite roundtrip_calm by done. by rewrite Hs. Qed.

Lemma GetPullRequestWithReviewers_calm (id : string) (w : World) (r : pr_row) :
  faults w = [] →
  pull_requests (db w) !! id = Some r →
  repo.GetPullRequestWithReviewers id w = (Ok (pull_request_of id r (db w)), w).
Proof.
  intros Hq Hr. unfold repo.GetPullRequestWithReviewers, bind.
  rewrite query_calm by done. unfold select_pull_request. rewrite Hr. simpl.
  by rewrite query_calm.
Qed.

Lemma GetPullRequestWithReviewers_missing (id : string) (w : World) :
  faults w = [] →
  pull_requests (db w) !! id = None →
  repo.GetPullRequestWithReviewers id w = (Err sql_ErrNoRows, w).
Proof.
  intros Hq Hr. unfold repo.GetPullRequestWithReviewers, bind.
  rewrite query_calm by done. unfold select_pull_request. by rewrite Hr.
Qed.

(** ** MergePR *)

Lemma MergePR_merged (id : string) (w : World) (r : pr_row) :
  faults w = [] →
  pull_requests (db w) !! id = Some r →
  status r = PRStatusMerged →
  service.MergePR id w = (Ok (pull_request_of id r (db w)), w).
Proof.
  intros Hq Hr Hm. unfold service.MergePR, bind, map_err.
  rewrite (GetPullRequestWithReviewers_calm id w r) by done. simpl.
  by rewrite Hm, bool_decide_eq_true_2.
Qed.

(** Step 1 of MergePR: a missing pull request is NotFound. *)
Lemma MergePR_missing (id : string) (w : World) :
  faults w = [] →
  pull_requests (db w) !! id = None →
  service.MergePR id w = (Err ErrNotFound, w).
Proof.
  intros Hq Hr. unfold service.MergePR, bind, map_err.
  by rewrite GetPullRequestWithReviewers_missing.
Qed.

Lemma MergePR_open (id : string) (w : World) (r : pr_row) :
  faults w = [] →
  pull_requests (db w) !! id = Some r →
  status r = PRStatusOpen →
  let now := hd 0%Z (clock w) in
  let w1 := set_db (update_merged id (Some now) (db w)) (set_clock (tl (clock w)) w) in
  service.MergePR id w = (Ok (pull_request_of id (merged_row r (Some now)) (db w)), w1)
  ∧ pull_requests (db w1) !! id = Some (merged_row r (Some now))
  ∧ pull_request_reviewers (db w1) = pull_request_reviewers (db w).
Proof.
  intros Hq Hr Ho now w1.
  assert (Hr1 : pull_requests (db w1) !! id = Some (merged_row r (Some now))).
  { subst w1. simpl. rewrite lookup_alter_eq, Hr. done. }
  split; [|split; [done | done]].
  unfold service.MergePR, bind, map_err.
  rewrite (GetPullRequestWithReviewers_calm id w r) by done. simpl.
  rewrite Ho, bool_decide_eq_false_2 by done.
  unfold repo.SetPRMerged, bind.
  rewrite (exec_calm _ _ (update_merged id (Some now) (db w))) by done.
  fold w1. by rewrite (GetPullRequestWithReviewers_calm id w1 _) by done.
Qed.

(** C3. MergePR is idempotent.  Without store failures, MergePR of a
    stored pull request succeeds with status MERGED and the reviewers the
    pull request had.  If it was MERGED already nothing changes in the
    world and the merged_at returned is the stored one; if it was OPEN the
    merged_at returned and stored is the reading of the clock, not null,
    and the reviewer links are the same.  In both cases a second MergePR
    in succession returns the very same pull request, with the same
    merged_at, and changes nothing. *)
Theorem MergePR_idempotent (id : string) (w : World) (r : pr_row) :
  faults w = [] →
  pull_requests (db w) !! id = Some r →
  ∃ pr w1,
    service.MergePR id w = (Ok pr, w1)
    ∧ PR_Status pr = PRStatusMerged
    ∧ AssignedReviewers pr = select_reviewers id (db w)
    ∧ select_reviewers id (db w1) = select_reviewers id (db w)
    ∧ (status r = PRStatusMerged → w1 = w ∧ MergedAt pr = merged_at r)
    ∧ (status r = PRStatusOpen →
         MergedAt pr = Some (hd 0%Z (clock w))
         ∧ pull_requests (db w1) !! id = Some (merged_row r (MergedAt pr)))
    ∧ service.MergePR id w1 = (Ok pr, w1).
Proof.
  intros Hq Hr. destruct (status r) eqn:Hs.
  - destruct (MergePR_open id w r Hq Hr Hs) as (Hrun & Hrow & Hrev).
    eexists _, _. split; [exact Hrun|]. simpl.
    repeat split; try done.
    rewrite (MergePR_merged id _ (merged_row r (Some (hd 0%Z (clock w))))); done.
  - exists (pull_request_of id r (db w)), w.
    rewrite (MergePR_merged id w r) by done. simpl. repeat split; done.
Qed.

(** A first merge and a second one, on the README's pull request. *)
Lemma MergePR_idempotent_witness :
  ∃ pr w1,
    service.MergePR "pr-1" w_pr1 = (Ok pr, w1)
    ∧ MergedAt pr = Some 200%Z
    ∧ service.MergePR "pr-1" w1 = (Ok pr, w1).
Proof.
  destruct (MergePR_idempotent "pr-1" w_pr1
              {| pull_request_name := "Add feature"; author_id := "u1";
                 status := PRStatusOpen; created_at := 100%Z; merged_at := None |})
    as (pr & w1 & Hrun & _ & _ & _ & _ & Hopen & Hagain).
  - reflexivity.
  - vm_compute. reflexivity.
  - exists pr, w1. split; [exact Hrun|]. split; [|exact Hagain].
    apply Hopen. reflexivity.
Defined.

(** ** GetReviews *)

(** C9. Without a store failure GetReviews returns, for every user id,
    with or without a user record, the abbreviated form of exactly the
    pull requests linked to that id as reviewer, and the empty list when
    no link bears the id; the world is left as it was. *)
Theorem GetReviews_never_fails (uid : string) (w : World) :
  faults w = [] →
  ∃ l, service.GetReviews uid w = (Ok l, w)
    ∧ (∀ s, s ∈ l ↔
         ∃ r, (Short_ID s, uid) ∈ pull_request_reviewers (db w)
              ∧ pull_requests (db w) !! Short_ID s = Some r
              ∧ s = short_of (Short_ID s) r)
    ∧ ((∀ p, (p, uid) ∉ pull_request_reviewers (db w)) → l = []).
Proof.
  intros Hq. exists (select_prs_by_reviewer uid (db w)).
  assert (Hin : ∀ s, s ∈ select_prs_by_reviewer uid (db w) ↔
         ∃ r, (Short_ID s, uid) ∈ pull_request_reviewers (db w)
              ∧ pull_requests (db w) !! Short_ID s = Some r
              ∧ s = short_of (Short_ID s) r).
  { intros s. unfold select_prs_by_reviewer. rewrite list_elem_of_omap. split.
    - intros ([p u] & Hl & Hs). simpl in Hs. case_bool_decide; [|done]. subst u.
      destruct (pull_requests (db w) !! p) as [r|] eqn:Hr; [|done].
      simpl in Hs. injection Hs as <-. simpl. by exists r.
    - intros (r & Hl & Hr & Hs). exists (Short_ID s, uid). split; [done|]. simpl.
      rewrite bool_decide_eq_true_2 by done. rewrite Hr. simpl. by rewrite Hs. }
  split; [|split; [exact Hin|]].
  - unfold service.GetReviews, repo.GetPullRequestsByReviewer. by rewrite query_calm.
  - intros Hno. destruct (select_prs_by_reviewer uid (db w)) as [|s l] eqn:El; [done|].
    exfalso. destruct (proj1 (Hin s)) as (r & Hl & _); [by left|]. by apply (Hno _ Hl).
Qed.

(** An id without a user record gets the empty list. *)
Lemma GetReviews_never_fails_witness :
  users (db w_pr1) !! "nobody" = None
  ∧ service.GetReviews "nobody" w_pr1 = (Ok [], w_pr1).
Proof.
  split; [reflexivity|].
  destruct (GetReviews_never_fails "nobody" w_pr1) as (l & Hrun & _ & Hempty).
  - reflexivity.
  - rewrite Hrun, Hempty; [done|]. intros p Hp.
    assert (HF : Forall (λ l : string * string, l.2 ≠ "nobody")
                        (pull_request_reviewers (db w_pr1))).
    { by_evaluation. }
    by apply (proj1 (Forall_forall _ _) HF _ Hp).
Defined.

(** ** The ids pasted into the candidate query *)

(** C1. The author's id "a''b" is pasted between quotes and read back by
    the store as a'b: the author is not excluded, is drawn, and CreatePR
    succeeds with the author among the assigned reviewers. *)
Theorem CreatePR_assigns_the_author :
  read_in_list (exclusion_clause ["a''b"]) = Some ["a'b"]
  ∧ (service.CreatePR "pr-2" "Fix" "a''b" w_quoted).1
    = Ok {| PR_ID := "pr-2"; PR_Name := "Fix"; PR_AuthorID := "a''b";
            PR_Status := PRStatusOpen; AssignedReviewers := ["u1"; "a''b"];
            CreatedAt := Some 100%Z; MergedAt := None |}
  ∧ select_reviewers "pr-2" (db (service.CreatePR "pr-2" "Fix" "a''b" w_quoted).2)
    = ["u1"; "a''b"].
Proof. vm_compute. done. Qed.

(** C2. The departing reviewer "a''b" is read back by the store as a'b,
    is not excluded and is drawn: ReassignReviewer succeeds and returns
    the departing reviewer, who was in the reviewer set, as the new one. *)
Theorem ReassignReviewer_picks_the_departing :
  select_reviewers "pr-1" (db w_quoted_pr1) = ["a''b"]
  ∧ (service.ReassignReviewer "pr-1" "a''b" w_quoted_pr1).1
    = Ok ({| PR_ID := "pr-1"; PR_Name := "Add feature"; PR_AuthorID := "u1";
             PR_Status := PRStatusOpen; AssignedReviewers := ["a''b"];
             CreatedAt := Some 100%Z; MergedAt := None |}, "a''b").
Proof. vm_compute. done. Qed.

(** ** The lookup of the departing reviewer *)

(** C4. The user record of u2 exists and the store fails while it is
    fetched: [GetUserByID] reports the failure of the driver, and
    ReassignReviewer turns it into NotFound. *)
Theorem ReassignReviewer_masks_store_failure :
  is_Some (users (db w_pr1_bad_connection) !! "u2")
  ∧ "u2" ∈ select_reviewers "pr-1" (db w_pr1_bad_connection)
  ∧ (repo.GetUserByID "u2" (with_faults [Some "driver: bad connection"] w_pr1)).1
    = Err (StoreErr "driver: bad connection")
  ∧ (service.ReassignReviewer "pr-1" "u2" w_pr1_bad_connection).1 = Err ErrNotFound.
Proof.
  split; [by_evaluation|]. split; [by_evaluation|].
  split; vm_compute; done.
Qed.

(** ** What a computation leaves untouched *)

Section leaves.
Context {X : Type} (f : World → X).

Lemma leaves_ret {A} (a : A) : leaves f (ret a).
Proof. by intros w. Qed.

Lemma leaves_fail {A} (e : error) : leaves f (fail (A:=A) e).
Proof. by intros w. Qed.

Lemma leaves_bind {A B} (m : M A) (k : A → M B) :
  leaves f m → (∀ a, leaves f (k a)) → leaves f (bind m k).
Proof.
  intros Hm Hk w. unfold bind. specialize (Hm w).
  destruct (m w) as [[a|e] w'] eqn:E; simpl in *; [|done].
  by rewrite Hk.
Qed.

Lemma leaves_map_err {A} (g : error → error) (m : M A) :
  leaves f m → leaves f (map_err g m).
Proof.
  intros Hm w. unfold map_err. specialize (Hm w).
  by destruct (m w) as [[a|e] w'].
Qed.

Lemma leaves_scan_row {A} (row : option A) : leaves f (scan_row row).
Proof. destruct row; [apply leaves_ret | apply leaves_fail]. Qed.

Lemma leaves_for_each {A} (l : list A) (body : A → M unit) :
  (∀ x, leaves f (body x)) → leaves f (for_each l body).
Proof.
  intros Hb. induction l as [|x l IH]; simpl; [apply leaves_ret|].
  apply leaves_bind; [apply Hb | by intros _].
Qed.

Lemma leaves_if {A} (b : bool) (m1 m2 : M A) :
  leaves f m1 → leaves f m2 → leaves f (if b then m1 else m2).
Proof. by destruct b. Qed.
End leaves.

Lemma leaves_db_roundtrip : leaves db roundtrip.
Proof. intros w. unfold roundtrip. by destruct (faults w) as [|[?|] ?]. Qed.

Lemma leaves_db_time_Now : leaves db time_Now.
Proof. by intros w. Qed.

Lemma leaves_db_query {A} (q : DB → A) : leaves db (query q).
Proof. apply leaves_bind; [apply leaves_db_roundtrip | by intros _ w]. Qed.

Lemma leaves_db_select_candidates team limit ex :
  leaves db (repo.select_candidates team limit ex).
Proof.
  intros w. unfold repo.select_candidates.
  destruct (read_in_list ex); [done|]. by case_bool_decide.
Qed.

Lemma leaves_db_GetRandom team limit exclude :
  leaves db (repo.GetRandomActiveReviewersFromTeamExcluding team limit exclude).
Proof.
  apply leaves_bind; [by intros w|]. intros _.
  apply leaves_bind; [apply leaves_db_roundtrip|]. intros _.
  apply leaves_db_select_candidates.
Qed.

Lemma leaves_db_GetUserByID id : leaves db (repo.GetUserByID id).
Proof. apply leaves_bind; [apply leaves_db_query | intros; apply leaves_scan_row]. Qed.

Lemma leaves_db_GetPullRequestWithReviewers id :
  leaves db (repo.GetPullRequestWithReviewers id).
Proof.
  apply leaves_bind; [apply leaves_db_query|]. intros row.
  apply leaves_bind; [apply leaves_scan_row|]. intros r.
  apply leaves_bind; [apply leaves_db_query|]. intros revs. apply leaves_ret.
Qed.

Lemma leaves_db_GetTeam name : leaves db (repo.GetTeam name).
Proof.
  apply leaves_bind; [apply leaves_db_query|]. intros rows.
  destruct (foldl _ _ _) as [[tn ms] found].
  apply leaves_if; [apply leaves_ret | apply leaves_fail].
Qed.

Create HintDb frame.

#[global] Hint Resolve leaves_ret leaves_fail leaves_map_err leaves_scan_row
  leaves_db_roundtrip leaves_db_time_Now leaves_db_query leaves_db_GetRandom
  leaves_db_GetUserByID leaves_db_GetPullRequestWithReviewers leaves_db_GetTeam : frame.

(** ** Errors and the store *)

Lemma leaves_atomic {A} (m : M A) : leaves db m → atomic m.
Proof. intros H w e _. apply H. Qed.

Lemma atomic_bind {A B} (m : M A) (k : A → M B) :
  leaves db m → (∀ a, atomic (k a)) → atomic (bind m k).
Proof.
  intros Hm Hk w e. unfold bind. specialize (Hm w).
  destruct (m w) as [[a|e'] w'] eqn:E; simpl in *; [|done].
  intros He. by rewrite (Hk a w' e He).
Qed.

Lemma atomic_then_ret {A B} (m : M A) (g : A → B) :
  atomic m → atomic (x <- m ;; ret (g x)).
Proof.
  intros Hm w e. unfold bind. specialize (Hm w).
  destruct (m w) as [[a|e'] w'] eqn:E; simpl in *; [done|].
  intros [= ->]. by apply (Hm e).
Qed.

Lemma atomic_map_err {A} (g : error → error) (m : M A) :
  atomic m → atomic (map_err g m).
Proof.
  intros Hm w e. unfold map_err. specialize (Hm w).
  destruct (m w) as [[a|e'] w'] eqn:E; simpl in *; [done|].
  intros _. by apply (Hm e').
Qed.

(** The deferred rollback: a transaction that reports an error leaves the
    store as it found it, whatever its body did. *)
Lemma atomic_in_tx {A} (body : M A) : atomic (in_tx body).
Proof.
  intros w e. unfold in_tx.
  pose proof (leaves_db_roundtrip w) as H1.
  destruct (roundtrip w) as [[[]|e1] w1]; simpl in *; [|done].
  destruct (body w1) as [[a|e2] w2]; [|done].
  destruct (roundtrip w2) as [[[]|e3] w3]; done.
Qed.

Lemma atomic_UpdateUserIsActive uid active : atomic (repo.UpdateUserIsActive uid active).
Proof.
  intros w e. unfold repo.UpdateUserIsActive, bind.
  pose proof (leaves_db_roundtrip w) as H1.
  destruct (roundtrip w) as [[[]|e1] w1]; simpl in *; [|done].
  unfold select_user. simpl. rewrite lookup_alter_eq.
  destruct (users (db w1) !! uid) as [r|] eqn:Hr; simpl; [done|].
  intros _. rewrite <- H1. destruct (db w1) as [ts us ps ls]. unfold set_users. simpl in *.
  f_equal. apply map_eq. intros i. rewrite lookup_alter.
  case_decide; [subst; by rewrite Hr | done].
Qed.

Lemma atomic_CreateTeam t : atomic (service.CreateTeam t).
Proof. apply (atomic_then_ret _ (λ _, t)), atomic_map_err, atomic_in_tx. Qed.

Lemma atomic_CreatePR id name author : atomic (service.CreatePR id name author).
Proof.
  apply atomic_bind; [apply leaves_db_query|]. intros [|]; [apply leaves_atomic, leaves_fail|].
  apply atomic_bind; [auto with frame|]. intros user.
  apply atomic_bind; [auto with frame|]. intros revs.
  apply atomic_bind; [auto with frame|]. intros now.
  apply (atomic_then_ret _ (λ _, _)), atomic_in_tx.
Qed.

Lemma atomic_ReassignReviewer prID old : atomic (service.ReassignReviewer prID old).
Proof.
  apply atomic_bind; [auto with frame|]. intros pr.
  case_bool_decide; [apply leaves_atomic, leaves_fail|].
  cbv zeta. match goal with |- atomic (if ?b then _ else _) => destruct b end;
    [apply leaves_atomic, leaves_fail|].
  apply atomic_bind; [auto with frame|]. intros oldUser.
  apply atomic_bind; [auto with frame|]. intros [|newReviewer ?];
    [apply leaves_atomic, leaves_fail|].
  apply (atomic_then_ret _ (λ _, _)), atomic_in_tx.
Qed.

(** MergePR either leaves the store as it was or has applied its update. *)
Lemma MergePR_store id w :
  db (service.MergePR id w).2 = db w
  ∨ ∃ t, db (service.MergePR id w).2 = update_merged id (Some t) (db w).
Proof.
  unfold service.MergePR, bind.
  pose proof (leaves_map_err db service.no_rows_is_not_found _
                (leaves_db_GetPullRequestWithReviewers id) w) as H1.
  destruct (map_err _ _ w) as [[pr|e] w1]; simpl in *; [|by left].
  case_bool_decide; [by left|]. simpl.
  unfold repo.SetPRMerged, exec, bind. simpl.
  pose proof (leaves_db_roundtrip (set_clock (tl (clock w1)) w1)) as H2.
  destruct (roundtrip _) as [[[]|e] w2]; simpl in *; [|left; congruence].
  right. exists (hd 0%Z (clock w1)).
  rewrite leaves_db_GetPullRequestWithReviewers. simpl. by rewrite H2, H1.
Qed.

Lemma then_ret_world {A B} (m : M A) (g : A → B) (w : World) :
  ((x <- m ;; ret (g x)) w).2 = (m w).2.
Proof. unfold bind. by destruct (m w) as [[a|e] w']. Qed.

Lemma then_ret_error {A B} (m : M A) (g : A → B) (w : World) (e : error) :
  ((x <- m ;; ret (g x)) w).1 = Err e ↔ (m w).1 = Err e.
Proof. unfold bind. destruct (m w) as [[a|e'] w']; simpl; split; congruence. Qed.

(** C5, as the code has it.  An operation that returns an error has left
    the store as it was: CreateTeam, SetUserIsActive, CreatePR and
    ReassignReviewer whatever step failed, the read operations always.
    The one exception is MergePR, whose update is not followed by a
    transaction: when it returns an error the store is either as it was or
    differs by that update alone. *)
Theorem error_leaves_store (o : op) (w : World) (e : error) :
  (run o w).1 = Err e →
  db (run o w).2 = db w
  ∨ ∃ id t, o = OpMergePR id ∧ db (run o w).2 = update_merged id (Some t) (db w).
Proof.
  destruct o; simpl; rewrite then_ret_world, then_ret_error; intros He.
  - left. by apply (atomic_CreateTeam t w e).
  - left. apply (leaves_map_err db), leaves_db_GetTeam.
  - left. by apply (atomic_map_err _ _ (atomic_UpdateUserIsActive uid active) w e).
  - left. by apply (atomic_CreatePR id name author w e).
  - destruct (MergePR_store id w) as [H|[t H]]; [by left|]. right. by exists id, t.
  - left. by apply (atomic_ReassignReviewer prID old w e).
  - left. apply leaves_db_query.
  - left. apply leaves_db_query.
Qed.

(** A second CreatePR with the id of pr-1 fails with PRExists and leaves
    every table, the reviewer links among them, as it was. *)
Lemma error_leaves_store_witness :
  (run (OpCreatePR "pr-1" "Again" "u1") w_pr1).1 = Err ErrPRExists
  ∧ db (run (OpCreatePR "pr-1" "Again" "u1") w_pr1).2 = db w_pr1.
Proof.
  assert (He : (run (OpCreatePR "pr-1" "Again" "u1") w_pr1).1 = Err ErrPRExists)
    by (vm_compute; reflexivity).
  split; [exact He|].
  destruct (error_leaves_store _ _ _ He) as [H|(id & t & Ho & _)]; [exact H | discriminate Ho].
Defined.

(** C5 as stated fails: the store fails on the read that follows the
    update of MergePR; MergePR returns that error and pr-1 stays MERGED. *)
Lemma MergePR_error_after_update :
  (run (OpMergePR "pr-1") w_pr1_late_failure).1 = Err (StoreErr "driver: bad connection")
  ∧ (status <$> pull_requests (db w_pr1_late_failure) !! "pr-1") = Some PRStatusOpen
  ∧ (status <$> pull_requests (db (run (OpMergePR "pr-1") w_pr1_late_failure).2) !! "pr-1")
    = Some PRStatusMerged
  ∧ db (run (OpMergePR "pr-1") w_pr1_late_failure).2 ≠ db w_pr1_late_failure.
Proof.
  split; [vm_compute; reflexivity|]. split; [vm_compute; reflexivity|].
  split; [vm_compute; reflexivity|].
  intros H. apply (f_equal (λ d, status <$> pull_requests d !! "pr-1")) in H.
  vm_compute in H. discriminate H.
Qed.

(** ** Triples *)

Section triples.
Context {A : Type}.
Implicit Types (P E : DB → Prop) (Q : A → DB → Prop).

Lemma triple_ret P Q E (a : A) : (∀ d, P d → Q a d) → triple P (ret a) Q E.
Proof. intros H w Hw. by apply H. Qed.

Lemma triple_fail P Q E e : (∀ d, P d → E d) → triple P (fail e) Q E.
Proof. intros H w Hw. by apply H. Qed.

Lemma triple_leaves P (m : M A) : leaves db m → triple P m (λ _, P) P.
Proof.
  intros H w Hw. specialize (H w).
  destruct (m w) as [[a|e] w']; simpl in H; by rewrite H.
Qed.

Lemma triple_weaken P Q E Q' E' (m : M A) :
  triple P m Q E → (∀ a d, Q a d → Q' a d) → (∀ d, E d → E' d) → triple P m Q' E'.
Proof.
  intros H HQ HE w Hw. specialize (H w Hw).
  destruct (m w) as [[a|e] w']; auto.
Qed.

Lemma triple_map_err P Q E (g : error → error) (m : M A) :
  triple P m Q E → triple P (map_err g m) Q E.
Proof.
  intros H w Hw. specialize (H w Hw). unfold map_err.
  by destruct (m w) as [[a|e] w'].
Qed.

Lemma triple_in_tx P Q (body : M A) :
  triple P body Q (λ _, True) → triple P (in_tx body) Q P.
Proof.
  intros H w Hw. unfold in_tx.
  pose proof (leaves_db_roundtrip w) as H1.
  destruct (roundtrip w) as [[[]|e1] w1]; simpl in *; [|by rewrite H1].
  pose proof Hw as Hw0. rewrite <- H1 in Hw. specialize (H w1 Hw).
  destruct (body w1) as [[a|e2] w2]; [|done].
  pose proof (leaves_db_roundtrip w2) as H2.
  destruct (roundtrip w2) as [[[]|e3] w3]; simpl in *; [by rewrite H2|done].
Qed.

Lemma triple_strengthen P P' Q E (m : M A) :
  (∀ d, P' d → P d) → triple P m Q E → triple P' m Q E.
Proof. intros HP H w Hw. by apply H, HP. Qed.

Lemma triple_pure P Q E (φ : Prop) (m : M A) :
  (∀ d, P d → φ) → (φ → triple P m Q E) → triple P m Q E.
Proof. intros Hφ H w Hw. by apply H; [eapply Hφ|]. Qed.
End triples.

Lemma triple_bind {A B} (P : DB → Prop) (Q : A → DB → Prop) (R : B → DB → Prop)
    (E : DB → Prop) (m : M A) (k : A → M B) :
  triple P m Q E → (∀ a, triple (Q a) (k a) R E) → triple P (bind m k) R E.
Proof.
  intros Hm Hk w Hw. specialize (Hm w Hw). unfold bind.
  destruct (m w) as [[a|e] w']; [|done]. by apply Hk.
Qed.

Lemma triple_exec (P Q E : DB → Prop) (stmt : DB → result DB) :
  (∀ d d', P d → stmt d = Ok d' → Q d') → (∀ d, P d → E d) →
  triple P (exec stmt) (λ _, Q) E.
Proof.
  intros HQ HE w Hw. unfold exec, bind.
  pose proof (leaves_db_roundtrip w) as H1.
  destruct (roundtrip w) as [[[]|e] w1]; simpl in *; [|rewrite H1; by apply HE].
  assert (Hw1 : P (db w1)) by (by rewrite H1).
  destruct (stmt (db w1)) as [d'|e] eqn:Hs; simpl; [by eapply HQ | by apply HE].
Qed.

Lemma triple_for_each {A} (Inv E : DB → Prop) (l : list A) (body : A → M unit) :
  (∀ x, triple Inv (body x) (λ _, Inv) E) → triple Inv (for_each l body) (λ _, Inv) E.
Proof.
  intros Hb. induction l as [|x l' IH]; simpl.
  - by apply triple_ret.
  - eapply triple_bind; [apply Hb|]. intros ?. exact IH.
Qed.

(** What a successful fetch of a pull request returns. *)
Lemma GetPullRequestWithReviewers_ok (id : string) (w w' : World) (pr : PullRequest) :
  repo.GetPullRequestWithReviewers id w = (Ok pr, w') →
  db w' = db w
  ∧ ∃ r, pull_requests (db w) !! id = Some r ∧ pr = pull_request_of id r (db w).
Proof.
  unfold repo.GetPullRequestWithReviewers, query, bind.
  pose proof (leaves_db_roundtrip w) as H1.
  destruct (roundtrip w) as [[[]|e] w1]; simpl in *; [|done].
  unfold select_pull_request. rewrite H1.
  destruct (pull_requests (db w) !! id) as [r|] eqn:Hr; simpl; [|done].
  pose proof (leaves_db_roundtrip w1) as H2.
  destruct (roundtrip w1) as [[[]|e] w2]; simpl in *; [|done].
  intros [= <- <-]. split; [congruence|]. exists r. split; [done|].
  unfold pull_request_of. by rewrite H2, H1.
Qed.

Lemma triple_GetPullRequestWithReviewers (P : DB → Prop) (id : string) :
  triple P (repo.GetPullRequestWithReviewers id)
    (λ pr d, P d ∧ ∃ r, pull_requests d !! id = Some r ∧ pr = pull_request_of id r d) P.
Proof.
  intros w Hw.
  pose proof (leaves_db_GetPullRequestWithReviewers id w) as Hl.
  destruct (repo.GetPullRequestWithReviewers id w) as [[pr|e] w'] eqn:E; simpl in Hl;
    rewrite Hl; [|done].
  split; [done|]. by destruct (GetPullRequestWithReviewers_ok _ _ _ _ E) as [_ ?].
Qed.

(** ** A merged pull request is frozen *)

Section frozen.
Context (id : string) (r : pr_row) (revs : list string).
Hypothesis merged : status r = PRStatusMerged.

Local Abbreviation P := (stored id r revs).

Lemma stored_insert_team name d d' : P d → insert_team name d = Ok d' → P d'.
Proof. unfold insert_team. case_bool_decide; [done|]. by intros ? [= <-]. Qed.

Lemma stored_upsert_user uid uname team active d d' :
  P d → upsert_user uid uname team active d = Ok d' → P d'.
Proof. unfold upsert_user. case_bool_decide; [|done]. by intros ? [= <-]. Qed.

Lemma stored_insert_pull_request id' name author created d d' :
  P d → insert_pull_request id' name author created d = Ok d' → P d'.
Proof.
  unfold insert_pull_request. intros [Hr Hv]. destruct created; [|done].
  case_bool_decide as Hin; [done|]. case_bool_decide; [|done]. intros [= <-].
  split; [|done]. simpl. rewrite lookup_insert_ne; [done|].
  intros ->. apply Hin. by rewrite Hr.
Qed.

Lemma stored_insert_reviewer id' uid d d' :
  id' ≠ id → P d → insert_reviewer id' uid d = Ok d' → P d'.
Proof.
  unfold insert_reviewer. intros Hne [Hr Hv].
  case_bool_decide; [done|]. case_bool_decide; [|done]. intros [= <-].
  split; [done|]. unfold select_reviewers in *. simpl.
  rewrite filter_app, filter_cons_False, filter_nil, app_nil_r; done.
Qed.

Lemma stored_delete_reviewers id' d : id' ≠ id → P d → P (delete_reviewers id' d).
Proof.
  intros Hne [Hr Hv]. split; [done|]. rewrite <- Hv.
  unfold select_reviewers, delete_reviewers. simpl. f_equal.
  rewrite list_filter_filter. apply list_filter_iff. intros [p u]. simpl.
  split; [tauto|]. intros ->. done.
Qed.

Lemma stored_update_merged id' mergedAt d : id' ≠ id → P d → P (update_merged id' mergedAt d).
Proof.
  intros Hne [Hr Hv]. split; [|done]. simpl. by rewrite lookup_alter_ne.
Qed.

Lemma stored_update_user uid active d : P d → P (update_user_is_active uid active d).1.
Proof. intros [Hr Hv]. by split. Qed.

Lemma frozen_CreateTeam t : triple P (service.CreateTeam t) (λ _, P) P.
Proof.
  apply triple_bind with (Q := λ _, P); [|intros; by apply triple_ret].
  apply triple_map_err, triple_in_tx.
  apply triple_bind with (Q := λ _, P);
    [eapply triple_weaken; [apply triple_leaves, leaves_db_query|done|done]|].
  intros b. simpl. destruct b; [by apply triple_fail|].
  eapply triple_bind with (Q := λ _, P).
  - apply triple_exec; [|done]. intros d d'. apply stored_insert_team.
  - intros _. apply triple_for_each. intros m.
    apply triple_exec; [|done]. intros d d'. apply stored_upsert_user.
Qed.

Lemma frozen_SetUserIsActive uid active :
  triple P (service.SetUserIsActive uid active) (λ _, P) P.
Proof.
  apply triple_map_err. intros w Hw. unfold repo.UpdateUserIsActive, bind.
  pose proof (leaves_db_roundtrip w) as H1.
  destruct (roundtrip w) as [[[]|e] w1]; simpl in *; [|by rewrite H1].
  rewrite <- H1 in Hw.
  destruct (select_user uid _); simpl; by apply (stored_update_user uid active).
Qed.

Lemma frozen_CreatePullRequest pr : triple P (repo.CreatePullRequest pr) (λ _, P) P.
Proof.
  apply triple_in_tx.
  apply triple_bind with (Q := λ _ d, P d ∧ PR_ID pr ≠ id).
  - apply triple_exec; [|done]. intros d d' Hd Hs.
    split; [by eapply stored_insert_pull_request|].
    intros Heq. unfold insert_pull_request in Hs. destruct (CreatedAt pr); [|done].
    rewrite Heq, (proj1 Hd), bool_decide_eq_true_2 in Hs; [done | by eexists].
  - intros _.
    apply triple_weaken with (Q := λ _ d, P d ∧ PR_ID pr ≠ id) (E := λ _, True);
      [apply triple_for_each | | done].
    + intros rID. apply triple_exec; [|done]. intros d d' [Hd Hne] Hs.
      split; [|done]. by eapply stored_insert_reviewer.
    + by intros _ d [Hd _].
Qed.

Lemma frozen_CreatePR id' name author :
  triple P (service.CreatePR id' name author) (λ _, P) P.
Proof.
  apply triple_bind with (Q := λ _, P); [apply triple_leaves, leaves_db_query|].
  intros [|]; [by apply triple_fail|].
  apply triple_bind with (Q := λ _, P); [apply triple_leaves; auto with frame|].
  intros user.
  apply triple_bind with (Q := λ _, P); [apply triple_leaves; auto with frame|].
  intros picked.
  apply triple_bind with (Q := λ _, P); [apply triple_leaves; auto with frame|].
  intros now.
  apply triple_bind with (Q := λ _, P); [apply frozen_CreatePullRequest|].
  intros _. by apply triple_ret.
Qed.

Lemma frozen_MergePR id' : triple P (service.MergePR id') (λ _, P) P.
Proof.
  eapply triple_bind;
    [apply triple_map_err, triple_GetPullRequestWithReviewers|].
  intros pr. simpl. case_bool_decide as Hm.
  { apply triple_ret. by intros d [Hd _]. }
  apply triple_pure with (φ := id' ≠ id).
  { intros d ([Hr _] & r' & Hr' & ->) ->. rewrite Hr in Hr'. injection Hr' as <-.
    by apply Hm. }
  intros Hne. apply triple_strengthen with (P := P); [by intros d [Hd _]|].
  apply triple_bind with (Q := λ _, P); [apply triple_leaves, leaves_db_time_Now|].
  intros now.
  apply triple_bind with (Q := λ _, P).
  - apply triple_exec; [|done]. intros d d' Hd [= <-]. by apply stored_update_merged.
  - intros _. apply triple_leaves, leaves_db_GetPullRequestWithReviewers.
Qed.

Lemma frozen_SetPRReviewers id' reviewers :
  id' ≠ id → triple P (repo.SetPRReviewers id' reviewers) (λ _, P) P.
Proof.
  intros Hne. apply triple_in_tx.
  apply triple_bind with (Q := λ _, P).
  - apply triple_exec; [|done]. intros d d' Hd [= <-]. by apply stored_delete_reviewers.
  - intros _. apply triple_for_each. intros rid.
    apply triple_exec; [|done]. intros d d'. by apply stored_insert_reviewer.
Qed.

Lemma frozen_ReassignReviewer prID old :
  triple P (service.ReassignReviewer prID old) (λ _, P) P.
Proof.
  eapply triple_bind;
    [apply triple_map_err, triple_GetPullRequestWithReviewers|].
  intros pr. simpl. case_bool_decide as Hm.
  { apply triple_fail. by intros d [Hd _]. }
  match goal with |- triple _ (if ?b then _ else _) _ _ => destruct b end.
  { apply triple_fail. by intros d [Hd _]. }
  apply triple_bind with (Q := λ _ d, P d ∧ PR_ID pr = prID ∧ prID ≠ id).
  { intros w (Hw & r' & Hr' & ->).
    pose proof (leaves_map_err db (λ _, ErrNotFound) _ (leaves_db_GetUserByID old) w) as Hl.
    destruct (map_err _ _ w) as [[u|e] w']; simpl in Hl; rewrite Hl; [|done].
    split; [done|]. split; [done|]. intros ->. destruct Hw as [Hr _].
    rewrite Hr in Hr'. injection Hr' as <-. by apply Hm. }
  intros oldUser.
  apply triple_bind with (Q := λ _ d, P d ∧ PR_ID pr = prID ∧ prID ≠ id).
  { intros w Hw.
    pose proof (leaves_db_GetRandom (User_TeamName oldUser) 1
                  (old :: PR_AuthorID pr :: AssignedReviewers pr) w) as Hl.
    destruct (repo.GetRandomActiveReviewersFromTeamExcluding _ _ _ w) as [[u|e] w'];
      simpl in Hl; rewrite Hl; [done | by destruct Hw]. }
  intros [|newReviewer ?]; [apply triple_fail; by intros d [Hd _]|].
  apply triple_bind with (Q := λ _, P); [|intros; by apply triple_ret].
  intros w (Hw & Hid & Hne). simpl. rewrite Hid.
  by apply frozen_SetPRReviewers.
Qed.

Lemma frozen_run (o : op) : triple P (run o) (λ _, P) P.
Proof.
  destruct o; simpl; (apply triple_bind with (Q := λ _, P); [|intros; by apply triple_ret]).
  - apply frozen_CreateTeam.
  - apply triple_leaves, leaves_map_err, leaves_db_GetTeam.
  - apply frozen_SetUserIsActive.
  - apply frozen_CreatePR.
  - apply frozen_MergePR.
  - apply frozen_ReassignReviewer.
  - apply triple_leaves, leaves_db_query.
  - apply triple_leaves, leaves_db_query.
Qed.

Lemma frozen_step (o : op) (w : World) : P (db w) → P (db (run o w).2).
Proof.
  intros Hw. pose proof (frozen_run o w Hw) as H.
  by destruct (run o w) as [[a|e] w'].
Qed.

Lemma frozen_run_all (ops : list op) (w : World) : P (db w) → P (db (run_all ops w)).
Proof.
  revert w. induction ops as [|o ops' IH]; intros w Hw; [done|].
  simpl. apply IH. by apply frozen_step.
Qed.
End frozen.

Lemma MergePR_merged_store (id : string) (r : pr_row) (w : World) :
  pull_requests (db w) !! id = Some r →
  status r = PRStatusMerged →
  db (service.MergePR id w).2 = db w.
Proof.
  intros Hr Hm. unfold service.MergePR, bind, map_err.
  pose proof (leaves_db_GetPullRequestWithReviewers id w) as Hl.
  destruct (repo.GetPullRequestWithReviewers id w) as [[pr|e] w'] eqn:E; simpl in *; [|done].
  destruct (GetPullRequestWithReviewers_ok _ _ _ _ E) as (_ & r' & Hr' & ->).
  rewrite Hr in Hr'. injection Hr' as <-. simpl.
  by rewrite Hm, bool_decide_eq_true_2.
Qed.

Lemma ReassignReviewer_merged (id old : string) (r : pr_row) (w : World) :
  pull_requests (db w) !! id = Some r →
  status r = PRStatusMerged →
  ∃ e, (service.ReassignReviewer id old w).1 = Err e
       ∧ (faults w = [] → e = ErrPRMerged).
Proof.
  intros Hr Hm. unfold service.ReassignReviewer, bind, map_err.
  destruct (repo.GetPullRequestWithReviewers id w) as [[pr|e] w'] eqn:E; simpl.
  - destruct (GetPullRequestWithReviewers_ok _ _ _ _ E) as (_ & r' & Hr' & ->).
    rewrite Hr in Hr'. injection Hr' as <-. simpl.
    rewrite Hm, bool_decide_eq_true_2 by done. by exists ErrPRMerged.
  - eexists. split; [done|]. intros Hq.
    by rewrite (GetPullRequestWithReviewers_calm id w r) in E.
Qed.

(** C6. A pull request stored with status MERGED keeps its row (status,
    merged_at and the rest) and its reviewers through every sequence of
    operations, whatever each of them returns, so it never goes back to
    OPEN.  MergePR on it leaves the store as it was and, without a store
    failure, succeeds with the stored pull request in an unchanged world.
    ReassignReviewer on it leaves the store as it was and returns an error,
    which is PRMerged unless the store failed first. *)
Theorem merged_pull_request_is_final (id : string) (r : pr_row) (w : World) :
  pull_requests (db w) !! id = Some r →
  status r = PRStatusMerged →
  (∀ ops, pull_requests (db (run_all ops w)) !! id = Some r
          ∧ select_reviewers id (db (run_all ops w)) = select_reviewers id (db w))
  ∧ (db (service.MergePR id w).2 = db w
     ∧ (faults w = [] → service.MergePR id w = (Ok (pull_request_of id r (db w)), w)))
  ∧ (∀ old, db (service.ReassignReviewer id old w).2 = db w
            ∧ ∃ e, (service.ReassignReviewer id old w).1 = Err e
                   ∧ (faults w = [] → e = ErrPRMerged)).
Proof.
  intros Hr Hm. split; [|split].
  - intros ops. by apply (frozen_run_all id r _ Hm ops w).
  - split; [by eapply MergePR_merged_store | intros; by apply MergePR_merged].
  - intros old. destruct (ReassignReviewer_merged id old r w Hr Hm) as (e & He & Hq).
    split; [by apply (atomic_ReassignReviewer id old w e) | by exists e].
Qed.

(** pr-1, once merged, through a reassignment, a merge, a creation with
    its id and a deactivation of its reviewer. *)
Lemma merged_pull_request_is_final_witness :
  pull_requests
    (db (run_all [OpReassignReviewer "pr-1" "u2"; OpMergePR "pr-1";
                  OpCreatePR "pr-1" "Again" "u3"; OpSetUserIsActive "u2" false]
                 w_merged)) !! "pr-1" = Some pr1_merged_row
  ∧ (service.ReassignReviewer "pr-1" "u2" w_merged).1 = Err ErrPRMerged.
Proof.
  destruct (merged_pull_request_is_final "pr-1" pr1_merged_row w_merged)
    as (Hall & _ & Hre).
  - vm_compute. reflexivity.
  - reflexivity.
  - split; [apply Hall|].
    destruct (Hre "u2") as (_ & e & He & Hq). rewrite He, Hq; reflexivity.
Defined.

(** ** The exclusion clause is never empty *)

Lemma string_app_assoc (s1 s2 s3 : string) : (s1 +:+ s2) +:+ s3 = s1 +:+ (s2 +:+ s3).
Proof.
  induction s1 as [|c s1 IH]; [done|].
  change (String c ((s1 +:+ s2) +:+ s3) = String c (s1 +:+ (s2 +:+ s3))). by f_equal.
Qed.

Lemma string_app_nil_r (s : string) : s +:+ "" = s.
Proof.
  induction s as [|c s IH]; [done|].
  change (String c (s +:+ "") = String c s). by f_equal.
Qed.

Lemma paste_excluded_acc (i : nat) (exclude : list string) (ex : string) :
  paste_excluded i exclude ex = ex +:+ paste_excluded i exclude "".
Proof.
  revert i ex. induction exclude as [|e rest IH]; intros i ex; simpl.
  - by rewrite string_app_nil_r.
  - change (paste_excluded (S i) rest (ex +:+ quoted i e)
            = ex +:+ paste_excluded (S i) rest (quoted i e)).
    rewrite (IH (S i) (ex +:+ quoted i e)), (IH (S i) (quoted i e)).
    by rewrite string_app_assoc.
Qed.

(** The clause is the malformed [()] for the empty list only. *)
Lemma exclusion_clause_empty (exclude : list string) :
  exclusion_clause exclude = "()" ↔ exclude = [].
Proof.
  split; [|by intros ->]. destruct exclude as [|e rest]; [done|].
  unfold exclusion_clause. simpl. rewrite paste_excluded_acc.
  intros H. cbv in H. discriminate H.
Qed.

(** The store rejects the empty clause. *)
Lemma select_candidates_empty_clause (team : string) (limit : nat) (w : World) :
  repo.select_candidates team limit "()" w = (Err syntax_error, w).
Proof. reflexivity. Qed.

Lemma leaves_invoked_roundtrip : leaves invoked roundtrip.
Proof. intros w. unfold roundtrip. by destruct (faults w) as [|[?|] ?]. Qed.

Lemma leaves_invoked_query {A} (q : DB → A) : leaves invoked (query q).
Proof. apply leaves_bind; [apply leaves_invoked_roundtrip | by intros _ w]. Qed.

Lemma leaves_invoked_exec (stmt : DB → result DB) : leaves invoked (exec stmt).
Proof.
  apply leaves_bind; [apply leaves_invoked_roundtrip|]. intros _ w.
  by destruct (stmt (db w)).
Qed.

Lemma leaves_invoked_in_tx {A} (body : M A) :
  leaves invoked body → leaves invoked (in_tx body).
Proof.
  intros Hb w. unfold in_tx.
  pose proof (leaves_invoked_roundtrip w) as H1.
  destruct (roundtrip w) as [[[]|e1] w1]; simpl in *; [|done].
  pose proof (Hb w1) as H2.
  destruct (body w1) as [[a|e2] w2]; simpl in *; [|congruence].
  pose proof (leaves_invoked_roundtrip w2) as H3.
  destruct (roundtrip w2) as [[[]|e3] w3]; simpl in *; congruence.
Qed.

Lemma leaves_invoked_GetPullRequestWithReviewers id :
  leaves invoked (repo.GetPullRequestWithReviewers id).
Proof.
  apply leaves_bind; [apply leaves_invoked_query|]. intros row.
  apply leaves_bind; [apply leaves_scan_row|]. intros r.
  apply leaves_bind; [apply leaves_invoked_query|]. intros revs. apply leaves_ret.
Qed.

Lemma leaves_invoked_GetUserByID id : leaves invoked (repo.GetUserByID id).
Proof. apply leaves_bind; [apply leaves_invoked_query | intros; apply leaves_scan_row]. Qed.

Lemma leaves_invoked_writes {A} (l : list A) (first : DB → result DB) (each : A → DB → result DB) :
  leaves invoked (in_tx (_ <- exec first ;; for_each l (λ x, exec (each x)))).
Proof.
  apply leaves_invoked_in_tx, leaves_bind; [apply leaves_invoked_exec|]. intros _.
  apply leaves_for_each. intros x. apply leaves_invoked_exec.
Qed.

Lemma leaves_invoked_CreateTeam t : leaves invoked (service.CreateTeam t).
Proof.
  apply leaves_bind; [|intros; apply leaves_ret].
  apply leaves_map_err, leaves_invoked_in_tx.
  apply leaves_bind; [apply leaves_invoked_query|]. intros [|]; [apply leaves_fail|].
  apply leaves_bind; [apply leaves_invoked_exec|]. intros _.
  apply leaves_for_each. intros m. apply leaves_invoked_exec.
Qed.

Lemma leaves_invoked_GetTeam name : leaves invoked (service.GetTeam name).
Proof.
  apply leaves_map_err, leaves_bind; [apply leaves_invoked_query|]. intros rows.
  destruct (foldl _ _ _) as [[tn ms] found].
  apply leaves_if; [apply leaves_ret | apply leaves_fail].
Qed.

Lemma leaves_invoked_SetUserIsActive uid active :
  leaves invoked (service.SetUserIsActive uid active).
Proof.
  apply leaves_map_err, leaves_bind; [apply leaves_invoked_roundtrip|]. intros _.
  apply leaves_bind; [|intros; apply leaves_scan_row].
  intros w. by destruct (update_user_is_active uid active (db w)).
Qed.

Lemma leaves_invoked_MergePR id : leaves invoked (service.MergePR id).
Proof.
  apply leaves_bind; [apply leaves_map_err, leaves_invoked_GetPullRequestWithReviewers|].
  intros pr. case_bool_decide; [apply leaves_ret|].
  apply leaves_bind; [by intros w|]. intros now.
  apply leaves_bind; [apply leaves_invoked_exec|]. intros _.
  apply leaves_invoked_GetPullRequestWithReviewers.
Qed.

Section logs.
Context {A : Type}.

Lemma logs_leaves (G : invocation → Prop) (m : M A) : leaves invoked m → logs G m.
Proof. intros H w. left. apply H. Qed.

Lemma logs_after {B} (G : invocation → Prop) (m : M B) (k : B → M A) :
  leaves invoked m → (∀ b, logs G (k b)) → logs G (bind m k).
Proof.
  intros Hm Hk w. unfold bind. specialize (Hm w).
  destruct (m w) as [[b|e] w']; simpl in *; [|by left].
  rewrite <- Hm. apply Hk.
Qed.

Lemma logs_before {B} (G : invocation → Prop) (m : M B) (k : B → M A) :
  logs G m → (∀ b, leaves invoked (k b)) → logs G (bind m k).
Proof.
  intros Hm Hk w. unfold bind. specialize (Hm w).
  destruct (m w) as [[b|e] w']; simpl in *; [|done].
  by rewrite (Hk b w').
Qed.
End logs.

Lemma logs_GetRandom (team : string) (limit : nat) (exclude : list string) :
  logs (λ i, inv_limit i = limit ∧ inv_exclude i = exclude
             ∧ inv_clause i = exclusion_clause exclude)
       (repo.GetRandomActiveReviewersFromTeamExcluding team limit exclude).
Proof.
  intros w. right. eexists. split; [|unfold repo.GetRandomActiveReviewersFromTeamExcluding, bind].
  2:{ simpl. pose proof (leaves_invoked_roundtrip
                (set_invoked ({| inv_team := team; inv_limit := limit; inv_exclude := exclude;
                                 inv_clause := exclusion_clause exclude |} :: invoked w) w)) as H1.
      destruct (roundtrip _) as [[[]|e] w1]; simpl in *; [|exact H1].
      unfold repo.select_candidates. destruct (read_in_list _); simpl; [exact H1|].
      case_bool_decide; exact H1. }
  done.
Qed.

Lemma logs_CreatePR id name author :
  logs (issued_by (OpCreatePR id name author)) (service.CreatePR id name author).
Proof.
  apply logs_after; [apply leaves_invoked_query|]. intros [|]; [apply logs_leaves, leaves_fail|].
  apply logs_after; [apply leaves_map_err, leaves_invoked_GetUserByID|]. intros user.
  apply logs_before.
  - intros w. destruct (logs_GetRandom (User_TeamName user) 2 [author] w)
      as [H|(i & (Hl & He & Hc) & H)]; [by left|].
    right. exists i. split; [|done]. split; [by rewrite Hc, He|].
    left. by exists id, name, author.
  - intros revs. apply leaves_bind; [by intros w|]. intros now.
    apply leaves_bind; [apply leaves_invoked_writes | intros; apply leaves_ret].
Qed.

Lemma logs_ReassignReviewer prID old :
  logs (issued_by (OpReassignReviewer prID old)) (service.ReassignReviewer prID old).
Proof.
  apply logs_after; [apply leaves_map_err, leaves_invoked_GetPullRequestWithReviewers|].
  intros pr. case_bool_decide; [apply logs_leaves, leaves_fail|]. cbv zeta.
  match goal with |- logs _ (if ?b then _ else _) => destruct b end;
    [apply logs_leaves, leaves_fail|].
  apply logs_after; [apply leaves_map_err, leaves_invoked_GetUserByID|]. intros oldUser.
  apply logs_before.
  - intros w. destruct (logs_GetRandom (User_TeamName oldUser) 1
                          (old :: PR_AuthorID pr :: AssignedReviewers pr) w)
      as [Hw|(i & (Hl & He & Hc) & Hw)]; [by left|].
    right. exists i. split; [|done]. split; [by rewrite Hc, He|].
    right. by exists prID, old, (PR_AuthorID pr), (AssignedReviewers pr).
  - intros [|newReviewer ?]; [apply leaves_fail|].
    apply leaves_bind; [apply leaves_invoked_writes | intros; apply leaves_ret].
Qed.

Lemma logs_run (o : op) : logs (issued_by o) (run o).
Proof.
  destruct o; simpl; (apply logs_before; [|intros; apply leaves_ret]).
  - apply logs_leaves, leaves_invoked_CreateTeam.
  - apply logs_leaves, leaves_invoked_GetTeam.
  - apply logs_leaves, leaves_invoked_SetUserIsActive.
  - apply logs_CreatePR.
  - apply logs_leaves, leaves_invoked_MergePR.
  - apply logs_ReassignReviewer.
  - apply logs_leaves, leaves_invoked_query.
  - apply logs_leaves, leaves_invoked_query.
Qed.

(** C10. Every call of the candidate query made by a sequence of
    operations comes from a CreatePR, with limit 2 and the author as the
    whole exclusion list, or from a ReassignReviewer, with limit 1 and an
    exclusion list that starts with the departing reviewer and the author.
    Its exclusion list is therefore not empty and the clause pasted from
    it is not the malformed [()], the one clause for which
    [select_candidates] takes its syntax-error branch. *)
Theorem exclusion_clause_never_empty (ops : list op) (w : World) (i : invocation) :
  i ∈ invoked (run_all ops w) →
  i ∈ invoked w
  ∨ ((∃ o, o ∈ ops ∧ issued_by o i)
     ∧ inv_exclude i ≠ []
     ∧ inv_clause i ≠ "()").
Proof.
  revert w. induction ops as [|o ops' IH]; intros w Hi; [by left|].
  simpl in Hi. apply IH in Hi as [Hi|((o' & Ho' & Hiss) & Hrest)].
  - destruct (logs_run o w) as [H|(j & Hj & H)]; rewrite H in Hi; [by left|].
    apply elem_of_cons in Hi as [->|Hi]; [|by left]. right.
    assert (Hne : inv_exclude j ≠ []).
    { destruct Hj as [_ [(? & ? & ? & _ & _ & He)|(? & ? & ? & ? & _ & _ & He)]];
        by rewrite He. }
    assert (Hc : inv_clause j ≠ "()").
    { destruct Hj as [Hc _]. rewrite Hc. by rewrite exclusion_clause_empty. }
    split; [exists o; split; [by left | done]|]. by split.
  - right. split; [|done]. exists o'. split; [by right | done].
Qed.

(** The call ReassignReviewer makes on the README's pull request. *)
Lemma exclusion_clause_never_empty_witness :
  readme_reassign_call ∈ invoked (run_all readme_ops (calm empty_db))
  ∧ inv_exclude readme_reassign_call ≠ []
  ∧ inv_clause readme_reassign_call ≠ "()".
Proof.
  assert (Hin : readme_reassign_call ∈ invoked (run_all readme_ops (calm empty_db)))
    by by_evaluation.
  split; [exact Hin|].
  destruct (exclusion_clause_never_empty _ _ _ Hin) as [H|(_ & H1 & H2)].
  - by apply elem_of_nil in H.
  - by split.
Defined.

(** ** GetReviewerStats *)

#[global] Instance more_assignments_total : Total more_assignments.
Proof. intros a b. unfold more_assignments. lia. Qed.

#[global] Instance more_assignments_trans : Transitive more_assignments.
Proof. intros a b c. unfold more_assignments. lia. Qed.

Lemma elem_of_group_by_user (s : ReviewerStat) (d : DB) :
  s ∈ group_by_user d ↔
  Assignments s = count_links (Stat_UserID s) d
  ∧ ∃ p, (p, Stat_UserID s) ∈ pull_request_reviewers d.
Proof.
  unfold group_by_user. rewrite list_elem_of_fmap. split.
  - intros (uid & -> & Hin). simpl. split; [done|].
    apply elem_of_remove_dups, list_elem_of_fmap in Hin as ([p u] & -> & Hin).
    by exists p.
  - intros (Hc & p & Hin). exists (Stat_UserID s). split.
    + destruct s as [uid n]. simpl in *. by rewrite Hc.
    + apply elem_of_remove_dups, list_elem_of_fmap. by exists (p, Stat_UserID s).
Qed.

(** Under the primary key of the link table, the rows bearing [uid] are
    as many as the pull requests [uid] is linked to. *)
Lemma count_links_distinct (uid : string) (prs : list string) (d : DB) :
  NoDup (pull_request_reviewers d) →
  NoDup prs →
  (∀ p, p ∈ prs ↔ (p, uid) ∈ pull_request_reviewers d) →
  count_links uid d = length prs.
Proof.
  intros Hpk Hprs Hiff. unfold count_links.
  rewrite <- (length_fmap (λ p, (p, uid)) prs). apply Permutation_length.
  apply NoDup_Permutation.
  - by apply NoDup_filter.
  - apply NoDup_fmap_2; [|done]. by intros p q [= ->].
  - intros [p u]. rewrite list_elem_of_filter, list_elem_of_fmap. simpl. split.
    + intros [-> Hin]. exists p. split; [done|]. by apply Hiff.
    + intros (q & [= -> ->] & Hq). split; [done|]. by apply Hiff.
Qed.

(** C8, as the code has it.  Without a store failure GetReviewerStats
    returns one entry for each user id borne by at least one link row at
    the time of the call, and no other entry; the entry carries the exact
    count of the link rows bearing the id; the list is sorted by count in
    descending order.  A user whose link rows are those of [n] distinct
    pull requests, [n] not zero, is reported with assignments = [n], so
    with 5 for 5 pull requests. *)
Theorem GetReviewerStats_counts_current_links (w : World) :
  faults w = [] →
  ∃ l, service.GetReviewerStats w = (Ok l, w)
    ∧ StronglySorted more_assignments l
    ∧ NoDup (Stat_UserID <$> l)
    ∧ (∀ s, s ∈ l ↔
         Assignments s = count_links (Stat_UserID s) (db w)
         ∧ ∃ p, (p, Stat_UserID s) ∈ pull_request_reviewers (db w))
    ∧ (∀ uid prs,
         NoDup (pull_request_reviewers (db w)) →
         NoDup prs → prs ≠ [] →
         (∀ p, p ∈ prs ↔ (p, uid) ∈ pull_request_reviewers (db w)) →
         {| Stat_UserID := uid; Assignments := length prs |} ∈ l).
Proof.
  intros Hq. exists (select_reviewer_stats (db w)).
  assert (Hperm : select_reviewer_stats (db w) ≡ₚ group_by_user (db w))
    by apply merge_sort_Permutation.
  assert (Hin : ∀ s, s ∈ select_reviewer_stats (db w) ↔
         Assignments s = count_links (Stat_UserID s) (db w)
         ∧ ∃ p, (p, Stat_UserID s) ∈ pull_request_reviewers (db w)).
  { intros s. rewrite Hperm. apply elem_of_group_by_user. }
  split; [|split; [|split; [|split]]].
  - unfold service.GetReviewerStats, repo.GetReviewerAssignmentStats. by rewrite query_calm.
  - apply StronglySorted_merge_sort; apply _.
  - rewrite Hperm. unfold group_by_user. rewrite <- list_fmap_compose.
    rewrite (list_fmap_ext _ id) by done.
    rewrite list_fmap_id. apply NoDup_remove_dups.
  - exact Hin.
  - intros uid prs Hpk Hprs Hne Hiff. apply Hin. simpl. split.
    + symmetry. by apply count_links_distinct.
    + destruct prs as [|p prs']; [done|]. exists p. apply Hiff. by left.
Qed.

(** u3 and u4 hold the two link rows of pr-1 after the replacement. *)
Lemma GetReviewerStats_counts_current_links_witness :
  (service.GetReviewerStats w_platform_replaced).1
  = Ok [{| Stat_UserID := "u3"; Assignments := 1 |};
        {| Stat_UserID := "u4"; Assignments := 1 |}]
  ∧ {| Stat_UserID := "u4"; Assignments := length ["pr-1"] |}
    ∈ [{| Stat_UserID := "u3"; Assignments := 1 |}; {| Stat_UserID := "u4"; Assignments := 1 |}].
Proof.
  destruct (GetReviewerStats_counts_current_links w_platform_replaced)
    as (l & Hrun & _ & _ & _ & Hn); [reflexivity|].
  assert (Hl : (service.GetReviewerStats w_platform_replaced).1
               = Ok [{| Stat_UserID := "u3"; Assignments := 1 |};
                     {| Stat_UserID := "u4"; Assignments := 1 |}])
    by (vm_compute; reflexivity).
  split; [exact Hl|].
  rewrite Hrun in Hl. injection Hl as <-.
  apply Hn; [by_evaluation | by_evaluation | done |].
  intros p. split.
  - intros ->%list_elem_of_singleton. by_evaluation.
  - intros Hp. assert (HF : Forall (λ l : string * string, l.1 = "pr-1")
                               (pull_request_reviewers (db w_platform_replaced)))
      by by_evaluation.
    apply list_elem_of_singleton. by apply (proj1 (Forall_forall _ _) HF _ Hp).
Defined.

(** C8 as stated fails: u2 was assigned to pr-1 when it was created, was
    replaced afterwards, and has no entry in the statistics. *)
Lemma replaced_reviewer_not_in_stats :
  "u2" ∈ select_reviewers "pr-1" (db w_platform_pr1)
  ∧ (service.ReassignReviewer "pr-1" "u2" w_platform_pr1).1
    = Ok ({| PR_ID := "pr-1"; PR_Name := "Add feature"; PR_AuthorID := "u1";
             PR_Status := PRStatusOpen; AssignedReviewers := ["u3"; "u4"];
             CreatedAt := Some 100%Z; MergedAt := None |}, "u4")
  ∧ ∃ l, (service.GetReviewerStats w_platform_replaced).1 = Ok l
         ∧ "u2" ∉ Stat_UserID <$> l.
Proof.
  split; [by_evaluation|]. split; [vm_compute; reflexivity|].
  eexists. split; [vm_compute; reflexivity|]. by_evaluation.
Qed.

(** ** The constraints of the schema hold in every reachable store *)

Lemma is_Some_insert {V} (m : gmap string V) (i j : string) (x : V) :
  is_Some (m !! j) → is_Some (<[i:=x]> m !! j).
Proof. intros H. rewrite lookup_insert_is_Some. destruct (decide (i = j)); auto. Qed.

Lemma is_Some_alter {V} (f : V → V) (m : gmap string V) (i j : string) :
  is_Some (m !! j) → is_Some (alter f i m !! j).
Proof.
  intros [x Hx]. rewrite lookup_alter. case_decide; [subst; rewrite Hx|rewrite Hx]; by eexists.
Qed.

Lemma integrity_empty : integrity empty_db.
Proof.
  split; [apply map_Forall_empty|]. split; [apply map_Forall_empty|].
  split; [constructor | constructor].
Qed.

Lemma integrity_insert_team name d d' :
  integrity d → insert_team name d = Ok d' → integrity d'.
Proof.
  unfold insert_team. case_bool_decide; [done|]. intros (Ht & Ha & Hl & Hpk) [= <-].
  split; [|done]. simpl. eapply map_Forall_impl; [exact Ht|]. set_solver.
Qed.

Lemma integrity_upsert_user uid uname team active d d' :
  integrity d → upsert_user uid uname team active d = Ok d' → integrity d'.
Proof.
  unfold upsert_user. case_bool_decide as Hteam; [|done].
  intros (Ht & Ha & Hl & Hpk) [= <-]. split; [|split; [|split]]; simpl; [| | |done].
  - by apply map_Forall_insert_2.
  - eapply map_Forall_impl; [exact Ha|]. intros p row. apply is_Some_insert.
  - eapply Forall_impl; [exact Hl|]. intros l [? ?]. split; [done|]. by apply is_Some_insert.
Qed.

Lemma integrity_update_user uid active d :
  integrity d → integrity (update_user_is_active uid active d).1.
Proof.
  intros (Ht & Ha & Hl & Hpk). split; [|split; [|split]]; simpl; [| | |done].
  - intros i u. rewrite lookup_alter. case_decide.
    + destruct (users d !! uid) as [u0|] eqn:E; simpl; [|done]. intros [= <-]. simpl.
      by apply (Ht uid u0).
    + apply Ht.
  - eapply map_Forall_impl; [exact Ha|]. intros p row. apply is_Some_alter.
  - eapply Forall_impl; [exact Hl|]. intros l [? ?]. split; [done|]. by apply is_Some_alter.
Qed.

Lemma integrity_insert_pull_request id name author created d d' :
  integrity d → insert_pull_request id name author created d = Ok d' → integrity d'.
Proof.
  unfold insert_pull_request. destruct created as [at_|]; [|done].
  case_bool_decide; [done|]. case_bool_decide as Hauthor; [|done].
  intros (Ht & Ha & Hl & Hpk) [= <-]. split; [|split; [|split]]; simpl; [done| | |done].
  - by apply map_Forall_insert_2.
  - eapply Forall_impl; [exact Hl|]. intros l [? ?]. split; [|done]. by apply is_Some_insert.
Qed.

Lemma integrity_insert_reviewer pr uid d d' :
  integrity d → insert_reviewer pr uid d = Ok d' → integrity d'.
Proof.
  unfold insert_reviewer. case_bool_decide as Hpk'; [done|]. case_bool_decide as Hfk; [|done].
  intros (Ht & Ha & Hl & Hpk) [= <-]. split; [|split; [|split]]; simpl; [done|done| |].
  - apply Forall_app. split; [done|]. by constructor.
  - apply NoDup_app. split; [done|]. split; [|apply NoDup_singleton].
    intros l Hin ->%list_elem_of_singleton. done.
Qed.

Lemma integrity_update_merged id mergedAt d : integrity d → integrity (update_merged id mergedAt d).
Proof.
  intros (Ht & Ha & Hl & Hpk). split; [|split; [|split]]; simpl; [done| | |done].
  - intros i p. rewrite lookup_alter. case_decide.
    + destruct (pull_requests d !! id) as [p0|] eqn:E; simpl; [|done]. intros [= <-]. simpl.
      by apply (Ha id p0).
    + apply Ha.
  - eapply Forall_impl; [exact Hl|]. intros l [? ?]. split; [|done]. by apply is_Some_alter.
Qed.

Lemma integrity_delete_reviewers id d : integrity d → integrity (delete_reviewers id d).
Proof.
  intros (Ht & Ha & Hl & Hpk). split; [|split; [|split]]; simpl; [done|done| |].
  - apply Forall_forall. intros l [_ Hin]%list_elem_of_filter.
    by apply (proj1 (Forall_forall _ _) Hl).
  - by apply NoDup_filter.
Qed.

Lemma integrity_writes {A} (l : list A) (first : DB → result DB) (each : A → DB → result DB) :
  (∀ d d', integrity d → first d = Ok d' → integrity d') →
  (∀ x d d', integrity d → each x d = Ok d' → integrity d') →
  triple integrity (in_tx (_ <- exec first ;; for_each l (λ x, exec (each x))))
         (λ _, integrity) integrity.
Proof.
  intros Hf He. apply triple_in_tx.
  apply triple_bind with (Q := λ _, integrity); [by apply triple_exec|]. intros _.
  apply triple_for_each. intros x. apply triple_exec; [|done]. apply He.
Qed.

Lemma integrity_run (o : op) : triple integrity (run o) (λ _, integrity) integrity.
Proof.
  destruct o; simpl;
    (apply triple_bind with (Q := λ _, integrity); [|intros; by apply triple_ret]).
  - apply triple_bind with (Q := λ _, integrity); [|intros; by apply triple_ret].
    apply triple_map_err, triple_in_tx.
    apply triple_bind with (Q := λ _, integrity);
      [eapply triple_weaken; [apply triple_leaves, leaves_db_query|done|done]|].
    intros [|]; [by apply triple_fail|].
    apply triple_bind with (Q := λ _, integrity).
    + apply triple_exec; [|done]. intros d d'. apply integrity_insert_team.
    + intros _. apply triple_for_each. intros m. apply triple_exec; [|done].
      intros d d'. apply integrity_upsert_user.
  - apply triple_leaves, leaves_map_err, leaves_db_GetTeam.
  - apply triple_map_err. intros w Hw. unfold repo.UpdateUserIsActive, bind.
    pose proof (leaves_db_roundtrip w) as H1.
    destruct (roundtrip w) as [[[]|e] w1]; simpl in *; [|by rewrite H1].
    rewrite <- H1 in Hw.
    destruct (select_user uid _); simpl; by apply (integrity_update_user uid active).
  - apply triple_bind with (Q := λ _, integrity); [apply triple_leaves, leaves_db_query|].
    intros [|]; [by apply triple_fail|].
    apply triple_bind with (Q := λ _, integrity); [apply triple_leaves; auto with frame|].
    intros user.
    apply triple_bind with (Q := λ _, integrity); [apply triple_leaves; auto with frame|].
    intros picked.
    apply triple_bind with (Q := λ _, integrity); [apply triple_leaves; auto with frame|].
    intros now.
    apply triple_bind with (Q := λ _, integrity); [|intros; by apply triple_ret].
    apply integrity_writes.
    + intros d d'. apply integrity_insert_pull_request.
    + intros x d d'. apply integrity_insert_reviewer.
  - apply triple_bind with (Q := λ _, integrity); [apply triple_leaves; auto with frame|].
    intros pr. case_bool_decide; [by apply triple_ret|].
    apply triple_bind with (Q := λ _, integrity); [apply triple_leaves; auto with frame|].
    intros now.
    apply triple_bind with (Q := λ _, integrity).
    + apply triple_exec; [|done]. intros d d' Hd [= <-]. by apply integrity_update_merged.
    + intros _. apply triple_leaves, leaves_db_GetPullRequestWithReviewers.
  - apply triple_bind with (Q := λ _, integrity); [apply triple_leaves; auto with frame|].
    intros pr. case_bool_decide; [by apply triple_fail|]. cbv zeta.
    match goal with |- triple _ (if ?b then _ else _) _ _ => destruct b end;
      [by apply triple_fail|].
    apply triple_bind with (Q := λ _, integrity); [apply triple_leaves; auto with frame|].
    intros oldUser.
    apply triple_bind with (Q := λ _, integrity); [apply triple_leaves; auto with frame|].
    intros [|newReviewer ?]; [by apply triple_fail|].
    apply triple_bind with (Q := λ _, integrity); [|intros; by apply triple_ret].
    apply integrity_writes.
    + intros d d' Hd [= <-]. by apply integrity_delete_reviewers.
    + intros x d d'. apply integrity_insert_reviewer.
  - apply triple_leaves, leaves_db_query.
  - apply triple_leaves, leaves_db_query.
Qed.

(** Every store reached from the empty one satisfies the constraints. *)
Lemma integrity_reachable (ops : list op) (w : World) :
  integrity (db w) → integrity (db (run_all ops w)).
Proof.
  revert w. induction ops as [|o ops' IH]; intros w Hw; [done|].
  simpl. apply IH. pose proof (integrity_run o w Hw) as H.
  by destruct (run o w) as [[a|e] w'].
Qed.

(** ** What a successful computation did *)

Lemma bind_ok {A B} (m : M A) (k : A → M B) (w w' : World) (b : B) :
  bind m k w = (Ok b, w') → ∃ a w1, m w = (Ok a, w1) ∧ k a w1 = (Ok b, w').
Proof. unfold bind. destruct (m w) as [[a|e] w1]; [|done]. intros H. by exists a, w1. Qed.

Lemma map_err_ok {A} (g : error → error) (m : M A) (w w' : World) (a : A) :
  map_err g m w = (Ok a, w') → m w = (Ok a, w').
Proof. unfold map_err. by destruct (m w) as [[a'|e] w1]. Qed.

Lemma query_ok {A} (q : DB → A) (w w' : World) (a : A) :
  query q w = (Ok a, w') → a = q (db w) ∧ db w' = db w.
Proof.
  unfold query, bind. pose proof (leaves_db_roundtrip w) as H1.
  destruct (roundtrip w) as [[[]|e] w1]; simpl in *; [|done].
  intros [= <- <-]. by rewrite H1.
Qed.

Lemma exec_ok (stmt : DB → result DB) (w w' : World) (u : unit) :
  exec stmt w = (Ok u, w') → stmt (db w) = Ok (db w').
Proof.
  unfold exec, bind. pose proof (leaves_db_roundtrip w) as H1.
  destruct (roundtrip w) as [[[]|e] w1]; simpl in *; [|done]. rewrite <- H1.
  destruct (stmt (db w1)) as [d|e]; [|done]. by intros [= _ <-].
Qed.

Lemma in_tx_ok {A} (body : M A) (w w' : World) (a : A) :
  in_tx body w = (Ok a, w') →
  ∃ w0 w2, db w0 = db w ∧ body w0 = (Ok a, w2) ∧ db w' = db w2.
Proof.
  unfold in_tx. pose proof (leaves_db_roundtrip w) as H1.
  destruct (roundtrip w) as [[[]|e1] w1]; simpl in *; [|done].
  destruct (body w1) as [[a'|e2] w2] eqn:Hb; [|done].
  pose proof (leaves_db_roundtrip w2) as H2.
  destruct (roundtrip w2) as [[[]|e3] w3]; simpl in *; [|done].
  intros [= <- <-]. by exists w1, w2.
Qed.

(** ** CreateTeam, then GetTeam *)

Lemma upserts_ok (team : string) (l : list TeamMember) (w w' : World) :
  for_each l (λ m, exec (upsert_user (Member_UserID m) (Member_Username m) team
                                     (Member_IsActive m))) w = (Ok tt, w') →
  db w' = foldl (add_member team) (db w) l.
Proof.
  revert w. induction l as [|m l' IH]; intros w; simpl.
  - by intros [= <-].
  - intros (u & w1 & He & Hrest)%bind_ok. apply exec_ok in He.
    rewrite (IH _ Hrest). f_equal. unfold upsert_user in He.
    case_bool_decide; [|done]. by injection He as <-.
Qed.

Lemma CreateTeam_ok (t stored_team : Team) (w w1 : World) :
  service.CreateTeam t w = (Ok stored_team, w1) →
  stored_team = t
  ∧ (TeamName t ∉ teams (db w))
  ∧ db w1 = foldl (add_member (TeamName t))
                  (set_teams (λ ts, {[TeamName t]} ∪ ts) (db w)) (Members t).
Proof.
  intros (u & w2 & Hrepo & Hret)%bind_ok. injection Hret as <- <-.
  split; [done|].
  apply map_err_ok, in_tx_ok in Hrepo as (w0 & w3 & H0 & Hbody & H3).
  apply bind_ok in Hbody as (b & w4 & Hq & Hbody). apply query_ok in Hq as [-> H4].
  rewrite H0 in H4. rewrite H0 in Hbody. unfold select_team_exists in Hbody.
  case_bool_decide as Hin; [done|]. split; [done|].
  apply bind_ok in Hbody as (u' & w5 & He & Hups). apply exec_ok in He.
  rewrite H4 in He. unfold insert_team in He. rewrite bool_decide_eq_false_2 in He by done.
  injection He as He. destruct u. rewrite H3, (upserts_ok _ _ _ _ Hups). by rewrite <- He.
Qed.

Lemma foldl_add_member (team : string) (l : list TeamMember) (d : DB) :
  teams (foldl (add_member team) d l) = teams d
  ∧ users (foldl (add_member team) d l) = foldl (put_member team) (users d) l.
Proof.
  revert d. induction l as [|m l' IH]; intros d; [done|]. simpl.
  destruct (IH (add_member team d m)) as [-> ->]. done.
Qed.

Lemma lookup_put_members (team : string) (l : list TeamMember)
    (us : gmap string user_row) (uid : string) (row : user_row) :
  foldl (put_member team) us l !! uid = Some row →
  (∃ m, m ∈ l ∧ Member_UserID m = uid ∧ row = row_of team m) ∨ us !! uid = Some row.
Proof.
  induction l as [|m l' IH] using rev_ind; [by right|].
  rewrite foldl_snoc. unfold put_member at 1. rewrite lookup_insert.
  case_decide as Heq.
  - intros [= <-]. left. exists m. split; [|done]. apply elem_of_app. right. by left.
  - intros [(m' & Hin & Hm')|H]%IH; [|by right].
    left. exists m'. split; [|done]. apply elem_of_app. by left.
Qed.

Lemma lookup_put_member (team : string) (l : list TeamMember)
    (us : gmap string user_row) (m : TeamMember) :
  one_entry_per_id l → m ∈ l →
  foldl (put_member team) us l !! Member_UserID m = Some (row_of team m).
Proof.
  induction l as [|x l' IH] using rev_ind; [by intros _ ?%elem_of_nil|].
  intros Hone Hin. rewrite foldl_snoc. unfold put_member at 1. rewrite lookup_insert.
  case_decide as Heq.
  - rewrite (Hone x m); [done| |done|done]. apply elem_of_app. right. by left.
  - apply IH.
    + intros m1 m2 H1 H2. apply Hone; apply elem_of_app; by left.
    + apply elem_of_app in Hin as [Hin|Hin%list_elem_of_singleton]; [done|].
      by subst.
Qed.

(** The rows of the join read by the loop of [GetTeam]. *)
Lemma GetTeam_scan_rows (name : string) (us : list (string * user_row))
    (tn0 : string) (ms0 : list TeamMember) (found0 : bool) :
  foldl repo.GetTeam_scan (tn0, ms0, found0)
        ((λ kv, (name, Some (kv.1, username kv.2, is_active kv.2))) <$> us)
  = match us with
    | [] => (tn0, ms0, found0)
    | _ => (name, (ms0 ++ (member_of <$> us))%list, true)
    end.
Proof.
  revert tn0 ms0 found0. induction us as [|kv us' IH]; intros tn0 ms0 found0; [done|].
  rewrite fmap_cons. simpl. rewrite IH. destruct us' as [|kv' us'']; [done|].
  by rewrite <- app_assoc.
Qed.

Lemma GetTeam_calm (name : string) (w : World) :
  faults w = [] →
  name ∈ teams (db w) →
  service.GetTeam name w
  = (Ok {| TeamName := name; Members := member_of <$> users_of_team name (db w) |}, w).
Proof.
  intros Hq Hin. unfold service.GetTeam, map_err, repo.GetTeam, bind.
  rewrite query_calm by done. unfold select_team_join.
  rewrite bool_decide_eq_true_2 by done.
  destruct (users_of_team name (db w)) as [|kv us] eqn:Hus; [done|].
  by rewrite GetTeam_scan_rows.
Qed.

Lemma elem_of_users_of_team (name : string) (d : DB) (kv : string * user_row) :
  kv ∈ users_of_team name d ↔ users d !! kv.1 = Some kv.2 ∧ team_name kv.2 = name.
Proof.
  unfold users_of_team. rewrite list_elem_of_filter. destruct kv as [k v]. simpl.
  rewrite elem_of_map_to_list. tauto.
Qed.

Lemma NoDup_users_of_team (name : string) (d : DB) :
  NoDup (Member_UserID <$> (member_of <$> users_of_team name d)).
Proof.
  rewrite <- list_fmap_compose.
  rewrite (list_fmap_ext _ fst) by done.
  eapply sublist_NoDup; [apply (NoDup_fst_map_to_list (users d))|].
  apply fmap_sublist, sublist_filter.
Qed.

(** C7. A CreateTeam that succeeds returns the team it was given.  If the
    store satisfied the constraints of the schema and no two different
    entries of the submitted list bear the same user id, a GetTeam of the
    same name that follows without a store failure returns that name with
    exactly the submitted entries (user_id, username, is_active) as a set,
    one per user id; when the submitted ids are pairwise distinct the
    returned list is a permutation of the submitted one. *)
Theorem CreateTeam_GetTeam_roundtrip (t stored_team : Team) (w w1 : World) :
  integrity (db w) →
  one_entry_per_id (Members t) →
  service.CreateTeam t w = (Ok stored_team, w1) →
  faults w1 = [] →
  stored_team = t
  ∧ ∃ got, service.GetTeam (TeamName t) w1 = (Ok got, w1)
           ∧ TeamName got = TeamName t
           ∧ (∀ m, m ∈ Members got ↔ m ∈ Members t)
           ∧ NoDup (Member_UserID <$> Members got)
           ∧ (NoDup (Member_UserID <$> Members t) → Members got ≡ₚ Members t).
Proof.
  intros (Hfk & _) Hone Hrun Hq.
  destruct (CreateTeam_ok _ _ _ _ Hrun) as (-> & Hnew & Hdb). split; [done|].
  destruct (foldl_add_member (TeamName t) (Members t)
              (set_teams (λ ts, {[TeamName t]} ∪ ts) (db w))) as [Hteams Husers].
  rewrite <- Hdb in Hteams, Husers. simpl in Hteams, Husers.
  assert (Hin : TeamName t ∈ teams (db w1)).
  { rewrite Hteams. apply elem_of_union. left. by apply elem_of_singleton. }
  eexists. split; [by apply GetTeam_calm|]. simpl. split; [done|].
  assert (Hset : ∀ m, m ∈ member_of <$> users_of_team (TeamName t) (db w1)
                      ↔ m ∈ Members t).
  { intros m. rewrite list_elem_of_fmap. split.
    - intros ([uid row] & -> & [Hrow Hteam]%elem_of_users_of_team). simpl in *.
      rewrite Husers in Hrow.
      apply lookup_put_members in Hrow as [(m & Hm & <- & ->)|Hold].
      + by destruct m.
      + exfalso. apply Hnew. rewrite <- Hteam. by apply (Hfk uid row).
    - intros Hm. exists (Member_UserID m, row_of (TeamName t) m). split; [by destruct m|].
      apply elem_of_users_of_team. simpl. split; [|done].
      rewrite Husers. by apply lookup_put_member. }
  split; [exact Hset|]. split; [apply NoDup_users_of_team|].
  intros Hids. apply NoDup_Permutation; [|by eapply NoDup_fmap_1|exact Hset].
  eapply NoDup_fmap_1, NoDup_users_of_team.
Qed.

Lemma NoDup_ids_one_entry (members : list TeamMember) :
  NoDup (Member_UserID <$> members) → one_entry_per_id members.
Proof.
  intros Hnd m1 m2 H1 H2 Heq.
  apply list_elem_of_lookup in H1 as [i Hi]. apply list_elem_of_lookup in H2 as [j Hj].
  assert (i = j) as ->; [|congruence].
  apply (NoDup_lookup _ i j (Member_UserID m1) Hnd); rewrite list_lookup_fmap.
  - by rewrite Hi.
  - by rewrite Hj, Heq.
Qed.

(** The README's team, created in the empty store and read back. *)
Lemma CreateTeam_GetTeam_roundtrip_witness :
  ∃ got, service.GetTeam "backend" w_backend = (Ok got, w_backend)
         ∧ TeamName got = "backend"
         ∧ Members got ≡ₚ Members backend.
Proof.
  destruct (CreateTeam_GetTeam_roundtrip backend backend (calm empty_db) w_backend)
    as (_ & got & Hrun & Hname & _ & _ & Hperm).
  - by_evaluation.
  - apply NoDup_ids_one_entry. by_evaluation.
  - vm_compute. reflexivity.
  - reflexivity.
  - exists got. split; [exact Hrun|]. split; [exact Hname|]. apply Hperm. by_evaluation.
Defined.

(** Two different entries with one user id: the later one is stored, and
    GetTeam returns it alone. *)
Example CreateTeam_same_id_twice :
  (service.GetTeam "pair"
     (service.CreateTeam {| TeamName := "pair";
                            Members := [member "u1" "Alice" true; member "u1" "Bob" false] |}
                         (calm empty_db)).2).1
  = Ok {| TeamName := "pair"; Members := [member "u1" "Bob" false] |}.
Proof. vm_compute. reflexivity. Qed.

(** ** Ids without quotes: the exclusion clause is read back as written *)

Lemma lex_run_app (st : lex_state) (s1 s2 : string) :
  lex_run st (s1 +:+ s2)
  = match lex_run st s1 with Some st' => lex_run st' s2 | None => None end.
Proof.
  revert st. induction s1 as [|c s1 IH]; intros st; [done|].
  change (String c s1 +:+ s2) with (String c (s1 +:+ s2)). simpl.
  destruct (lex_step st c); [apply IH | done].
Qed.

Lemma lex_run_quote_free (seen : list string) (cur s : string) :
  quote_free s → lex_run (InConstant seen cur) s = Some (InConstant seen (cur +:+ s)).
Proof.
  revert cur. induction s as [|c s IH]; intros cur Hs; simpl.
  - by rewrite string_app_nil_r.
  - simpl in Hs. apply andb_True in Hs as [Hc Hs]. apply negb_True in Hc.
    rewrite bool_decide_eq_false_2 by (intros ->; by apply Hc).
    rewrite IH by done. by rewrite string_app_assoc.
Qed.

Lemma string_app_nil_l (s : string) : "" +:+ s = s.
Proof. reflexivity. Qed.

(** Reading one pasted constant and what follows it. *)
Lemma lex_run_constant (seen : list string) (e rest : string) :
  quote_free e →
  lex_run (InConstant seen "") (e +:+ "'" +:+ rest) = lex_run (QuoteSeen seen e) rest.
Proof.
  intros He. rewrite lex_run_app, lex_run_quote_free by done.
  rewrite string_app_nil_l. change ("'" +:+ rest) with (String "'" rest). done.
Qed.

Lemma lex_run_rest (i : nat) (rest seen : list string) (cur : string) :
  Forall (λ e, quote_free e) rest →
  lex_run (QuoteSeen seen cur) (paste_excluded (S i) rest "" +:+ ")")
  = Some (Closed (seen ++ cur :: rest)).
Proof.
  revert i seen cur. induction rest as [|e rest' IH]; intros i seen cur Hall; [done|].
  apply Forall_cons in Hall as [He Hall].
  change (paste_excluded (S i) (e :: rest') "")
    with (paste_excluded (S (S i)) rest' (", '" +:+ e +:+ "'")).
  rewrite paste_excluded_acc, !string_app_assoc.
  change (", '" +:+ e +:+ "'" +:+ paste_excluded (S (S i)) rest' "" +:+ ")")
    with (String "," (String " " ("'" +:+ e +:+ "'" +:+ paste_excluded (S (S i)) rest' "" +:+ ")"))).
  simpl. rewrite string_app_nil_l, lex_run_constant by done. rewrite IH by done.
  by rewrite <- app_assoc.
Qed.

Lemma read_exclusion_clause (exclude : list string) :
  exclude ≠ [] →
  Forall (λ e, quote_free e) exclude →
  read_in_list (exclusion_clause exclude) = Some exclude.
Proof.
  destruct exclude as [|e rest]; [done|]. intros _ [He Hall]%Forall_cons.
  unfold read_in_list, exclusion_clause.
  change (paste_excluded 0 (e :: rest) "(") with (paste_excluded 1 rest ("(" +:+ "'" +:+ e +:+ "'")).
  rewrite paste_excluded_acc, !string_app_assoc.
  change ("(" +:+ "'" +:+ e +:+ "'" +:+ paste_excluded 1 rest "" +:+ ")")
    with (String "(" ("'" +:+ e +:+ "'" +:+ paste_excluded 1 rest "" +:+ ")")).
  simpl. rewrite string_app_nil_l, lex_run_constant by done. by rewrite lex_run_rest.
Qed.

(** ** The draw *)

Lemma draw_Permutation {A} (n : nat) (seed : list nat) (l : list A) :
  length l = n → draw n seed l ≡ₚ l.
Proof.
  revert seed l. induction n as [|n IH]; intros seed l Hlen; simpl.
  - by destruct l.
  - assert (Hk : (hd 0 seed `mod` length l < length l)%nat)
      by (apply Nat.mod_upper_bound; lia).
    destruct (lookup_lt_is_Some_2 l _ Hk) as [x Hx]. rewrite Hx.
    etrans; [|symmetry; apply (delete_Permutation l _ x Hx)]. constructor.
    apply IH. rewrite length_delete by (by eexists). lia.
Qed.

Lemma shuffle_Permutation {A} (seed : list nat) (l : list A) : shuffle seed l ≡ₚ l.
Proof. by apply draw_Permutation. Qed.

Lemma elem_of_eligible_users (team : string) (excluded : list string) (d : DB) (uid : string) :
  uid ∈ eligible_users team excluded d ↔ candidate team excluded d uid.
Proof.
  unfold eligible_users, candidate. rewrite list_elem_of_fmap. split.
  - intros ([k row] & -> & [(Ht & Ha & Hx) Hin]%list_elem_of_filter). simpl in *.
    exists row. by rewrite <- elem_of_map_to_list.
  - intros (row & Hrow & Ht & Ha & Hx). exists (uid, row). split; [done|].
    apply list_elem_of_filter. split; [done|]. by apply elem_of_map_to_list.
Qed.

Lemma NoDup_eligible_users (team : string) (excluded : list string) (d : DB) :
  NoDup (eligible_users team excluded d).
Proof.
  eapply sublist_NoDup; [apply (NoDup_fst_map_to_list (users d))|].
  apply fmap_sublist, sublist_filter.
Qed.

(** What the candidate query answers when every excluded id is free of
    quotes: at most [limit] distinct candidates. *)
Lemma GetRandom_ok (team : string) (limit : nat) (exclude picked : list string) (w w' : World) :
  repo.GetRandomActiveReviewersFromTeamExcluding team limit exclude w = (Ok picked, w') →
  exclude ≠ [] →
  Forall (λ e, quote_free e) exclude →
  db w' = db w
  ∧ (length picked ≤ limit)%nat
  ∧ NoDup picked
  ∧ (∀ uid, uid ∈ picked → candidate team exclude (db w) uid)
  ∧ (picked = [] → limit = 0 ∨ ∀ uid, ¬ candidate team exclude (db w) uid).
Proof.
  intros Hrun Hne Hall.
  pose proof (leaves_db_GetRandom team limit exclude w) as Hdb. rewrite Hrun in Hdb.
  split; [exact Hdb|]. revert Hrun.
  unfold repo.GetRandomActiveReviewersFromTeamExcluding, bind. simpl.
  match goal with |- context [roundtrip ?w0] =>
    pose proof (leaves_db_roundtrip w0) as H1; destruct (roundtrip w0) as [[[]|e] w1] end;
    simpl in *; [|done].
  unfold repo.select_candidates. rewrite read_exclusion_clause by done.
  rewrite H1. intros [= <- _].
  pose proof (shuffle_Permutation (rng w1) (eligible_users team exclude (db w))) as Hperm.
  split; [rewrite length_take; lia|]. split; [|split].
  - eapply sublist_NoDup; [|apply sublist_take].
    rewrite Hperm. apply NoDup_eligible_users.
  - intros uid Hin%(subseteq_take limit). rewrite Hperm in Hin.
    by apply elem_of_eligible_users.
  - intros Hnil. destruct limit as [|limit']; [by left|]. right. intros uid Hc.
    apply elem_of_eligible_users in Hc. rewrite <- Hperm in Hc.
    destruct (shuffle _ _); [by apply elem_of_nil in Hc | done].
Qed.

(** ** CreatePR with an author id free of quotes *)

Lemma GetUserByID_ok (id : string) (u : User) (w w' : World) :
  repo.GetUserByID id w = (Ok u, w') →
  db w' = db w
  ∧ ∃ row, users (db w) !! id = Some row ∧ User_TeamName u = team_name row.
Proof.
  intros (row & w1 & [-> Hdb]%query_ok & Hscan)%bind_ok.
  unfold select_user in Hscan.
  destruct (users (db w) !! id) as [r|] eqn:Hr; simpl in Hscan; [|done].
  injection Hscan as <- <-. split; [done|]. by exists r.
Qed.

(** The reviewers of a pull request CreatePR returns, when the id of the
    author has no quote: at most two, distinct, none of them the author,
    each an active user of the author's team. *)
Lemma CreatePR_plain_author (id name author : string) (pr : PullRequest) (w w' : World) :
  service.CreatePR id name author w = (Ok pr, w') →
  quote_free author →
  ∃ urow, users (db w) !! author = Some urow
    ∧ pull_requests (db w) !! id = None
    ∧ (author ∉ AssignedReviewers pr)
    ∧ (length (AssignedReviewers pr) ≤ 2)%nat
    ∧ NoDup (AssignedReviewers pr)
    ∧ ∀ r, r ∈ AssignedReviewers pr →
           ∃ row, users (db w) !! r = Some row
                  ∧ team_name row = team_name urow ∧ is_active row = true.
Proof.
  intros Hrun Hplain.
  apply bind_ok in Hrun as (b & w1 & [-> Hdb1]%query_ok & Hrun).
  unfold select_pr_exists in Hrun. case_bool_decide as Hfresh; [done|].
  apply bind_ok in Hrun as (user & w2 & Huser%map_err_ok & Hrun).
  apply GetUserByID_ok in Huser as (Hdb2 & urow & Hurow & Hteam).
  apply bind_ok in Hrun as (picked & w3 & Hpick & Hrun).
  apply GetRandom_ok in Hpick as (Hdb3 & Hlen & Hnd & Hcand & _);
    [|done|by apply Forall_singleton].
  apply bind_ok in Hrun as (now & w4 & _ & Hrun).
  apply bind_ok in Hrun as (u & w5 & _ & Hret). injection Hret as <- _. simpl.
  rewrite Hdb1 in Hurow. exists urow. split; [done|].
  split; [by apply eq_None_not_Some|].
  split; [|split; [done|split; [done|]]].
  - intros (row & _ & _ & _ & Hx)%Hcand. apply Hx. by left.
  - intros r (row & Hrow & Ht & Ha & _)%Hcand. rewrite Hdb2, Hdb1 in Hrow.
    exists row. by rewrite <- Hteam.
Qed.

Lemma in_tx_calm {A} (body : M A) (w w' : World) (a : A) :
  faults w = [] → body w = (Ok a, w') → faults w' = [] → in_tx body w = (Ok a, w').
Proof.
  intros Hq Hb Hq'. unfold in_tx. rewrite roundtrip_calm, Hb by done.
  by rewrite roundtrip_calm.
Qed.

Lemma insert_reviewers_calm (id : string) (revs : list string) (w : World) :
  faults w = [] →
  is_Some (pull_requests (db w) !! id) →
  Forall (λ r, is_Some (users (db w) !! r)) revs →
  NoDup revs →
  (∀ r, r ∈ revs → (id, r) ∉ pull_request_reviewers (db w)) →
  ∃ w', for_each revs (λ r, exec (insert_reviewer id r)) w = (Ok tt, w')
        ∧ faults w' = []
        ∧ pull_request_reviewers (db w')
          = (pull_request_reviewers (db w) ++ ((λ r, (id, r)) <$> revs))%list.
Proof.
  revert w. induction revs as [|r revs' IH]; intros w Hq Hpr Husers Hnd Hnew.
  - exists w. by rewrite app_nil_r.
  - apply Forall_cons in Husers as [Hu Husers]. apply NoDup_cons in Hnd as [Hr Hnd].
    set (d1 := set_reviewers (λ l, (l ++ [(id, r)])%list) (db w)).
    assert (Hins : insert_reviewer id r (db w) = Ok d1).
    { unfold insert_reviewer.
      rewrite bool_decide_eq_false_2 by (apply Hnew; by left).
      by rewrite bool_decide_eq_true_2. }
    destruct (IH (set_db d1 w)) as (w' & Hrest & Hq' & Hlinks); try done.
    { intros r' Hr'. simpl. rewrite elem_of_app, list_elem_of_singleton.
      intros [Hold|[= <-]]; [|done]. apply (Hnew r'); [by right | done]. }
    exists w'. split; [|split; [done|]].
    + simpl. unfold bind. by rewrite (exec_calm _ _ d1).
    + rewrite Hlinks. simpl. by rewrite <- app_assoc.
Qed.

Lemma links_of_fresh (id : string) (links : list (string * string)) :
  (∀ r, (id, r) ∉ links) → filter (λ l, l.1 = id) links = [].
Proof.
  intros Hnone. induction links as [|[p u] links' IH]; [done|].
  rewrite filter_cons_False.
  - apply IH. intros r Hin. apply (Hnone r). by right.
  - simpl. intros ->. apply (Hnone u). by left.
Qed.

Lemma links_of_inserted (id : string) (revs : list string) :
  (filter (λ l, l.1 = id) ((λ r, (id, r)) <$> revs)).*2 = revs.
Proof.
  induction revs as [|r revs' IH]; [done|].
  rewrite fmap_cons, filter_cons_True by done. rewrite fmap_cons. simpl. by f_equal.
Qed.

(** Without a store failure CreatePR succeeds for a fresh id and an
    existing author whose id has no quote, however few candidates there
    are, and the links stored for the pull request are the reviewers
    returned. *)
Lemma CreatePR_calm (id name author : string) (urow : user_row) (w : World) :
  faults w = [] →
  integrity (db w) →
  pull_requests (db w) !! id = None →
  users (db w) !! author = Some urow →
  quote_free author →
  ∃ pr w', service.CreatePR id name author w = (Ok pr, w')
           ∧ select_reviewers id (db w') = AssignedReviewers pr.
Proof.
  intros Hq (_ & _ & Hfk & _) Hfresh Hauthor Hplain.
  unfold service.CreatePR, repo.PRExists, bind.
  rewrite query_calm by done. unfold select_pr_exists.
  rewrite bool_decide_eq_false_2 by (rewrite Hfresh; by intros [? ?]).
  unfold map_err, repo.GetUserByID, bind. rewrite query_calm by done.
  unfold select_user. rewrite Hauthor. simpl.
  unfold repo.GetRandomActiveReviewersFromTeamExcluding, bind. simpl.
  rewrite roundtrip_calm by done. unfold repo.select_candidates.
  rewrite read_exclusion_clause by (done || by apply Forall_singleton). simpl.
  set (picked := take 2 (shuffle (rng w) (eligible_users (team_name urow) [author] (db w)))).
  match goal with |- context [repo.CreatePullRequest ?p ?w0] =>
    set (pr := p); set (w3 := w0) end.
  assert (Hpicked : ∀ r, r ∈ picked → candidate (team_name urow) [author] (db w) r).
  { intros r Hin%(subseteq_take 2). rewrite shuffle_Permutation in Hin.
    by apply elem_of_eligible_users. }
  assert (Hnd : NoDup picked).
  { eapply sublist_NoDup; [|apply sublist_take].
    rewrite shuffle_Permutation. apply NoDup_eligible_users. }
  assert (Hnone : ∀ r, (id, r) ∉ pull_request_reviewers (db w)).
  { intros r Hin. apply (proj1 (Forall_forall _ _) Hfk) in Hin as [[x Hx] _].
    simpl in Hx. by rewrite Hfresh in Hx. }
  set (d1 := set_pull_requests
               (insert id {| pull_request_name := name; author_id := author;
                             status := PRStatusOpen; created_at := hd 0%Z (clock w);
                             merged_at := None |}) (db w)).
  destruct (insert_reviewers_calm id picked (set_db d1 w3)) as (w' & Hrest & Hq' & Hlinks).
  { exact Hq. }
  { simpl. rewrite lookup_insert_eq. by eexists. }
  { apply Forall_forall. intros r (row & Hrow & _)%Hpicked. simpl. by eexists. }
  { exact Hnd. }
  { intros r _. simpl. apply Hnone. }
  exists pr, w'. split.
  - assert (Hcreate : repo.CreatePullRequest pr w3 = (Ok tt, w')); [|by rewrite Hcreate].
    unfold repo.CreatePullRequest. apply in_tx_calm; [exact Hq| |exact Hq'].
    unfold bind. rewrite (exec_calm _ _ d1); [exact Hrest | exact Hq |].
    unfold insert_pull_request. simpl.
    rewrite bool_decide_eq_false_2 by (rewrite Hfresh; by intros [? ?]).
    rewrite bool_decide_eq_true_2 by (rewrite Hauthor; by eexists). done.
  - unfold select_reviewers. rewrite Hlinks. simpl. rewrite filter_app, fmap_app.
    rewrite links_of_fresh by done. by rewrite links_of_inserted.
Qed.

(** ** ReassignReviewer with ids free of quotes *)

(** The new reviewer ReassignReviewer returns, when the ids of the
    departing reviewer, of the author and of the current reviewers have no
    quote: an active user of the departing reviewer's team who is neither
    the departing reviewer, nor the author, nor a current reviewer; the
    pull request returned has the departing reviewer replaced by it. *)
Lemma ReassignReviewer_plain_ids (prID old newReviewer : string) (pr : PullRequest)
    (r : pr_row) (w w' : World) :
  service.ReassignReviewer prID old w = (Ok (pr, newReviewer), w') →
  pull_requests (db w) !! prID = Some r →
  quote_free old →
  quote_free (author_id r) →
  Forall (λ e, quote_free e) (select_reviewers prID (db w)) →
  status r = PRStatusOpen
  ∧ old ∈ select_reviewers prID (db w)
  ∧ newReviewer ≠ old
  ∧ newReviewer ≠ author_id r
  ∧ (newReviewer ∉ select_reviewers prID (db w))
  ∧ AssignedReviewers pr = service.replace_reviewer old newReviewer (select_reviewers prID (db w))
  ∧ ∃ orow nrow, users (db w) !! old = Some orow
                 ∧ users (db w) !! newReviewer = Some nrow
                 ∧ team_name nrow = team_name orow ∧ is_active nrow = true.
Proof.
  intros Hrun Hr Hold Hauthor Hrevs.
  apply bind_ok in Hrun as (pr0 & w1 & Hfetch%map_err_ok & Hrun).
  apply GetPullRequestWithReviewers_ok in Hfetch as (Hdb1 & r' & Hr' & ->).
  rewrite Hr in Hr'. injection Hr' as <-. simpl in Hrun.
  case_bool_decide as Hst; [done|].
  split; [by destruct (status r)|].
  match type of Hrun with (if negb ?b then _ else _) _ = _ => destruct b eqn:Hassigned end;
    [|done]. simpl in Hrun.
  assert (Hin : old ∈ select_reviewers prID (db w)).
  { revert Hassigned. generalize (select_reviewers prID (db w)). intros l.
    induction l as [|x l IH] using rev_ind; [done|].
    rewrite foldl_snoc. case_bool_decide as Hx.
    - intros _. apply elem_of_app. right. rewrite Hx. by left.
    - intros H. apply elem_of_app. left. by apply IH. }
  split; [done|].
  apply bind_ok in Hrun as (oldUser & w2 & Huser%map_err_ok & Hrun).
  apply GetUserByID_ok in Huser as (Hdb2 & orow & Horow & Hteam).
  apply bind_ok in Hrun as (picked & w3 & Hpick & Hrun).
  apply GetRandom_ok in Hpick as (Hdb3 & _ & _ & Hcand & _);
    [|done|by repeat apply Forall_cons_2].
  destruct picked as [|new rest]; [done|].
  apply bind_ok in Hrun as (u & w4 & _ & Hret). injection Hret as <- <- _. simpl.
  destruct (Hcand new) as (nrow & Hnrow & Ht & Ha & Hx); [by left|].
  rewrite !not_elem_of_cons in Hx. destruct Hx as (Hne1 & Hne2 & Hne3).
  repeat split; try done.
  exists orow, nrow. rewrite Hdb1 in Horow. rewrite Hdb2, Hdb1 in Hnrow.
  repeat split; try done. by rewrite <- Hteam.
Qed.

(** * Further properties of the service *)

(** ** Teams and users *)

Lemma set_db_same (w : World) : set_db (db w) w = w.
Proof. by destruct w. Qed.

Lemma upserts_calm (team : string) (l : list TeamMember) (w : World) :
  faults w = [] →
  team ∈ teams (db w) →
  for_each l (λ m, exec (upsert_user (Member_UserID m) (Member_Username m) team
                                     (Member_IsActive m))) w
  = (Ok tt, set_db (foldl (add_member team) (db w) l) w).
Proof.
  revert w. induction l as [|m l' IH]; intros w Hq Hteam; simpl.
  - by rewrite set_db_same.
  - unfold bind. rewrite (exec_calm _ _ (add_member team (db w) m)); [|done|].
    + by rewrite IH.
    + unfold upsert_user. by rewrite bool_decide_eq_true_2.
Qed.

(** X1. Without a store failure CreateTeam fails with TeamExists exactly
    when a team of that name is stored, whatever the member list, and then
    leaves the world as it was.  Otherwise it succeeds for every member
    list, the empty one and one with repeated ids included: it returns the
    team it was given, inserts the team row and upserts the members in the
    order of the list. *)
Theorem CreateTeam_outcome (t : Team) (w : World) :
  faults w = [] →
  (TeamName t ∈ teams (db w) → service.CreateTeam t w = (Err ErrTeamExists, w))
  ∧ (TeamName t ∉ teams (db w) →
     service.CreateTeam t w
     = (Ok t, set_db (foldl (add_member (TeamName t))
                            (set_teams (λ ts, {[TeamName t]} ∪ ts) (db w))
                            (Members t)) w)).
Proof.
  intros Hq. split; intros Hin.
  - unfold service.CreateTeam, bind, map_err, repo.CreateTeamWithMembers, in_tx.
    rewrite roundtrip_calm by done. unfold bind. rewrite query_calm by done.
    unfold select_team_exists. rewrite bool_decide_eq_true_2 by done. simpl.
    by rewrite set_db_same.
  - unfold service.CreateTeam, bind, map_err, repo.CreateTeamWithMembers.
    set (d1 := set_teams (λ ts, {[TeamName t]} ∪ ts) (db w)).
    rewrite (in_tx_calm _ w (set_db (foldl (add_member (TeamName t)) d1 (Members t)) w) tt);
      [done|done| |done].
    unfold bind. rewrite query_calm by done.
    unfold select_team_exists. rewrite bool_decide_eq_false_2 by done.
    rewrite (exec_calm _ _ d1); [|done|].
    + rewrite upserts_calm; [done|done|]. simpl.
      apply elem_of_union. left. by apply elem_of_singleton.
    + unfold insert_team. by rewrite bool_decide_eq_false_2.
Qed.

(** The README's team once more, and a team without members. *)
Lemma CreateTeam_outcome_witness :
  service.CreateTeam backend w_backend = (Err ErrTeamExists, w_backend)
  ∧ (service.CreateTeam empty_team w_backend).1 = Ok empty_team.
Proof.
  destruct (CreateTeam_outcome backend w_backend) as [Hdup _]; [reflexivity|].
  destruct (CreateTeam_outcome empty_team w_backend) as [_ Hnew]; [reflexivity|].
  split.
  - apply Hdup. by_evaluation.
  - rewrite Hnew; [done|]. by_evaluation.
Defined.

(** X2. Without a store failure GetTeam fails with NotFound exactly when
    no team of that name is stored, and leaves the world as it was.  For a
    stored team it returns the name and, once each, exactly the users
    whose team_name is that name, with their username and is_active; a
    team without users is found, with no members. *)
Theorem GetTeam_outcome (name : string) (w : World) :
  faults w = [] →
  (name ∉ teams (db w) → service.GetTeam name w = (Err ErrNotFound, w))
  ∧ (name ∈ teams (db w) →
     ∃ got, service.GetTeam name w = (Ok got, w)
            ∧ TeamName got = name
            ∧ NoDup (Member_UserID <$> Members got)
            ∧ (∀ m, m ∈ Members got ↔
                    users (db w) !! Member_UserID m = Some (row_of name m))
            ∧ ((∀ uid row, users (db w) !! uid = Some row → team_name row ≠ name) →
               Members got = [])).
Proof.
  intros Hq. split; intros Hin.
  - unfold service.GetTeam, map_err, repo.GetTeam, bind.
    rewrite query_calm by done. unfold select_team_join.
    by rewrite bool_decide_eq_false_2.
  - eexists. split; [by apply GetTeam_calm|]. simpl. split; [done|].
    split; [apply NoDup_users_of_team|].
    assert (Hm : ∀ m, m ∈ member_of <$> users_of_team name (db w) ↔
                      users (db w) !! Member_UserID m = Some (row_of name m)).
    { intros m. rewrite list_elem_of_fmap. split.
      - intros ([uid row] & -> & [Hrow <-]%elem_of_users_of_team). simpl in *.
        rewrite Hrow. by destruct row.
      - intros Hrow. exists (Member_UserID m, row_of name m).
        split; [by destruct m|]. by apply elem_of_users_of_team. }
    split; [exact Hm|]. intros Hnone.
    destruct (member_of <$> users_of_team name (db w)) as [|m l] eqn:E; [done|].
    exfalso. apply (Hnone (Member_UserID m) (row_of name m)); [|done].
    apply Hm. by left.
Qed.

(** A team that was never created, and the team without members. *)
Lemma GetTeam_outcome_witness :
  service.GetTeam "frontend" w_idle = (Err ErrNotFound, w_idle)
  ∧ (service.GetTeam "idle" w_idle).1 = Ok empty_team.
Proof.
  destruct (GetTeam_outcome "frontend" w_idle) as [Hmissing _]; [reflexivity|].
  destruct (GetTeam_outcome "idle" w_idle) as [_ Hfound]; [reflexivity|].
  split; [apply Hmissing; by_evaluation|].
  destruct Hfound as (got & Hrun & Hname & _ & _ & Hempty); [by_evaluation|].
  rewrite Hrun. simpl. destruct got as [tn ms]. simpl in *. subst tn.
  rewrite Hempty; [done|]. intros uid row Hrow.
  assert (HF : map_Forall (λ _ r, team_name r ≠ "idle") (users (db w_idle)))
    by by_evaluation.
  by apply (HF uid row).
Defined.

(** The row [UPDATE users SET is_active] leaves. *)
Lemma update_user_is_active_row (uid : string) (active : bool) (d : DB) (row : user_row) :
  users d !! uid = Some row →
  update_user_is_active uid active d
  = (set_users (insert uid {| username := username row; team_name := team_name row;
                              is_active := active |}) d,
     Some {| User_UserID := uid; User_Username := username row;
             User_TeamName := team_name row; User_IsActive := active |}).
Proof.
  intros Hrow. unfold update_user_is_active, select_user. simpl.
  rewrite lookup_alter_eq, Hrow. simpl. f_equal. unfold set_users. f_equal.
  apply map_eq. intros i. rewrite lookup_alter, lookup_insert.
  case_decide; [subst; by rewrite Hrow | done].
Qed.

Lemma update_user_is_active_missing (uid : string) (active : bool) (d : DB) :
  users d !! uid = None → update_user_is_active uid active d = (d, None).
Proof.
  intros Hrow. unfold update_user_is_active, select_user. simpl.
  rewrite lookup_alter_eq, Hrow. simpl. f_equal. destruct d as [ts us ps ls].
  unfold set_users. simpl in *. f_equal. apply map_eq. intros i. rewrite lookup_alter.
  case_decide; [subst; by rewrite Hrow | done].
Qed.

(** X3. Without a store failure SetUserIsActive fails with NotFound for
    an id without a user record and leaves the world as it was.  For a
    stored user it returns the user with the requested flag and the stored
    username and team, and changes nothing in the store but that flag:
    the other users, the teams, the pull requests and the reviewer links
    are as before.  Asked twice in succession it returns the same user and
    changes nothing the second time. *)
Theorem SetUserIsActive_outcome (uid : string) (active : bool) (w : World) :
  faults w = [] →
  (users (db w) !! uid = None →
   service.SetUserIsActive uid active w = (Err ErrNotFound, w))
  ∧ (∀ row, users (db w) !! uid = Some row →
     let u := {| User_UserID := uid; User_Username := username row;
                 User_TeamName := team_name row; User_IsActive := active |} in
     let w' := set_db (set_users (insert uid {| username := username row;
                                                team_name := team_name row;
                                                is_active := active |}) (db w)) w in
     service.SetUserIsActive uid active w = (Ok u, w')
     ∧ service.SetUserIsActive uid active w' = (Ok u, w')).
Proof.
  intros Hq. split.
  - intros Hrow. unfold service.SetUserIsActive, map_err, repo.UpdateUserIsActive, bind.
    rewrite roundtrip_calm by done. rewrite update_user_is_active_missing by done.
    simpl. by rewrite set_db_same.
  - intros row Hrow u w'.
    assert (Hfirst : service.SetUserIsActive uid active w = (Ok u, w')).
    { unfold service.SetUserIsActive, map_err, repo.UpdateUserIsActive, bind.
      rewrite roundtrip_calm by done.
      by rewrite (update_user_is_active_row uid active (db w) row). }
    split; [exact Hfirst|].
    unfold service.SetUserIsActive, map_err, repo.UpdateUserIsActive, bind.
    rewrite roundtrip_calm by done.
    rewrite (update_user_is_active_row uid active (db w')
               {| username := username row; team_name := team_name row;
                  is_active := active |}) by (simpl; apply lookup_insert_eq).
    simpl. unfold w', set_db, set_users. simpl. by rewrite insert_insert_eq.
Qed.

(** u2 deactivated on the README's team, and a user that does not exist. *)
Lemma SetUserIsActive_outcome_witness :
  service.SetUserIsActive "nobody" false w_backend = (Err ErrNotFound, w_backend)
  ∧ (service.SetUserIsActive "u2" false w_backend).1
    = Ok {| User_UserID := "u2"; User_Username := "Bob";
            User_TeamName := "backend"; User_IsActive := false |}.
Proof.
  destruct (SetUserIsActive_outcome "nobody" false w_backend) as [Hmissing _]; [reflexivity|].
  destruct (SetUserIsActive_outcome "u2" false w_backend) as [_ Hfound]; [reflexivity|].
  split; [apply Hmissing; vm_compute; reflexivity|].
  destruct (Hfound {| username := "Bob"; team_name := "backend"; is_active := true |})
    as [Hrun _]; [vm_compute; reflexivity|].
  by rewrite Hrun.
Defined.

(** ** What the writers leave in the store *)

Lemma insert_reviewers_ok (id : string) (revs : list string) (w w' : World) :
  for_each revs (λ r, exec (insert_reviewer id r)) w = (Ok tt, w') →
  db w' = set_reviewers (λ l, (l ++ ((λ r, (id, r)) <$> revs))%list) (db w).
Proof.
  revert w. induction revs as [|r revs' IH]; intros w; simpl.
  - intros [= <-]. destruct (db w) as [ts us ps ls]. unfold set_reviewers. simpl.
    by rewrite app_nil_r.
  - intros (u & w1 & He%exec_ok & Hrest)%bind_ok. rewrite (IH _ Hrest).
    unfold insert_reviewer in He. case_bool_decide; [done|]. case_bool_decide; [|done].
    injection He as <-. unfold set_reviewers. simpl. by rewrite <- app_assoc.
Qed.

Lemma CreatePR_ok (id name author : string) (pr : PullRequest) (w w' : World) :
  service.CreatePR id name author w = (Ok pr, w') →
  ∃ now,
    pr = {| PR_ID := id; PR_Name := name; PR_AuthorID := author;
            PR_Status := PRStatusOpen; AssignedReviewers := AssignedReviewers pr;
            CreatedAt := Some now; MergedAt := None |}
    ∧ pull_requests (db w) !! id = None
    ∧ is_Some (users (db w) !! author)
    ∧ db w' = with_pull_request id name author now (AssignedReviewers pr) (db w).
Proof.
  intros Hrun.
  apply bind_ok in Hrun as (b & w1 & [-> Hdb1]%query_ok & Hrun).
  unfold select_pr_exists in Hrun. case_bool_decide as Hfresh; [done|].
  apply bind_ok in Hrun as (user & w2 & Huser%map_err_ok & Hrun).
  apply GetUserByID_ok in Huser as (Hdb2 & urow & Hurow & Hteam).
  apply bind_ok in Hrun as (picked & w3 & Hpick & Hrun).
  pose proof (leaves_db_GetRandom (User_TeamName user) 2 [author] w2) as Hdb3.
  rewrite Hpick in Hdb3. simpl in Hdb3.
  apply bind_ok in Hrun as (now & w4 & Hnow & Hrun).
  assert (Hdb4 : db w4 = db w3) by (by injection Hnow as _ <-).
  apply bind_ok in Hrun as (u & w5 & Hcreate & Hret). injection Hret as <- <-.
  exists now. split; [done|]. split; [by apply eq_None_not_Some|].
  split; [rewrite <- Hdb1; by eexists|].
  apply in_tx_ok in Hcreate as (w6 & w7 & Hdb6 & Hbody & ->).
  apply bind_ok in Hbody as (u' & w8 & Hins%exec_ok & Hlinks). simpl in *.
  destruct u. rewrite (insert_reviewers_ok _ _ _ _ Hlinks).
  unfold insert_pull_request in Hins.
  case_bool_decide; [done|]. case_bool_decide; [|done]. injection Hins as <-.
  unfold with_pull_request. by rewrite Hdb6, Hdb4, Hdb3, Hdb2, Hdb1.
Qed.

Lemma select_reviewers_with_pull_request (id name author : string) (created : Time)
    (reviewers : list string) (d : DB) (q : string) :
  select_reviewers q (with_pull_request id name author created reviewers d)
  = (select_reviewers q d ++ if bool_decide (q = id) then reviewers else [])%list.
Proof.
  unfold select_reviewers, with_pull_request. simpl. rewrite filter_app, fmap_app. f_equal.
  case_bool_decide as Hq.
  - subst. apply links_of_inserted.
  - induction reviewers as [|r l IH]; [done|].
    rewrite fmap_cons, filter_cons_False by (simpl; congruence). done.
Qed.

Lemma select_reviewers_with_reviewer_set (id : string) (reviewers : list string)
    (d : DB) (q : string) :
  select_reviewers q (with_reviewer_set id reviewers d)
  = if bool_decide (q = id) then reviewers else select_reviewers q d.
Proof.
  unfold select_reviewers, with_reviewer_set. simpl. rewrite filter_app, fmap_app.
  case_bool_decide as Hq.
  - subst. rewrite links_of_inserted.
    rewrite (links_of_fresh id); [done|].
    intros r. rewrite list_elem_of_filter. simpl. tauto.
  - rewrite list_filter_filter.
    rewrite (list_filter_iff (λ x, x.1 = q ∧ x.1 ≠ id) (λ x, x.1 = q))
      by (intros [p u]; simpl; split; [tauto | intros ->; done]).
    replace (filter (λ l, l.1 = q) ((λ r, (id, r)) <$> reviewers)) with (@nil (string * string));
      [by rewrite app_nil_r|].
    induction reviewers as [|r l IH]; [done|].
    rewrite fmap_cons, filter_cons_False by (simpl; congruence). done.
Qed.

Lemma assigned_loop (old : string) (reviewers : list string) (a : bool) :
  foldl (λ (a : bool) r, if bool_decide (r = old) then true else a) a reviewers
  = a || bool_decide (old ∈ reviewers).
Proof.
  revert a. induction reviewers as [|r l IH]; intros a.
  - rewrite (bool_decide_eq_false_2 (old ∈ [])) by apply not_elem_of_nil. by destruct a.
  - simpl. rewrite IH. destruct (decide (r = old)) as [->|Hne].
    + rewrite (bool_decide_eq_true_2 (old = old)) by done.
      rewrite (bool_decide_eq_true_2 (old ∈ old :: l)) by (by left). by destruct a.
    + rewrite (bool_decide_eq_false_2 (r = old)) by done. f_equal.
      apply bool_decide_ext. rewrite elem_of_cons. split; [tauto | intros [->|?]; done].
Qed.

Lemma ReassignReviewer_ok (prID old newReviewer : string) (pr : PullRequest)
    (w w' : World) :
  service.ReassignReviewer prID old w = (Ok (pr, newReviewer), w') →
  ∃ r, pull_requests (db w) !! prID = Some r
       ∧ status r = PRStatusOpen
       ∧ old ∈ select_reviewers prID (db w)
       ∧ pr = service.with_reviewers (pull_request_of prID r (db w))
                (service.replace_reviewer old newReviewer (select_reviewers prID (db w)))
       ∧ db w' = with_reviewer_set prID (AssignedReviewers pr) (db w).
Proof.
  intros Hrun.
  apply bind_ok in Hrun as (pr0 & w1 & Hfetch%map_err_ok & Hrun).
  apply GetPullRequestWithReviewers_ok in Hfetch as (Hdb1 & r & Hr & ->).
  exists r. split; [done|]. simpl in Hrun.
  case_bool_decide as Hst; [done|]. split; [by destruct (status r)|].
  rewrite assigned_loop in Hrun. simpl in Hrun.
  case_bool_decide as Hin; [|done]. split; [done|]. simpl in Hrun.
  apply bind_ok in Hrun as (oldUser & w2 & Huser%map_err_ok & Hrun).
  apply GetUserByID_ok in Huser as (Hdb2 & _).
  apply bind_ok in Hrun as (picked & w3 & Hpick & Hrun).
  match type of Hpick with ?m w2 = _ => pose proof (leaves_db_GetRandom
    (User_TeamName oldUser) 1 (old :: author_id r :: select_reviewers prID (db w)) w2) as Hdb3 end.
  simpl in Hpick. rewrite Hpick in Hdb3. simpl in Hdb3.
  destruct picked as [|new rest]; [done|].
  apply bind_ok in Hrun as (u & w4 & Hset & Hret). injection Hret as <- <- <-.
  split; [done|]. simpl.
  apply in_tx_ok in Hset as (w5 & w6 & Hdb5 & Hbody & ->).
  apply bind_ok in Hbody as (u' & w7 & Hdel%exec_ok & Hlinks). simpl in *.
  destruct u. rewrite (insert_reviewers_ok _ _ _ _ Hlinks). injection Hdel as <-.
  unfold with_reviewer_set, delete_reviewers, set_reviewers. simpl.
  by rewrite Hdb5, Hdb3, Hdb2, Hdb1.
Qed.

(** ** CreatePR: refusals and effect *)

(** X4. Without a store failure CreatePR fails with PRExists when the id
    is stored, whoever the author is, existing or not; for a fresh id it
    fails with NotFound when the author has no user record.  In both cases
    the world is left as it was: no candidate query is made and the clock
    is not read. *)
Theorem CreatePR_refusals (id name author : string) (w : World) :
  faults w = [] →
  (is_Some (pull_requests (db w) !! id) →
   service.CreatePR id name author w = (Err ErrPRExists, w))
  ∧ (pull_requests (db w) !! id = None → users (db w) !! author = None →
     service.CreatePR id name author w = (Err ErrNotFound, w)).
Proof.
  intros Hq. split.
  - intros Hin. unfold service.CreatePR, repo.PRExists, bind.
    rewrite query_calm by done. unfold select_pr_exists.
    by rewrite bool_decide_eq_true_2.
  - intros Hfresh Hauthor. unfold service.CreatePR, repo.PRExists, bind.
    rewrite query_calm by done. unfold select_pr_exists.
    rewrite bool_decide_eq_false_2 by (rewrite Hfresh; by intros [? ?]).
    unfold map_err, repo.GetUserByID, bind. rewrite query_calm by done.
    unfold select_user. by rewrite Hauthor.
Qed.

(** The id of pr-1 again with an unknown author, and a fresh id with an
    unknown author. *)
Lemma CreatePR_refusals_witness :
  service.CreatePR "pr-1" "Again" "nobody" w_pr1 = (Err ErrPRExists, w_pr1)
  ∧ service.CreatePR "pr-2" "Fix" "nobody" w_pr1 = (Err ErrNotFound, w_pr1).
Proof.
  destruct (CreatePR_refusals "pr-1" "Again" "nobody" w_pr1) as [Hdup _]; [reflexivity|].
  destruct (CreatePR_refusals "pr-2" "Fix" "nobody" w_pr1) as [_ Hmiss]; [reflexivity|].
  split; [apply Hdup; by_evaluation|].
  apply Hmiss; vm_compute; reflexivity.
Defined.



(** X6. After a CreatePR that succeeded, and without a store failure: a
    second CreatePR with the same id, whatever its name and author, fails
    with PRExists and leaves the world as it was; and GetReviews of every
    reviewer the first call returned lists the pull request, in its
    abbreviated form with status OPEN. *)
Theorem CreatePR_then (id name author : string) (pr : PullRequest) (w w' : World) :
  service.CreatePR id name author w = (Ok pr, w') →
  faults w' = [] →
  (∀ name2 author2, service.CreatePR id name2 author2 w' = (Err ErrPRExists, w'))
  ∧ (∀ r, r ∈ AssignedReviewers pr →
          ∃ l, service.GetReviews r w' = (Ok l, w')
               ∧ {| Short_ID := id; Short_Name := name; Short_AuthorID := author;
                    Short_Status := PRStatusOpen |} ∈ l).
Proof.
  intros (now & Hpr & Hfresh & Hauthor & Hdb)%CreatePR_ok Hq. split.
  - intros name2 author2. unfold service.CreatePR, repo.PRExists, bind.
    rewrite query_calm by done. unfold select_pr_exists.
    rewrite bool_decide_eq_true_2; [done|]. rewrite Hdb. simpl.
    rewrite lookup_insert_eq. by eexists.
  - intros r Hr. eexists. split.
    + unfold service.GetReviews, repo.GetPullRequestsByReviewer. by rewrite query_calm.
    + unfold select_prs_by_reviewer. apply list_elem_of_omap. exists (id, r). split.
      * rewrite Hdb. simpl. apply elem_of_app. right.
        apply list_elem_of_fmap. by exists r.
      * simpl. rewrite bool_decide_eq_true_2 by done. rewrite Hdb. simpl.
        by rewrite lookup_insert_eq.
Qed.

(** pr-1 created twice, and the reviews of u2. *)
Lemma CreatePR_then_witness :
  service.CreatePR "pr-1" "Again" "u3" w_pr1 = (Err ErrPRExists, w_pr1)
  ∧ ∃ l, service.GetReviews "u2" w_pr1 = (Ok l, w_pr1)
         ∧ {| Short_ID := "pr-1"; Short_Name := "Add feature"; Short_AuthorID := "u1";
              Short_Status := PRStatusOpen |} ∈ l.
Proof.
  assert (Hrun : service.CreatePR "pr-1" "Add feature" "u1" w_backend
                 = (Ok {| PR_ID := "pr-1"; PR_Name := "Add feature"; PR_AuthorID := "u1";
                          PR_Status := PRStatusOpen; AssignedReviewers := ["u3"; "u2"];
                          CreatedAt := Some 100%Z; MergedAt := None |}, w_pr1))
    by (vm_compute; reflexivity).
  destruct (CreatePR_then _ _ _ _ _ _ Hrun) as [Hdup Hrev]; [reflexivity|].
  split; [apply Hdup|]. apply Hrev. simpl. by_evaluation.
Defined.

(** The run of CreatePR without a store failure, for a fresh id and a
    stored author whose id has no quote: the rows of the candidate query
    are the reviewers, the reading of the clock is createdAt. *)
Lemma CreatePR_calm_picked (id name author : string) (urow : user_row) (w : World) :
  faults w = [] →
  integrity (db w) →
  pull_requests (db w) !! id = None →
  users (db w) !! author = Some urow →
  quote_free author →
  ∃ w', service.CreatePR id name author w
        = (Ok {| PR_ID := id; PR_Name := name; PR_AuthorID := author;
                 PR_Status := PRStatusOpen;
                 AssignedReviewers :=
                   take 2 (shuffle (rng w)
                                   (eligible_users (team_name urow) [author] (db w)));
                 CreatedAt := Some (hd 0%Z (clock w)); MergedAt := None |}, w')
        ∧ select_reviewers id (db w')
          = take 2 (shuffle (rng w) (eligible_users (team_name urow) [author] (db w))).
Proof.
  intros Hq (_ & _ & Hfk & _) Hfresh Hauthor Hplain.
  unfold service.CreatePR, repo.PRExists, bind.
  rewrite query_calm by done. unfold select_pr_exists.
  rewrite bool_decide_eq_false_2 by (rewrite Hfresh; by intros [? ?]).
  unfold map_err, repo.GetUserByID, bind. rewrite query_calm by done.
  unfold select_user. rewrite Hauthor. simpl.
  unfold repo.GetRandomActiveReviewersFromTeamExcluding, bind. simpl.
  rewrite roundtrip_calm by done. unfold repo.select_candidates.
  rewrite read_exclusion_clause by (done || by apply Forall_singleton). simpl.
  set (picked := take 2 (shuffle (rng w) (eligible_users (team_name urow) [author] (db w)))).
  match goal with |- context [repo.CreatePullRequest ?p ?w0] =>
    set (pr := p); set (w3 := w0) end.
  assert (Hpicked : ∀ r, r ∈ picked → candidate (team_name urow) [author] (db w) r).
  { intros r Hin%(subseteq_take 2). rewrite shuffle_Permutation in Hin.
    by apply elem_of_eligible_users. }
  assert (Hnd : NoDup picked).
  { eapply sublist_NoDup; [|apply sublist_take].
    rewrite shuffle_Permutation. apply NoDup_eligible_users. }
  assert (Hnone : ∀ r, (id, r) ∉ pull_request_reviewers (db w)).
  { intros r Hin. apply (proj1 (Forall_forall _ _) Hfk) in Hin as [[x Hx] _].
    simpl in Hx. by rewrite Hfresh in Hx. }
  set (d1 := set_pull_requests
               (insert id {| pull_request_name := name; author_id := author;
                             status := PRStatusOpen; created_at := hd 0%Z (clock w);
                             merged_at := None |}) (db w)).
  destruct (insert_reviewers_calm id picked (set_db d1 w3)) as (w' & Hrest & Hq' & Hlinks).
  { exact Hq. }
  { simpl. rewrite lookup_insert_eq. by eexists. }
  { apply Forall_forall. intros r (row & Hrow & _)%Hpicked. simpl. by eexists. }
  { exact Hnd. }
  { intros r _. simpl. apply Hnone. }
  exists w'. split.
  - assert (Hcreate : repo.CreatePullRequest pr w3 = (Ok tt, w')); [|by rewrite Hcreate].
    unfold repo.CreatePullRequest. apply in_tx_calm; [exact Hq| |exact Hq'].
    unfold bind. rewrite (exec_calm _ _ d1); [exact Hrest | exact Hq |].
    unfold insert_pull_request. simpl.
    rewrite bool_decide_eq_false_2 by (rewrite Hfresh; by intros [? ?]).
    rewrite bool_decide_eq_true_2 by (rewrite Hauthor; by eexists). done.
  - unfold select_reviewers. rewrite Hlinks. simpl. rewrite filter_app, fmap_app.
    rewrite links_of_fresh by done. by rewrite links_of_inserted.
Qed.

(** X9. Without a store failure CreatePR succeeds for a fresh id and a
    stored author whose id has no quote, and assigns as many reviewers as
    there are, up to two: the reviewers are distinct active users of the
    author's team other than the author, two of them when at least two
    such users exist, all of them otherwise, none when the author is alone;
    the links stored for the pull request are the reviewers returned. *)
Theorem CreatePR_assigns_available (id name author : string) (urow : user_row) (w : World) :
  faults w = [] →
  integrity (db w) →
  pull_requests (db w) !! id = None →
  users (db w) !! author = Some urow →
  quote_free author →
  ∃ pr w', service.CreatePR id name author w = (Ok pr, w')
    ∧ NoDup (AssignedReviewers pr)
    ∧ (∀ r, r ∈ AssignedReviewers pr → candidate (team_name urow) [author] (db w) r)
    ∧ (length (AssignedReviewers pr) ≤ 2)%nat
    ∧ (∀ l, NoDup l →
            (∀ u, u ∈ l → candidate (team_name urow) [author] (db w) u) →
            (length l `min` 2 ≤ length (AssignedReviewers pr))%nat)
    ∧ select_reviewers id (db w') = AssignedReviewers pr.
Proof.
  intros Hq Hint Hfresh Hauthor Hplain.
  destruct (CreatePR_calm_picked id name author urow w) as (w' & Hrun & Hlinks); try done.
  eexists _, w'. split; [exact Hrun|]. simpl.
  set (rows := eligible_users (team_name urow) [author] (db w)) in *.
  pose proof (shuffle_Permutation (rng w) rows) as Hperm.
  split; [|split; [|split; [|split]]].
  - eapply sublist_NoDup; [|apply sublist_take]. rewrite Hperm. apply NoDup_eligible_users.
  - intros r Hin%(subseteq_take 2). rewrite Hperm in Hin. by apply elem_of_eligible_users.
  - rewrite length_take. lia.
  - intros l Hnd Hl. rewrite length_take, (Permutation_length Hperm).
    assert (length l ≤ length rows)%nat; [|lia].
    apply submseteq_length, NoDup_submseteq; [done|].
    intros u Hu. by apply elem_of_eligible_users, Hl.
  - exact Hlinks.
Qed.

(** pr-1 by u1 on the README's team: u2 and u3 are there, two reviewers
    are assigned. *)
Lemma CreatePR_assigns_available_witness :
  ∃ pr w', service.CreatePR "pr-1" "Add feature" "u1" w_backend = (Ok pr, w')
           ∧ length (AssignedReviewers pr) = 2%nat.
Proof.
  destruct (CreatePR_assigns_available "pr-1" "Add feature" "u1"
              {| username := "Alice"; team_name := "backend"; is_active := true |} w_backend)
    as (pr & w' & Hrun & _ & _ & Hmax & Hmin & _).
  - reflexivity.
  - by_evaluation.
  - vm_compute. reflexivity.
  - vm_compute. reflexivity.
  - exact I.
  - exists pr, w'. split; [exact Hrun|].
    assert (Htwo : (length ["u2"; "u3"] `min` 2 ≤ length (AssignedReviewers pr))%nat).
    { apply Hmin; [by_evaluation|]. intros u Hu.
      apply elem_of_cons in Hu as [->|Hu];
        [|apply list_elem_of_singleton in Hu as ->].
      - exists {| username := "Bob"; team_name := "backend"; is_active := true |}.
        split; [vm_compute; reflexivity|]. do 2 (split; [reflexivity|]). by_evaluation.
      - exists {| username := "Eve"; team_name := "backend"; is_active := true |}.
        split; [vm_compute; reflexivity|]. do 2 (split; [reflexivity|]). by_evaluation. }
    simpl in Htwo. lia.
Defined.

(** ** ReassignReviewer: the whole decision *)

Lemma NoDup_select_reviewers (id : string) (d : DB) :
  NoDup (pull_request_reviewers d) → NoDup (select_reviewers id d).
Proof.
  intros Hpk. unfold select_reviewers. apply NoDup_fmap_2_strong; [|by apply NoDup_filter].
  intros [p1 u1] [p2 u2] [H1 _]%list_elem_of_filter [H2 _]%list_elem_of_filter Hu.
  simpl in *. congruence.
Qed.

Lemma elem_of_select_reviewers (id uid : string) (d : DB) :
  uid ∈ select_reviewers id d ↔ (id, uid) ∈ pull_request_reviewers d.
Proof.
  unfold select_reviewers. rewrite list_elem_of_fmap. split.
  - intros ([p u] & -> & [Hp Hin]%list_elem_of_filter). simpl in *. by subst.
  - intros Hin. exists (id, uid). split; [done|]. by apply list_elem_of_filter.
Qed.

Lemma elem_of_replace_reviewer (old newReviewer x : string) (l : list string) :
  x ∈ service.replace_reviewer old newReviewer l ↔
  (x = newReviewer ∧ old ∈ l) ∨ (x ≠ old ∧ x ∈ l).
Proof.
  unfold service.replace_reviewer. rewrite list_elem_of_fmap. split.
  - intros (y & -> & Hy). case_bool_decide; [subst; by left | by right].
  - intros [[-> Hin]|[Hne Hin]].
    + exists old. by rewrite bool_decide_eq_true_2.
    + exists x. by rewrite bool_decide_eq_false_2.
Qed.

Lemma NoDup_replace_reviewer (old newReviewer : string) (l : list string) :
  NoDup l → newReviewer ∉ l → NoDup (service.replace_reviewer old newReviewer l).
Proof.
  intros Hnd Hnew. unfold service.replace_reviewer.
  apply NoDup_fmap_2_strong; [|done].
  intros x y Hx Hy. repeat case_bool_decide; congruence.
Qed.

Lemma length_replace_reviewer (old newReviewer : string) (l : list string) :
  length (service.replace_reviewer old newReviewer l) = length l.
Proof. apply length_fmap. Qed.

(** Under the foreign keys, the ids pasted by ReassignReviewer are ids of
    stored users. *)
Lemma reviewers_are_users (id uid : string) (d : DB) :
  integrity d → uid ∈ select_reviewers id d → is_Some (users d !! uid).
Proof.
  intros (_ & _ & Hfk & _) Hin%elem_of_select_reviewers.
  by apply (proj1 (Forall_forall _ _) Hfk) in Hin as [_ ?].
Qed.

Lemma author_is_user (id : string) (r : pr_row) (d : DB) :
  integrity d → pull_requests d !! id = Some r → is_Some (users d !! author_id r).
Proof. intros (_ & Ha & _) Hr. by apply (Ha id r). Qed.

Lemma plain_user (uid : string) (d : DB) :
  plain_users d → is_Some (users d !! uid) → quote_free uid.
Proof. intros Hp [row Hrow]. by apply (Hp uid row). Qed.

(** X7. The whole decision of ReassignReviewer, without a store failure,
    on a store that satisfies the constraints of the schema and whose user
    ids have no quote.  A missing pull request gives NotFound, a MERGED
    one PRMerged, a reviewer that is not assigned NotAssigned, each with
    the world left as it was.  Otherwise the departing reviewer has a user
    record; if no active user of that reviewer's team is outside the
    departing reviewer, the author and the current reviewers, the answer
    is NoCandidate and the store is as it was; if there is one, the call
    succeeds, the new reviewer is such a user, and the links of the pull
    request are rewritten with the departing reviewer replaced. *)
Theorem ReassignReviewer_outcome (prID old : string) (w : World) :
  faults w = [] →
  integrity (db w) →
  plain_users (db w) →
  match pull_requests (db w) !! prID with
  | None => service.ReassignReviewer prID old w = (Err ErrNotFound, w)
  | Some r =>
      if bool_decide (status r = PRStatusMerged)
      then service.ReassignReviewer prID old w = (Err ErrPRMerged, w)
      else if bool_decide (old ∈ select_reviewers prID (db w))
      then ∃ orow,
        users (db w) !! old = Some orow
        ∧ let eligible_now :=
            candidate (team_name orow)
                      (old :: author_id r :: select_reviewers prID (db w)) (db w) in
          ((∀ uid, ¬ eligible_now uid) →
           (service.ReassignReviewer prID old w).1 = Err ErrNoCandidate
           ∧ db (service.ReassignReviewer prID old w).2 = db w)
          ∧ ((∃ uid, eligible_now uid) →
             ∃ pr newReviewer w',
               service.ReassignReviewer prID old w = (Ok (pr, newReviewer), w')
               ∧ eligible_now newReviewer
               ∧ AssignedReviewers pr
                 = service.replace_reviewer old newReviewer (select_reviewers prID (db w))
               ∧ db w' = with_reviewer_set prID (AssignedReviewers pr) (db w))
      else service.ReassignReviewer prID old w = (Err ErrNotAssigned, w)
  end.
Proof.
  intros Hq Hint Hplain.
  destruct (pull_requests (db w) !! prID) as [r|] eqn:Hr.
  2:{ unfold service.ReassignReviewer, bind, map_err.
      by rewrite GetPullRequestWithReviewers_missing. }
  case_bool_decide as Hst.
  { unfold service.ReassignReviewer, bind, map_err.
    rewrite (GetPullRequestWithReviewers_calm prID w r) by done. simpl.
    by rewrite bool_decide_eq_true_2. }
  case_bool_decide as Hin.
  2:{ unfold service.ReassignReviewer, bind, map_err.
      rewrite (GetPullRequestWithReviewers_calm prID w r) by done. simpl.
      rewrite bool_decide_eq_false_2 by done. rewrite assigned_loop. simpl.
      by rewrite bool_decide_eq_false_2. }
  destruct (reviewers_are_users prID old (db w) Hint Hin) as [orow Horow].
  exists orow. split; [done|]. intros eligible_now.
  set (revs := select_reviewers prID (db w)) in *.
  set (exclude := old :: author_id r :: revs) in *.
  assert (Hex : Forall (λ e, quote_free e) exclude).
  { repeat apply Forall_cons_2.
    - apply (plain_user old (db w)); [done | by eexists].
    - apply (plain_user _ (db w)); [done | by eapply author_is_user].
    - apply Forall_forall. intros u Hu. apply (plain_user u (db w)); [done|].
      by eapply reviewers_are_users. }
  set (E := eligible_users (team_name orow) exclude (db w)).
  assert (Hperm : shuffle (rng w) E ≡ₚ E) by apply shuffle_Permutation.
  assert (Hrun : ∀ k : list string → M (PullRequest * string),
    (candidates <- repo.GetRandomActiveReviewersFromTeamExcluding (team_name orow) 1 exclude ;;
     k candidates) w
    = k (take 1 (shuffle (rng w) E))
        (set_rng (drop (length E) (rng w))
           (set_invoked ({| inv_team := team_name orow; inv_limit := 1;
                            inv_exclude := exclude;
                            inv_clause := exclusion_clause exclude |} :: invoked w) w))).
  { intros k. unfold repo.GetRandomActiveReviewersFromTeamExcluding, bind. simpl.
    rewrite roundtrip_calm by done. unfold repo.select_candidates.
    by rewrite read_exclusion_clause. }
  assert (Hstart : service.ReassignReviewer prID old w
    = (candidates <- repo.GetRandomActiveReviewersFromTeamExcluding (team_name orow) 1 exclude ;;
       match candidates with
       | [] => fail ErrNoCandidate
       | newReviewer :: _ =>
           let pr' := service.with_reviewers (pull_request_of prID r (db w))
                        (service.replace_reviewer old newReviewer revs) in
           _ <- repo.SetPRReviewers (PR_ID pr') (AssignedReviewers pr') ;;
           ret (pr', newReviewer)
       end) w).
  { unfold service.ReassignReviewer at 1. unfold bind at 1. unfold map_err at 1.
    rewrite (GetPullRequestWithReviewers_calm prID w r) by done. simpl.
    rewrite bool_decide_eq_false_2 by done. rewrite assigned_loop. simpl.
    rewrite bool_decide_eq_true_2 by done. simpl.
    unfold bind at 1. unfold map_err, repo.GetUserByID. unfold bind at 1.
    rewrite query_calm by done. unfold select_user. rewrite Horow. done. }
  rewrite Hstart, Hrun. clear Hstart Hrun.
  destruct (shuffle (rng w) E) as [|new rest] eqn:Hsh.
  - apply Permutation_nil_l in Hperm. split; [by intros _|].
    intros [uid Hc%elem_of_eligible_users]. fold exclude E in Hc.
    rewrite <- Hperm in Hc. by apply elem_of_nil in Hc.
  - assert (Hnew : eligible_now new).
    { apply elem_of_eligible_users. fold E. rewrite <- Hperm. by left. }
    split; [intros Hnone; by destruct (Hnone new)|]. intros _.
    change (take 1 (new :: rest)) with [new]. cbv beta iota zeta.
    set (w3 := set_rng _ _).
    set (revs' := service.replace_reviewer old new revs).
    destruct Hnew as (nrow & Hnrow & Hteam & Hact & Hx).
    unfold exclude in Hx. rewrite !not_elem_of_cons in Hx. destruct Hx as (Hne1 & Hne2 & Hne3).
    destruct (insert_reviewers_calm prID revs' (set_db (delete_reviewers prID (db w)) w3))
      as (w' & Hrest & Hq' & _).
    { exact Hq. }
    { simpl. rewrite Hr. by eexists. }
    { apply Forall_forall. intros u [[-> _]|[_ Hu]]%elem_of_replace_reviewer; simpl.
      - by eexists.
      - by eapply reviewers_are_users. }
    { apply NoDup_replace_reviewer; [|done].
      apply NoDup_select_reviewers. by destruct Hint as (_ & _ & _ & ?). }
    { intros u _. simpl. rewrite list_elem_of_filter. simpl. tauto. }
    assert (Hset : repo.SetPRReviewers prID revs' w3 = (Ok tt, w')).
    { unfold repo.SetPRReviewers. apply in_tx_calm; [exact Hq| |exact Hq'].
      unfold bind. by rewrite (exec_calm _ _ (delete_reviewers prID (db w))). }
    exists (service.with_reviewers (pull_request_of prID r (db w)) revs'), new, w'.
    split; [|split; [|split; [done|]]].
    + unfold bind. simpl. by rewrite Hset.
    + exists nrow. unfold exclude. rewrite !not_elem_of_cons. done.
    + simpl. by rewrite (insert_reviewers_ok _ _ _ _ Hrest).
Qed.

(** On the team of four: an unknown pull request, a user who is not a
    reviewer, and the replacement of u2. *)
Lemma ReassignReviewer_outcome_witness :
  service.ReassignReviewer "pr-9" "u2" w_platform_pr1 = (Err ErrNotFound, w_platform_pr1)
  ∧ service.ReassignReviewer "pr-1" "u4" w_platform_pr1 = (Err ErrNotAssigned, w_platform_pr1)
  ∧ ∃ pr newReviewer w',
      service.ReassignReviewer "pr-1" "u2" w_platform_pr1 = (Ok (pr, newReviewer), w')
      ∧ AssignedReviewers pr = service.replace_reviewer "u2" newReviewer ["u3"; "u2"].
Proof.
  assert (Hq : faults w_platform_pr1 = []) by reflexivity.
  assert (Hint : integrity (db w_platform_pr1)) by by_evaluation.
  assert (Hplain : plain_users (db w_platform_pr1)) by by_evaluation.
  assert (Hrow : pull_requests (db w_platform_pr1) !! "pr-1"
                 = Some {| pull_request_name := "Add feature"; author_id := "u1";
                           status := PRStatusOpen; created_at := 100%Z; merged_at := None |})
    by (vm_compute; reflexivity).
  assert (Hrevs : select_reviewers "pr-1" (db w_platform_pr1) = ["u3"; "u2"])
    by (vm_compute; reflexivity).
  split; [|split].
  - pose proof (ReassignReviewer_outcome "pr-9" "u2" w_platform_pr1 Hq Hint Hplain) as H.
    replace (pull_requests (db w_platform_pr1) !! "pr-9") with (@None pr_row) in H
      by (vm_compute; reflexivity).
    exact H.
  - pose proof (ReassignReviewer_outcome "pr-1" "u4" w_platform_pr1 Hq Hint Hplain) as H.
    rewrite Hrow, Hrevs in H. exact H.
  - pose proof (ReassignReviewer_outcome "pr-1" "u2" w_platform_pr1 Hq Hint Hplain) as H.
    rewrite Hrow, Hrevs in H. destruct H as (orow & Horow & _ & Hsome).
    assert (Ho : users (db w_platform_pr1) !! "u2"
                 = Some {| username := "Bob"; team_name := "platform"; is_active := true |})
      by (vm_compute; reflexivity).
    rewrite Ho in Horow. injection Horow as <-.
    destruct Hsome as (pr & new & w' & Hrun & _ & Hpr & _).
    + exists "u4", {| username := "Dan"; team_name := "platform"; is_active := true |}.
      split; [vm_compute; reflexivity|]. split; [done|]. split; [done|]. by_evaluation.
    + exists pr, new, w'. split; [exact Hrun | exact Hpr].
Defined.

(** X8. A ReassignReviewer that succeeds returns the pull request, still
    OPEN, with the departing reviewer replaced by the new one at the same
    position, and stores exactly that reviewer list for it: as many
    reviewers as before, the new one among them, the departing one gone
    unless it was drawn itself.  The reviewers of every other pull
    request, the rows of all pull requests, the users and the teams are
    as they were. *)
Theorem ReassignReviewer_effect (prID old newReviewer : string) (pr : PullRequest)
    (w w' : World) :
  service.ReassignReviewer prID old w = (Ok (pr, newReviewer), w') →
  PR_ID pr = prID
  ∧ PR_Status pr = PRStatusOpen
  ∧ AssignedReviewers pr
    = service.replace_reviewer old newReviewer (select_reviewers prID (db w))
  ∧ select_reviewers prID (db w') = AssignedReviewers pr
  ∧ length (select_reviewers prID (db w')) = length (select_reviewers prID (db w))
  ∧ newReviewer ∈ select_reviewers prID (db w')
  ∧ (newReviewer ≠ old → old ∉ select_reviewers prID (db w'))
  ∧ (∀ q, q ≠ prID → select_reviewers q (db w') = select_reviewers q (db w))
  ∧ pull_requests (db w') = pull_requests (db w)
  ∧ users (db w') = users (db w)
  ∧ teams (db w') = teams (db w).
Proof.
  intros (r & Hr & Hopen & Hin & -> & Hdb)%ReassignReviewer_ok. simpl in *.
  assert (Hstored : select_reviewers prID (db w')
                    = service.replace_reviewer old newReviewer (select_reviewers prID (db w))).
  { rewrite Hdb, select_reviewers_with_reviewer_set. by rewrite bool_decide_eq_true_2. }
  split; [done|]. split; [done|]. split; [done|]. split; [done|].
  split; [by rewrite Hstored, length_replace_reviewer|].
  split; [rewrite Hstored; apply elem_of_replace_reviewer; by left|].
  split.
  { intros Hne. rewrite Hstored. intros [[? _]|[? _]]%elem_of_replace_reviewer; congruence. }
  split.
  { intros q Hq. rewrite Hdb, select_reviewers_with_reviewer_set.
    by rewrite bool_decide_eq_false_2. }
  by rewrite Hdb.
Qed.

(** u2 replaced by u4 on pr-1 of the team of four. *)
Lemma ReassignReviewer_effect_witness :
  select_reviewers "pr-1" (db w_platform_replaced) = ["u3"; "u4"]
  ∧ users (db w_platform_replaced) = users (db w_platform_pr1).
Proof.
  assert (Hrun : service.ReassignReviewer "pr-1" "u2" w_platform_pr1
                 = (Ok ({| PR_ID := "pr-1"; PR_Name := "Add feature"; PR_AuthorID := "u1";
                           PR_Status := PRStatusOpen; AssignedReviewers := ["u3"; "u4"];
                           CreatedAt := Some 100%Z; MergedAt := None |}, "u4"),
                    w_platform_replaced))
    by (vm_compute; reflexivity).
  destruct (ReassignReviewer_effect _ _ _ _ _ _ Hrun)
    as (_ & _ & _ & Hrevs & _ & _ & _ & _ & _ & Husers & _).
  split; [exact Hrevs | exact Husers].
Defined.

(** ** The author is never a reviewer *)

Lemma assignment_ok_same (d d' : DB) :
  pull_requests d' = pull_requests d →
  pull_request_reviewers d' = pull_request_reviewers d →
  assignment_ok d → assignment_ok d'.
Proof.
  intros Hp Hl Hok. unfold assignment_ok, select_reviewers in *. by rewrite Hp, Hl.
Qed.

Lemma plain_users_put_members (team : string) (l : list TeamMember)
    (us : gmap string user_row) :
  map_Forall (λ uid _, quote_free uid) us →
  Forall (λ m, quote_free (Member_UserID m)) l →
  map_Forall (λ uid _, quote_free uid) (foldl (put_member team) us l).
Proof.
  intros Hus Hl uid row [(m & Hm & <- & _)|Hold]%lookup_put_members.
  - by apply (proj1 (Forall_forall _ _) Hl).
  - by apply (Hus uid row).
Qed.

Lemma foldl_add_member_frame (team : string) (l : list TeamMember) (d : DB) :
  pull_requests (foldl (add_member team) d l) = pull_requests d
  ∧ pull_request_reviewers (foldl (add_member team) d l) = pull_request_reviewers d.
Proof.
  revert d. induction l as [|m l' IH]; intros d; [done|]. simpl.
  destruct (IH (add_member team d m)) as [-> ->]. done.
Qed.

Lemma SetUserIsActive_store (uid : string) (active : bool) (w : World) :
  db (service.SetUserIsActive uid active w).2 = db w
  ∨ db (service.SetUserIsActive uid active w).2 = (update_user_is_active uid active (db w)).1.
Proof.
  unfold service.SetUserIsActive, map_err, repo.UpdateUserIsActive, bind.
  pose proof (leaves_db_roundtrip w) as H1.
  destruct (roundtrip w) as [[[]|e] w1]; simpl in *; [|by left]. right.
  rewrite <- H1. by destruct (select_user uid _).
Qed.

Lemma healthy_CreateTeam (t : Team) (w : World) :
  healthy (db w) → plain_op (OpCreateTeam t) →
  plain_users (db (service.CreateTeam t w).2) ∧ assignment_ok (db (service.CreateTeam t w).2).
Proof.
  intros (Hint & Hplain & Hok) Hop.
  destruct (service.CreateTeam t w) as [[t'|e] w'] eqn:Hrun.
  - apply CreateTeam_ok in Hrun as (_ & _ & Hdb). simpl.
    destruct (foldl_add_member (TeamName t) (Members t)
                (set_teams (λ ts, {[TeamName t]} ∪ ts) (db w))) as [_ Husers].
    rewrite <- Hdb in Husers. simpl in Husers. split.
    + unfold plain_users. rewrite Husers. by apply plain_users_put_members.
    + destruct (foldl_add_member_frame (TeamName t) (Members t)
                  (set_teams (λ ts, {[TeamName t]} ∪ ts) (db w))) as [Hp Hl].
      rewrite <- Hdb in Hp, Hl. by apply (assignment_ok_same (db w)).
  - pose proof (atomic_CreateTeam t w e) as Hat. rewrite Hrun in Hat. simpl in *.
    by rewrite Hat.
Qed.

Lemma healthy_SetUserIsActive (uid : string) (active : bool) (w : World) :
  healthy (db w) →
  plain_users (db (service.SetUserIsActive uid active w).2)
  ∧ assignment_ok (db (service.SetUserIsActive uid active w).2).
Proof.
  intros (Hint & Hplain & Hok).
  destruct (SetUserIsActive_store uid active w) as [->| ->]; [done|]. split.
  - intros i row. simpl. rewrite lookup_alter. case_decide.
    + subst. destruct (users (db w) !! i) as [r0|] eqn:E; simpl; [|done].
      intros _. by apply (Hplain i r0).
    + apply Hplain.
  - by apply (assignment_ok_same (db w)).
Qed.

Lemma healthy_CreatePR (id name author : string) (w : World) :
  healthy (db w) →
  plain_users (db (service.CreatePR id name author w).2)
  ∧ assignment_ok (db (service.CreatePR id name author w).2).
Proof.
  intros (Hint & Hplain & Hok).
  destruct (service.CreatePR id name author w) as [[pr|e] w'] eqn:Hrun.
  - pose proof Hrun as (now & Hpr & Hfresh & Hauthor & Hdb)%CreatePR_ok.
    apply CreatePR_plain_author in Hrun as (_ & _ & _ & Hnot & Hlen & _);
      [|by apply (plain_user author (db w))].
    simpl. split; [by rewrite Hdb|].
    intros q r. rewrite Hdb at 1. simpl. rewrite lookup_insert. case_decide as Hq.
    + subst q. intros [= <-]. simpl.
      rewrite Hdb, select_reviewers_with_pull_request, bool_decide_eq_true_2 by done.
      unfold select_reviewers. rewrite links_of_fresh; [done|].
      intros u Hin. destruct Hint as (_ & _ & Hfk & _).
      apply (proj1 (Forall_forall _ _) Hfk) in Hin as [[x Hx] _].
      simpl in Hx. by rewrite Hfresh in Hx.
    + intros Hr. rewrite Hdb, select_reviewers_with_pull_request.
      rewrite bool_decide_eq_false_2 by done. rewrite app_nil_r. by apply (Hok q r).
  - pose proof (atomic_CreatePR id name author w e) as Hat. rewrite Hrun in Hat.
    simpl in *. by rewrite Hat.
Qed.

Lemma healthy_MergePR (id : string) (w : World) :
  healthy (db w) →
  plain_users (db (service.MergePR id w).2) ∧ assignment_ok (db (service.MergePR id w).2).
Proof.
  intros (Hint & Hplain & Hok).
  destruct (MergePR_store id w) as [->|[t ->]]; [done|]. split; [done|].
  intros q r. simpl. rewrite lookup_alter. case_decide as Hq.
  - subst. destruct (pull_requests (db w) !! q) as [r0|] eqn:E; simpl; [|done].
    intros [= <-]. simpl. by apply (Hok q r0).
  - apply Hok.
Qed.

Lemma healthy_ReassignReviewer (prID old : string) (w : World) :
  healthy (db w) →
  plain_users (db (service.ReassignReviewer prID old w).2)
  ∧ assignment_ok (db (service.ReassignReviewer prID old w).2).
Proof.
  intros (Hint & Hplain & Hok).
  destruct (service.ReassignReviewer prID old w) as [[[pr new]|e] w'] eqn:Hrun.
  - pose proof Hrun as (r & Hr & Hopen & Hin & Hpr & Hdb)%ReassignReviewer_ok.
    assert (Hp1 : quote_free old).
    { apply (plain_user old (db w)); [done|]. by eapply reviewers_are_users. }
    assert (Hp2 : quote_free (author_id r)).
    { apply (plain_user _ (db w)); [done|]. by eapply author_is_user. }
    assert (Hp3 : Forall (λ e, quote_free e) (select_reviewers prID (db w))).
    { apply Forall_forall. intros u Hu. apply (plain_user u (db w)); [done|].
      by eapply reviewers_are_users. }
    destruct (ReassignReviewer_plain_ids prID old new pr r w w' Hrun Hr Hp1 Hp2 Hp3)
      as (_ & _ & Hne1 & Hne2 & Hne3 & Hrevs & _).
    simpl. split; [by rewrite Hdb|].
    intros q r'. rewrite Hdb at 1. simpl. intros Hr'.
    rewrite Hdb, select_reviewers_with_reviewer_set. case_bool_decide as Hq.
    + subst q. rewrite Hr in Hr'. injection Hr' as <-.
      destruct (Hok prID r Hr) as [Hnot Hlen]. rewrite Hrevs. split.
      * intros [[? _]|[_ ?]]%elem_of_replace_reviewer; congruence.
      * by rewrite length_replace_reviewer.
    + by apply (Hok q r').
  - pose proof (atomic_ReassignReviewer prID old w e) as Hat. rewrite Hrun in Hat.
    simpl in *. by rewrite Hat.
Qed.

Lemma healthy_step (o : op) (w : World) :
  healthy (db w) → plain_op o → healthy (db (run o w).2).
Proof.
  intros Hh Hop. split.
  - destruct Hh as (Hint & _). pose proof (integrity_run o w Hint) as H.
    by destruct (run o w) as [[a|e] w'].
  - destruct o; simpl; rewrite then_ret_world.
    + by apply healthy_CreateTeam.
    + unfold service.GetTeam.
      rewrite (leaves_map_err db _ _ (leaves_db_GetTeam name)). by destruct Hh.
    + by apply healthy_SetUserIsActive.
    + by apply healthy_CreatePR.
    + by apply healthy_MergePR.
    + by apply healthy_ReassignReviewer.
    + unfold service.GetReviews, repo.GetPullRequestsByReviewer.
      rewrite leaves_db_query. by destruct Hh.
    + unfold service.GetReviewerStats, repo.GetReviewerAssignmentStats.
      rewrite leaves_db_query. by destruct Hh.
Qed.

(** X10. From a store that satisfies the constraints of the schema, whose
    user ids have no quote and in which no pull request has its author
    among its reviewers nor more than two reviewers, every sequence of
    operations that creates no user id with a quote leads, whatever each
    operation returns, to a store with the same three properties.  The
    empty store is such a store. *)
Theorem author_never_reviews (ops : list op) (w : World) :
  healthy (db w) →
  Forall plain_op ops →
  healthy (db (run_all ops w))
  ∧ ∀ id r, pull_requests (db (run_all ops w)) !! id = Some r →
            (author_id r ∉ select_reviewers id (db (run_all ops w)))
            ∧ (length (select_reviewers id (db (run_all ops w))) ≤ 2)%nat.
Proof.
  intros Hh Hops.
  assert (H : healthy (db (run_all ops w))).
  { revert w Hh. induction Hops as [|o ops' Ho Hops IH]; intros w Hh; [done|].
    simpl. apply IH. by apply healthy_step. }
  split; [exact H|]. intros id r Hr. destruct H as (_ & _ & Hok). by apply (Hok id r).
Qed.

(** The README's operations from the empty store. *)
Lemma author_never_reviews_witness :
  "u1" ∉ select_reviewers "pr-1" (db (run_all readme_ops (calm empty_db))).
Proof.
  destruct (author_never_reviews readme_ops (calm empty_db)) as [_ H].
  - by_evaluation.
  - repeat constructor; by_evaluation.
  - apply (H "pr-1" {| pull_request_name := "Add feature"; author_id := "u1";
                       status := PRStatusOpen; created_at := 100%Z; merged_at := None |}).
    vm_compute. reflexivity.
Defined.

(** ** MergePR touches one row *)

(** X11. MergePR, whatever it returns and whatever the store does, leaves
    the teams, the users, the reviewer links and the rows of all other
    pull requests as they were, and creates no row.  In the row of its
    pull request it keeps the name, the author and created_at; that row is
    either as it was or MERGED with a merged_at. *)
Theorem MergePR_touches_one_row (id : string) (w : World) :
  teams (db (service.MergePR id w).2) = teams (db w)
  ∧ users (db (service.MergePR id w).2) = users (db w)
  ∧ pull_request_reviewers (db (service.MergePR id w).2) = pull_request_reviewers (db w)
  ∧ (∀ q, q ≠ id →
          pull_requests (db (service.MergePR id w).2) !! q = pull_requests (db w) !! q)
  ∧ (pull_requests (db w) !! id = None →
     pull_requests (db (service.MergePR id w).2) !! id = None)
  ∧ (∀ r, pull_requests (db w) !! id = Some r →
          ∃ r', pull_requests (db (service.MergePR id w).2) !! id = Some r'
                ∧ pull_request_name r' = pull_request_name r
                ∧ author_id r' = author_id r
                ∧ created_at r' = created_at r
                ∧ (r' = r ∨ (status r' = PRStatusMerged ∧ is_Some (merged_at r')))).
Proof.
  destruct (MergePR_store id w) as [->|[t ->]].
  - repeat split; try done. intros r Hr. exists r. repeat split; try done. by left.
  - simpl. repeat split; try done.
    + intros q Hq. by rewrite lookup_alter_ne.
    + intros Hr. by rewrite lookup_alter_eq, Hr.
    + intros r Hr. rewrite lookup_alter_eq, Hr. simpl. eexists. split; [done|].
      simpl. repeat split; try done. right. split; [done | by eexists].
Qed.

(** ** The assignments add up *)

Lemma sum_indicator (x : string) (D : list string) :
  NoDup D → x ∈ D →
  sum_list_with (λ u, if bool_decide (x = u) then 1 else 0) D = 1.
Proof.
  induction 1 as [|u D' Hu Hnd IH]; [by intros ?%elem_of_nil|].
  intros [->|Hin]%elem_of_cons; simpl.
  - rewrite bool_decide_eq_true_2 by done. f_equal.
    clear IH Hnd. induction D' as [|v D'' IH]; [done|]. simpl.
    apply not_elem_of_cons in Hu as [Hne Hu].
    rewrite bool_decide_eq_false_2 by done. by apply IH.
  - rewrite bool_decide_eq_false_2 by (intros ->; done). by apply IH.
Qed.

Lemma sum_list_with_plus {A} (f g : A → nat) (D : list A) :
  sum_list_with (λ u, f u + g u) D = sum_list_with f D + sum_list_with g D.
Proof. induction D as [|u D' IH]; [done|]. simpl. rewrite IH. lia. Qed.

Lemma sum_count_links (links : list (string * string)) (D : list string) :
  NoDup D →
  (∀ l, l ∈ links → l.2 ∈ D) →
  sum_list_with (λ u, length (filter (λ l : string * string, l.2 = u) links)) D
  = length links.
Proof.
  intros Hnd. induction links as [|[p x] links' IH]; intros Hsub.
  - clear. induction D as [|u D' IHD]; [done|]. simpl in *. exact IHD.
  - transitivity (sum_list_with
                    (λ u, (if bool_decide (x = u) then 1 else 0)
                          + length (filter (λ l : string * string, l.2 = u) links')) D).
    + clear. induction D as [|u D' IHD]; [done|]. simpl. rewrite IHD. f_equal.
      rewrite filter_cons. simpl. destruct (decide (x = u)) as [->|Hne].
      * by rewrite bool_decide_eq_true_2.
      * by rewrite bool_decide_eq_false_2.
    + rewrite sum_list_with_plus, IH by (intros l Hl; apply Hsub; by right).
      rewrite sum_indicator; [done|done|]. apply (Hsub (p, x)). by left.
Qed.

(** X12. Without a store failure the assignments GetReviewerStats reports
    add up to the number of reviewer links stored. *)
Theorem GetReviewerStats_total (w : World) :
  faults w = [] →
  ∃ l, service.GetReviewerStats w = (Ok l, w)
       ∧ sum_list_with Assignments l = length (pull_request_reviewers (db w)).
Proof.
  intros Hq. exists (select_reviewer_stats (db w)). split.
  - unfold service.GetReviewerStats, repo.GetReviewerAssignmentStats. by rewrite query_calm.
  - unfold select_reviewer_stats. rewrite merge_sort_Permutation.
    unfold group_by_user.
    rewrite <- (sum_count_links (pull_request_reviewers (db w))
                  (remove_dups (pull_request_reviewers (db w)).*2)).
    + generalize (remove_dups (pull_request_reviewers (db w)).*2). intros D.
      induction D as [|u D' IH]; [done|]. rewrite fmap_cons. simpl. by rewrite IH.
    + apply NoDup_remove_dups.
    + intros l Hl. apply elem_of_remove_dups, list_elem_of_fmap. by exists l.
Qed.

(** Two links after the replacement on the team of four. *)
Lemma GetReviewerStats_total_witness :
  ∃ l, service.GetReviewerStats w_platform_replaced = (Ok l, w_platform_replaced)
       ∧ sum_list_with Assignments l = 2.
Proof.
  destruct (GetReviewerStats_total w_platform_replaced) as (l & Hrun & Hsum); [reflexivity|].
  exists l. split; [exact Hrun|]. rewrite Hsum. vm_compute. reflexivity.
Defined.

(** ** The candidate query *)

(** X13. Without a store failure the candidate query is rejected by the
    store when the exclusion list is empty.  For a list that is not empty
    and whose ids have no quote it succeeds and leaves the store as it
    was; the rows are distinct active users of the team outside the list,
    at most [limit] of them, and fewer than [limit] only when they are
    all such users. *)
Theorem GetRandom_calm (team : string) (limit : nat) (exclude : list string) (w : World) :
  faults w = [] →
  (exclude = [] →
   (repo.GetRandomActiveReviewersFromTeamExcluding team limit exclude w).1
   = Err syntax_error)
  ∧ (exclude ≠ [] → Forall (λ e, quote_free e) exclude →
     ∃ picked w',
       repo.GetRandomActiveReviewersFromTeamExcluding team limit exclude w = (Ok picked, w')
       ∧ db w' = db w
       ∧ NoDup picked
       ∧ (length picked ≤ limit)%nat
       ∧ (∀ uid, uid ∈ picked → candidate team exclude (db w) uid)
       ∧ ((length picked < limit)%nat →
          ∀ uid, candidate team exclude (db w) uid → uid ∈ picked)).
Proof.
  intros Hq. split.
  - intros ->. unfold repo.GetRandomActiveReviewersFromTeamExcluding, bind. simpl.
    by rewrite roundtrip_calm.
  - intros Hne Hall.
    destruct (repo.GetRandomActiveReviewersFromTeamExcluding team limit exclude w)
      as [[picked|e] w'] eqn:Hrun.
    + pose proof Hrun as (Hdb & Hlen & Hnd & Hcand & _)%GetRandom_ok; [|done|done].
      exists picked, w'. split; [done|]. split; [done|]. split; [done|].
      split; [done|]. split; [done|].
      revert Hrun. unfold repo.GetRandomActiveReviewersFromTeamExcluding, bind. simpl.
      rewrite roundtrip_calm by done. unfold repo.select_candidates.
      rewrite read_exclusion_clause by done. simpl. intros [= <- _].
      intros Hlt uid Huid%elem_of_eligible_users.
      rewrite take_ge.
      * by rewrite shuffle_Permutation.
      * rewrite length_take in Hlt. lia.
    + exfalso. revert Hrun.
      unfold repo.GetRandomActiveReviewersFromTeamExcluding, bind. simpl.
      rewrite roundtrip_calm by done. unfold repo.select_candidates.
      by rewrite read_exclusion_clause.
Qed.

(** Two rows asked of the README's team with u1 excluded, and an empty
    exclusion list. *)
Lemma GetRandom_calm_witness :
  (repo.GetRandomActiveReviewersFromTeamExcluding "backend" 2 [] w_backend).1
  = Err syntax_error
  ∧ ∃ picked w',
      repo.GetRandomActiveReviewersFromTeamExcluding "backend" 2 ["u1"] w_backend
      = (Ok picked, w')
      ∧ NoDup picked.
Proof.
  destruct (GetRandom_calm "backend" 2 [] w_backend) as [Hempty _]; [reflexivity|].
  destruct (GetRandom_calm "backend" 2 ["u1"] w_backend) as [_ Hsome]; [reflexivity|].
  split; [by apply Hempty|].
  destruct Hsome as (picked & w' & Hrun & _ & Hnd & _); [discriminate|by_evaluation|].
  exists picked, w'. split; [exact Hrun | exact Hnd].
Defined.

(** * The HTTP handlers *)

Import httpapi.

(** Settles the classification of one concrete response. *)
Ltac settle_response :=
  simpl; split; [by_evaluation|];
  repeat split;
  try (intros; discriminate);
  try (intros [|]; discriminate);
  try (intros _; by left);
  try (intros _; by right);
  try (intros _; eexists; (split; [reflexivity|]); discriminate);
  try (intros _; eexists _, _; (split; [reflexivity|]); by_evaluation).

(** X14. Every response has one of the statuses 200, 201, 400, 404, 409
    and 500 and at most one body.  A 404 or a 409 carries an error body
    whose code is one of the six codes of the API; a 500 carries no body;
    a 400 carries no body or the error TEAM_EXISTS; a 200 or a 201
    carries one body that is not an error. *)
Theorem responses_classified (req : request) (w : World) :
  let rw := (serve req w).1 in
  status_of rw ∈ [200; 201; 400; 404; 409; 500]
  ∧ (status_of rw = 500 → written rw = [])
  ∧ (status_of rw = 404 ∨ status_of rw = 409 →
     ∃ code msg, written rw = [ErrorResponse code msg]
                 ∧ code ∈ [CodeTeamExists; CodePRExists; CodePRMerged; CodeNotAssigned;
                           CodeNoCandidate; CodeNotFound])
  ∧ (status_of rw = 400 →
     written rw = [] ∨ written rw = [ErrorResponse CodeTeamExists "team already exists"])
  ∧ (status_of rw = 200 ∨ status_of rw = 201 →
     ∃ p, written rw = [p] ∧ ∀ code msg, p ≠ ErrorResponse code msg).
Proof.
  destruct req as [decoded|name|decoded|uid|decoded|decoded|decoded| |]; cbv zeta.
  - unfold serve, Router, handleTeamAdd. destruct decoded as [t|]; [|settle_response].
    destruct (service.CreateTeam t w) as [[team|e] w']; [settle_response|].
    destruct e; settle_response.
  - unfold serve, Router, handleTeamGet. case_bool_decide; [settle_response|].
    destruct (service.GetTeam name w) as [[t|e] w']; settle_response.
  - unfold serve, Router, handleSetIsActive.
    destruct decoded as [[user active]|]; [|settle_response].
    destruct (service.SetUserIsActive user active w) as [[u|e] w']; [settle_response|].
    destruct e; settle_response.
  - unfold serve, Router, handleUserReviews. case_bool_decide; [settle_response|].
    destruct (service.GetReviews uid w) as [[l|e] w']; settle_response.
  - unfold serve, Router, handlePRCreate.
    destruct decoded as [[[id name] author]|]; [|settle_response].
    destruct (service.CreatePR id name author w) as [[pr|e] w']; [settle_response|].
    destruct e; settle_response.
  - unfold serve, Router, handlePRMerge. destruct decoded as [id|]; [|settle_response].
    destruct (service.MergePR id w) as [[pr|e] w']; [settle_response|].
    destruct e; settle_response.
  - unfold serve, Router, handlePRReassign.
    destruct decoded as [[id old]|]; [|settle_response].
    destruct (service.ReassignReviewer id old w) as [[[pr new]|e] w']; [settle_response|].
    destruct e; settle_response.
  - unfold serve, Router, handleReviewerStats.
    destruct (service.GetReviewerStats w) as [[l|e] w']; settle_response.
  - unfold serve, Router, handleHealth. settle_response.
Qed.

Lemma fst_Err_eq {A} (m : M A) (w w' : World) (e : error) :
  m w = (Err e, w') → (m w).1 = Err e ∧ (m w).2 = w'.
Proof. by intros ->. Qed.

Lemma GetPullRequestWithReviewers_error (id : string) (w : World) :
  (repo.GetPullRequestWithReviewers id w).1 ≠ Err ErrNotFound.
Proof.
  unfold repo.GetPullRequestWithReviewers, query, bind.
  destruct (roundtrip w) as [[[]|e1] w1] eqn:H1; simpl.
  - destruct (select_pull_request id (db w1)) as [r|]; simpl; [|done].
    destruct (roundtrip w1) as [[[]|e2] w2] eqn:H2; simpl; [done|].
    revert H2. unfold roundtrip. destruct (faults w1) as [|[?|] ?]; congruence.
  - revert H1. unfold roundtrip. destruct (faults w) as [|[?|] ?]; congruence.
Qed.

(** MergePR reports [ErrNotFound] only from its first read: the store is
    then as it was. *)
Lemma MergePR_not_found_store (id : string) (w : World) :
  (service.MergePR id w).1 = Err ErrNotFound → db (service.MergePR id w).2 = db w.
Proof.
  unfold service.MergePR, bind.
  pose proof (leaves_map_err db service.no_rows_is_not_found _
                (leaves_db_GetPullRequestWithReviewers id) w) as H1.
  destruct (map_err _ _ w) as [[pr|e] w1]; simpl in *; [|done].
  case_bool_decide; [done|]. simpl.
  unfold repo.SetPRMerged, exec, bind. simpl.
  pose proof (leaves_db_roundtrip (set_clock (tl (clock w1)) w1)) as H2.
  destruct (roundtrip _) as [[[]|e] w2] eqn:Hrt; simpl in *.
  - intros Hre. by apply GetPullRequestWithReviewers_error in Hre.
  - intros [= ->]. revert Hrt. unfold roundtrip.
    by destruct (faults _) as [|[?|] ?].
Qed.

(** X15. A request that is not answered with 200 or 201 has left the
    store as it was, with one exception: POST /pullRequest/merge answered
    with 500 may have applied its update.  A 400 without a body was
    answered before the service was called: the world is untouched, no
    round trip to the store was made. *)
Theorem failed_requests_and_the_store (req : request) (w : World) :
  let rw := (serve req w).1 in
  let w' := (serve req w).2 in
  status_of rw ≠ 200 → status_of rw ≠ 201 →
  (db w' = db w
   ∨ ∃ id t, req = POST_pullRequest_merge (Some id) ∧ status_of rw = 500
             ∧ db w' = update_merged id (Some t) (db w))
  ∧ (status_of rw = 400 → written rw = [] → w' = w).
Proof.
  destruct req as [decoded|name|decoded|uid|decoded|decoded|decoded| |]; cbv zeta.
  - unfold serve, Router, handleTeamAdd. destruct decoded as [t|]; [|by split; [left|]].
    destruct (service.CreateTeam t w) as [[team|e] w'] eqn:Hrun; [done|].
    apply fst_Err_eq in Hrun as [He <-]. intros _ _. split.
    + left. by apply (atomic_CreateTeam t w e).
    + destruct e; simpl; discriminate.
  - unfold serve, Router, handleTeamGet. case_bool_decide; [by split; [left|]|].
    pose proof (leaves_map_err db service.no_rows_is_not_found _
                  (leaves_db_GetTeam name) w) as Hl.
    fold (service.GetTeam name) in Hl.
    destruct (service.GetTeam name w) as [[t|e] w']; [done|]. intros _ _.
    split; [by left | discriminate].
  - unfold serve, Router, handleSetIsActive.
    destruct decoded as [[user active]|]; [|by split; [left|]].
    destruct (service.SetUserIsActive user active w) as [[u|e] w'] eqn:Hrun; [done|].
    apply fst_Err_eq in Hrun as [He <-]. intros _ _. split.
    + left. by apply (atomic_map_err _ _ (atomic_UpdateUserIsActive user active) w e).
    + destruct e; simpl; discriminate.
  - unfold serve, Router, handleUserReviews. case_bool_decide; [by split; [left|]|].
    pose proof (leaves_db_query (select_prs_by_reviewer uid) w) as Hl.
    fold (repo.GetPullRequestsByReviewer uid) in Hl. fold (service.GetReviews uid) in Hl.
    destruct (service.GetReviews uid w) as [[l|e] w']; [done|]. intros _ _.
    split; [by left | discriminate].
  - unfold serve, Router, handlePRCreate.
    destruct decoded as [[[id name] author]|]; [|by split; [left|]].
    destruct (service.CreatePR id name author w) as [[pr|e] w'] eqn:Hrun; [done|].
    apply fst_Err_eq in Hrun as [He <-]. intros _ _. split.
    + left. by apply (atomic_CreatePR id name author w e).
    + destruct e; simpl; discriminate.
  - unfold serve, Router, handlePRMerge. destruct decoded as [id|]; [|by split; [left|]].
    pose proof (MergePR_store id w) as Hstore.
    destruct (service.MergePR id w) as [[pr|e] w'] eqn:Hrun; [done|]. simpl in Hstore.
    intros _ _. split.
    + destruct Hstore as [H|[t H]]; [by left|].
      destruct (decide (e = ErrNotFound)) as [->|Hne].
      * left. apply fst_Err_eq in Hrun as [He <-]. by apply MergePR_not_found_store.
      * right. exists id, t. split; [done|]. split; [|done].
        destruct e; simpl; done.
    + destruct e; simpl; discriminate.
  - unfold serve, Router, handlePRReassign.
    destruct decoded as [[id old]|]; [|by split; [left|]].
    destruct (service.ReassignReviewer id old w) as [[[pr new]|e] w'] eqn:Hrun; [done|].
    apply fst_Err_eq in Hrun as [He <-]. intros _ _. split.
    + left. by apply (atomic_ReassignReviewer id old w e).
    + destruct e; simpl; discriminate.
  - unfold serve, Router, handleReviewerStats.
    pose proof (leaves_db_query select_reviewer_stats w) as Hl.
    fold repo.GetReviewerAssignmentStats in Hl. fold service.GetReviewerStats in Hl.
    destruct (service.GetReviewerStats w) as [[l|e] w']; [done|]. intros _ _.
    split; [by left | discriminate].
  - done.
Qed.

(** pr-1 merged while the connection breaks after the update: the answer
    is 500, the pull request is merged. *)
Lemma failed_requests_and_the_store_witness :
  status_of (serve (POST_pullRequest_merge (Some "pr-1")) w_pr1_late_failure).1 = 500
  ∧ (db (serve (POST_pullRequest_merge (Some "pr-1")) w_pr1_late_failure).2
     = db w_pr1_late_failure
     ∨ ∃ id t, POST_pullRequest_merge (Some "pr-1") = POST_pullRequest_merge (Some id)
               ∧ status_of (serve (POST_pullRequest_merge (Some "pr-1"))
                                  w_pr1_late_failure).1 = 500
               ∧ db (serve (POST_pullRequest_merge (Some "pr-1")) w_pr1_late_failure).2
                 = update_merged id (Some t) (db w_pr1_late_failure)).
Proof.
  split; [vm_compute; reflexivity|].
  apply (failed_requests_and_the_store (POST_pullRequest_merge (Some "pr-1"))
           w_pr1_late_failure); vm_compute; discriminate.
Defined.

(** X16. GET /team/get never answers 500.  With a team name given, the
    answer is the stored team with status 200, and then the team is in the
    store, or it is 404 NOT_FOUND [team not found]; a store failure is
    answered with that 404 as well, also for a team that is stored. *)
Theorem team_get_answers (name : string) (w : World) :
  name ≠ "" →
  ((∃ t, (serve (GET_team_get name) w).1
         = {| header := Some 200; written := [TeamValue t] |}
         ∧ TeamName t = name ∧ name ∈ teams (db w))
   ∨ (serve (GET_team_get name) w).1
     = {| header := Some 404; written := [ErrorResponse CodeNotFound "team not found"] |})
  ∧ (∀ msg fs, faults w = Some msg :: fs →
       serve (GET_team_get name) w
       = ({| header := Some 404;
             written := [ErrorResponse CodeNotFound "team not found"] |},
          set_faults fs w)).
Proof.
  intros Hname. unfold serve, Router, handleTeamGet.
  rewrite bool_decide_eq_false_2 by done. split.
  - destruct (service.GetTeam name w) as [[t|e] w'] eqn:Hrun; [|by right].
    left. exists t. split; [done|].
    revert Hrun. unfold service.GetTeam, map_err, repo.GetTeam, bind, query, bind.
    pose proof (leaves_db_roundtrip w) as Hdb.
    destruct (roundtrip w) as [[[]|e1] w1]; simpl in *; [|done].
    unfold select_team_join. rewrite Hdb. case_bool_decide as Hin; [|done].
    pose proof (GetTeam_scan_rows name (users_of_team name (db w))) as Hscan.
    destruct (users_of_team name (db w)) as [|kv us] eqn:Hus.
    + simpl. by intros [= <- _].
    + rewrite Hscan by done. by intros [= <- _].
  - intros msg fs Hq. unfold service.GetTeam, map_err, repo.GetTeam, bind, query, bind,
      roundtrip. by rewrite Hq.
Qed.

(** The README's team while the store is down. *)
Lemma team_get_answers_witness :
  "backend" ∈ teams (db w_backend_down)
  ∧ (serve (GET_team_get "backend") w_backend_down).1
    = {| header := Some 404; written := [ErrorResponse CodeNotFound "team not found"] |}.
Proof.
  split; [by_evaluation|].
  destruct (team_get_answers "backend" w_backend_down) as [_ Hdown]; [discriminate|].
  by rewrite (Hdown "driver: bad connection" []).
Defined.

Lemma teams_foldl_add_member (team : string) (l : list TeamMember) (d : DB) :
  teams (foldl (add_member team) d l) = teams d.
Proof. revert d. induction l as [|m l' IH]; intros d; [done|]. simpl. by rewrite IH. Qed.

(** X17. The status 201 is answered by POST /team/add and POST
    /pullRequest/create alone, and only for what was not stored before
    and is stored now: the team of the body, returned as it was sent, or
    the pull request of the body, returned OPEN with the reviewers that
    were linked to it. *)
Theorem created_is_stored (req : request) (w : World) :
  status_of (serve req w).1 = 201 →
  (∃ t, req = POST_team_add (Some t)
        ∧ written (serve req w).1 = [TeamEnvelope t]
        ∧ (TeamName t ∉ teams (db w))
        ∧ TeamName t ∈ teams (db (serve req w).2))
  ∨ (∃ id name author pr,
        req = POST_pullRequest_create (Some (id, name, author))
        ∧ written (serve req w).1 = [PREnvelope pr]
        ∧ PR_ID pr = id ∧ PR_Name pr = name ∧ PR_AuthorID pr = author
        ∧ PR_Status pr = PRStatusOpen
        ∧ pull_requests (db w) !! id = None
        ∧ is_Some (pull_requests (db (serve req w).2) !! id)
        ∧ select_reviewers id (db (serve req w).2)
          = (select_reviewers id (db w) ++ AssignedReviewers pr)%list).
Proof.
  destruct req as [decoded|name|decoded|uid|decoded|decoded|decoded| |].
  - unfold serve, Router, handleTeamAdd. destruct decoded as [t|]; [|done].
    destruct (service.CreateTeam t w) as [[team|e] w'] eqn:Hrun.
    + intros _. left. exists t.
      destruct (CreateTeam_ok _ _ _ _ Hrun) as (-> & Hnew & Hdb).
      split; [done|]. split; [done|]. split; [done|]. simpl.
      rewrite Hdb, teams_foldl_add_member. simpl.
      apply elem_of_union. left. by apply elem_of_singleton.
    + simpl. case_bool_decide; simpl; discriminate.
  - unfold serve, Router, handleTeamGet. case_bool_decide; [done|].
    destruct (service.GetTeam name w) as [[t|e] w']; simpl; discriminate.
  - unfold serve, Router, handleSetIsActive. destruct decoded as [[user active]|]; [|done].
    destruct (service.SetUserIsActive user active w) as [[u|e] w']; [done|].
    simpl. case_bool_decide; simpl; discriminate.
  - unfold serve, Router, handleUserReviews. case_bool_decide; [done|].
    destruct (service.GetReviews uid w) as [[l|e] w']; simpl; discriminate.
  - unfold serve, Router, handlePRCreate.
    destruct decoded as [[[id name] author]|]; [|done].
    destruct (service.CreatePR id name author w) as [[pr|e] w'] eqn:Hrun.
    + intros _. right. exists id, name, author, pr.
      destruct (CreatePR_ok _ _ _ _ _ _ Hrun) as (now & Hpr & Hnew & _ & Hdb).
      split; [done|]. split; [done|]. rewrite Hpr. simpl.
      do 4 (split; [done|]). split; [done|]. rewrite Hdb. split.
      * unfold with_pull_request. simpl. rewrite lookup_insert_eq. by eexists.
      * rewrite select_reviewers_with_pull_request.
        by rewrite bool_decide_eq_true_2.
    + simpl. repeat case_bool_decide; simpl; discriminate.
  - unfold serve, Router, handlePRMerge. destruct decoded as [id|]; [|done].
    destruct (service.MergePR id w) as [[pr|e] w']; [done|].
    simpl. case_bool_decide; simpl; discriminate.
  - unfold serve, Router, handlePRReassign. destruct decoded as [[id old]|]; [|done].
    destruct (service.ReassignReviewer id old w) as [[[pr new]|e] w']; [done|].
    simpl. repeat case_bool_decide; simpl; discriminate.
  - unfold serve, Router, handleReviewerStats.
    destruct (service.GetReviewerStats w) as [[l|e] w']; simpl; discriminate.
  - done.
Qed.

(** The README's first pull request, asked for over HTTP. *)
Lemma created_is_stored_witness :
  pull_requests (db w_backend) !! "pr-1" = None
  ∧ is_Some (pull_requests
               (db (serve (POST_pullRequest_create (Some ("pr-1", "Add feature", "u1")))
                          w_backend).2) !! "pr-1").
Proof.
  destruct (created_is_stored
              (POST_pullRequest_create (Some ("pr-1", "Add feature", "u1"))) w_backend)
    as [(t & Hreq & _)|(id & name & author & pr & Hreq & _ & _ & _ & _ & _ & Hnew & Hnow & _)];
    [vm_compute; reflexivity | discriminate |].
  injection Hreq as <- _ _. split; [exact Hnew | exact Hnow].
Defined.

(** A handler changes the world as the service method it calls does, and
    not at all when it calls none. *)
Lemma serve_world (req : request) (w : World) :
  (serve req w).2 = match op_of req with
                    | Some o => (run o w).2
                    | None => w
                    end.
Proof.
  destruct req as [[t|]|name|[[user active]|]|uid|[[[id name] author]|]|[id|]|[[id old]|]| |];
    simpl; try done; unfold serve, Router.
  - unfold handleTeamAdd. rewrite then_ret_world.
    by destruct (service.CreateTeam t w) as [[?|?] ?].
  - unfold handleTeamGet. case_bool_decide; [done|]. simpl. rewrite then_ret_world.
    by destruct (service.GetTeam name w) as [[?|?] ?].
  - unfold handleSetIsActive. rewrite then_ret_world.
    by destruct (service.SetUserIsActive user active w) as [[?|?] ?].
  - unfold handleUserReviews. case_bool_decide; [done|]. simpl. rewrite then_ret_world.
    by destruct (service.GetReviews uid w) as [[?|?] ?].
  - unfold handlePRCreate. rewrite then_ret_world.
    by destruct (service.CreatePR id name author w) as [[?|?] ?].
  - unfold handlePRMerge. rewrite then_ret_world.
    by destruct (service.MergePR id w) as [[?|?] ?].
  - unfold handlePRReassign. rewrite then_ret_world.
    by destruct (service.ReassignReviewer id old w) as [[[? ?]|?] ?].
  - unfold handleReviewerStats. rewrite then_ret_world.
    by destruct (service.GetReviewerStats w) as [[?|?] ?].
Qed.

(** X18. Requests served one after another, whatever they are and
    whatever is answered to each, keep the constraints of the schema:
    every user references a stored team, every pull request a stored
    author, every reviewer link a stored pull request and a stored user,
    and no link is stored twice. *)
Theorem requests_keep_integrity (reqs : list request) (w : World) :
  integrity (db w) → integrity (db (serve_all reqs w)).
Proof.
  revert w. induction reqs as [|req reqs' IH]; intros w Hw; [done|].
  simpl. apply IH. rewrite serve_world. destruct (op_of req) as [o|]; [|done].
  pose proof (integrity_run o w Hw) as H.
  by destruct (run o w) as [[a|e] w'].
Qed.

(** The README's requests from the empty store. *)
Lemma requests_keep_integrity_witness :
  integrity (db (serve_all readme_requests (calm empty_db))).
Proof. apply requests_keep_integrity. apply integrity_empty. Defined.
